(** * gsm: the versioned secret store and its file-backed wrapper

    A shallow embedding of the packages [models] ([Secret],
    [SecretVersion], [generateChecksum]) and [storage] ([MemoryStorage],
    [PersistentStorage]) of charlesgreen/gsm, and the properties of the
    store that the specification states.

    Conventions of the embedding.
    - A Go [string] is a sequence of bytes: [string] of 8-bit [ascii].
    - A Go [int] is 64 bits wide: a [Z] kept in range by [wrap64].
    - A Go [map] is a reference that may be nil: [gomap V], with reads
      that see a nil map as empty and writes that panic on it.
    - A call either returns, parks its goroutine forever on a lock, or
      panics: [result].
    - [time.Now()] and [generateEtag()] read the clock and the random
      source; each operation that uses them takes their values as an
      [Env] argument.
    - Every caller in the repository hands [CreateSecret] a secret that
      [NewSecret] has just allocated, so no two keys share one [Secret]
      object and the map is modelled by value. *)

From Stdlib Require Import ZArith Lia Bool List Ascii String.
From Stdlib.Strings Require Import Byte.
From Stdlib Require Import DecimalString DecimalZ DecimalFacts OrderedTypeEx.
From stdpp Require Import base option list gmap strings sorting fin_maps.

Local Open Scope string_scope.
Local Open Scope Z_scope.

(** ** Outcomes of a call *)

Inductive result (A : Type) : Type :=
| Returns (a : A)     (* the call returns [a] *)
| Blocks              (* the goroutine waits on a lock nobody will release *)
| Panics.             (* run-time panic *)
Arguments Returns {A} a.
Arguments Blocks {A}.
Arguments Panics {A}.

#[global] Instance result_ret : MRet result := fun A a => Returns a.
#[global] Instance result_bind : MBind result := fun A B k r =>
  match r with
  | Returns a => k a
  | Blocks => Blocks
  | Panics => Panics
  end.

#[global] Instance result_fmap : FMap result := fun A B f r =>
  match r with
  | Returns a => Returns (f a)
  | Blocks => Blocks
  | Panics => Panics
  end.

(** ** Go's [int] *)

Definition wrap64 (z : Z) : Z := (z + 2 ^ 63) mod 2 ^ 64 - 2 ^ 63.
Definition MaxInt : Z := 2 ^ 63 - 1.
Definition MinInt : Z := - 2 ^ 63.

(** [strconv.Itoa]: decimal digits, a leading minus sign for negatives. *)
Definition Itoa (z : Z) : string := NilEmpty.string_of_int (Z.to_int z).

(** [strconv.Atoi]: an optional sign, at least one decimal digit, and a
    value that fits an [int]; anything else is an error ([None]). *)
Definition digit_of (c : ascii) : option Z :=
  let n := Z.of_N (N_of_ascii c) in
  if (48 <=? n) && (n <=? 57) then Some (n - 48) else None.

Fixpoint parse_digits (acc : Z) (s : string) : option Z :=
  match s with
  | EmptyString => Some acc
  | String c s' =>
      match digit_of c with
      | Some d => parse_digits (acc * 10 + d) s'
      | None => None
      end
  end.

Definition Atoi (s : string) : option Z :=
  let parse_body neg body :=
    match body with
    | EmptyString => None
    | _ =>
        match parse_digits 0 body with
        | Some n =>
            let v := if neg : bool then - n else n in
            if (MinInt <=? v) && (v <=? MaxInt) then Some v else None
        | None => None
        end
    end in
  match s with
  | EmptyString => None
  | String "-" body => parse_body true body
  | String "+" body => parse_body false body
  | _ => parse_body false s
  end.

(** ** Go maps *)

Definition gomap (V : Type) : Type := option (gmap string V).

Definition mget {V} (m : gomap V) (k : string) : option V :=
  match m with
  | Some g => g !! k
  | None => None
  end.

Definition mset {V} (m : gomap V) (k : string) (v : V) : result (gomap V) :=
  match m with
  | Some g => Returns (Some (<[k := v]> g))
  | None => Panics
  end.

Definition mdelete {V} (m : gomap V) (k : string) : gomap V :=
  match m with
  | Some g => Some (delete k g)
  | None => None
  end.

(** A write through the pointer that the map holds under [k]: the map
    then leads to the object as mutated. *)
Definition mstore {V} (m : gomap V) (k : string) (v : V) : gomap V :=
  match m with
  | Some g => Some (<[k := v]> g)
  | None => None
  end.

Definition mentries {V} (m : gomap V) : list (string * V) :=
  match m with
  | Some g => map_to_list g
  | None => []
  end.

(** ** [sync.RWMutex], seen from the one goroutine that runs the call *)

Inductive RWMutex : Type :=
| Unlocked
| RLocked (readers : nat)   (* [S readers] read locks are held *)
| WLocked.

Definition Lock (mu : RWMutex) : result RWMutex :=
  match mu with
  | Unlocked => Returns WLocked
  | _ => Blocks
  end.

Definition Unlock (mu : RWMutex) : result RWMutex :=
  match mu with
  | WLocked => Returns Unlocked
  | _ => Panics
  end.

Definition RLock (mu : RWMutex) : result RWMutex :=
  match mu with
  | Unlocked => Returns (RLocked 0)
  | RLocked n => Returns (RLocked (S n))
  | WLocked => Blocks
  end.

Definition RUnlock (mu : RWMutex) : result RWMutex :=
  match mu with
  | RLocked 0 => Returns Unlocked
  | RLocked (S n) => Returns (RLocked n)
  | _ => Panics
  end.

(** ** Checksums: [hash/crc32] and [crypto/sha256]

    The two standard-library functions [generateChecksum] calls, written
    from their defining standards: CRC-32 of IEEE 802.3 (reflected
    polynomial [0xEDB88320], initial value and final complement
    [0xFFFFFFFF]) and SHA-256 of FIPS 180-4. *)

Module Checksum.

Definition mask32 (z : Z) : Z := Z.land z 0xFFFFFFFF.

Definition byteZ (b : byte) : Z := Z.of_N (Byte.to_N b).

Fixpoint crc_bits (n : nat) (crc : Z) : Z :=
  match n with
  | O => crc
  | S n' =>
      crc_bits n'
        (if Z.testbit crc 0
         then Z.lxor (Z.shiftr crc 1) 0xEDB88320
         else Z.shiftr crc 1)
  end.

Definition crc_update (crc : Z) (b : byte) : Z :=
  crc_bits 8 (Z.lxor crc (byteZ b)).

Definition ChecksumIEEE (data : list byte) : Z :=
  Z.lxor (fold_left crc_update data 0xFFFFFFFF) 0xFFFFFFFF.

(** SHA-256. *)

Definition add32 (a b : Z) : Z := mask32 (a + b).
Definition rotr (n x : Z) : Z :=
  mask32 (Z.lor (Z.shiftr x n) (Z.shiftl x (32 - n))).
Definition shr (n x : Z) : Z := Z.shiftr x n.

Definition Ch (x y z : Z) : Z :=
  Z.lxor (Z.land x y) (Z.land (Z.lxor x 0xFFFFFFFF) z).
Definition Maj (x y z : Z) : Z :=
  Z.lxor (Z.lxor (Z.land x y) (Z.land x z)) (Z.land y z).
Definition Sigma0 (x : Z) : Z := Z.lxor (Z.lxor (rotr 2 x) (rotr 13 x)) (rotr 22 x).
Definition Sigma1 (x : Z) : Z := Z.lxor (Z.lxor (rotr 6 x) (rotr 11 x)) (rotr 25 x).
Definition sigma0 (x : Z) : Z := Z.lxor (Z.lxor (rotr 7 x) (rotr 18 x)) (shr 3 x).
Definition sigma1 (x : Z) : Z := Z.lxor (Z.lxor (rotr 17 x) (rotr 19 x)) (shr 10 x).

(** The round constants are the first 32 bits of the fractional parts
    of the cube roots of the first 64 primes, the initial hash value
    those of the square roots of the first 8. *)
Definition is_prime (n : nat) : bool :=
  forallb (fun d => negb (n mod d =? 0)%nat) (seq 2 (n - 2)).

Definition primes : list Z :=
  Z.of_nat <$> firstn 64 (List.filter is_prime (seq 2 400)).

Fixpoint cbrt_bits (k : nat) (n r : Z) : Z :=
  match k with
  | O => r
  | S k' =>
      let c := r + 2 ^ Z.of_nat k' in
      cbrt_bits k' n (if c ^ 3 <=? n then c else r)
  end.

Definition cbrt (n : Z) : Z := cbrt_bits 40 n 0.

Definition K256 : list Z :=
  Eval vm_compute in (fun p => mask32 (cbrt (p * 2 ^ 96))) <$> primes.

Definition H0 : list Z :=
  Eval vm_compute in (fun p => mask32 (Z.sqrt (p * 2 ^ 64))) <$> firstn 8 primes.

(** Padding: the byte [0x80], zero bytes up to 56 mod 64, then the bit
    length as a 64-bit big-endian integer. *)
Fixpoint be_bytes (n : nat) (z : Z) : list Z :=
  match n with
  | O => []
  | S n' => Z.land (Z.shiftr z (8 * Z.of_nat n')) 0xFF :: be_bytes n' z
  end.

Definition pad (msg : list Z) : list Z :=
  let len := Z.of_nat (List.length msg) in
  let zeros := Z.to_nat ((55 - len) mod 64) in
  msg ++ [0x80] ++ repeat 0 zeros ++ be_bytes 8 (Z.land (8 * len) 0xFFFFFFFFFFFFFFFF).

Fixpoint be_words (n : nat) (bs : list Z) : list Z :=
  match n, bs with
  | S n', b0 :: b1 :: b2 :: b3 :: bs' =>
      Z.lor (Z.shiftl b0 24) (Z.lor (Z.shiftl b1 16) (Z.lor (Z.shiftl b2 8) b3))
      :: be_words n' bs'
  | _, _ => []
  end.

(** The message schedule, newest word first: [w] holds W(t-1), W(t-2), ... *)
Fixpoint schedule (n : nat) (w : list Z) : list Z :=
  match n with
  | O => w
  | S n' =>
      let wt := add32 (add32 (sigma1 (nth 1 w 0)) (nth 6 w 0))
                      (add32 (sigma0 (nth 14 w 0)) (nth 15 w 0)) in
      schedule n' (wt :: w)
  end.

Definition round (st : list Z) (kw : Z * Z) : list Z :=
  match st with
  | [a; b; c; d; e; f; g; h] =>
      let t1 := add32 (add32 (add32 h (Sigma1 e)) (add32 (Ch e f g) (fst kw))) (snd kw) in
      let t2 := add32 (Sigma0 a) (Maj a b c) in
      [add32 t1 t2; a; b; c; add32 d t1; e; f; g]
  | _ => st
  end.

Fixpoint zip_add (xs ys : list Z) : list Z :=
  match xs, ys with
  | x :: xs', y :: ys' => add32 x y :: zip_add xs' ys'
  | _, _ => []
  end.

Definition block (h : list Z) (bs : list Z) : list Z :=
  let w := rev (schedule 48 (rev (be_words 16 bs))) in
  zip_add h (fold_left round (combine K256 w) h).

Fixpoint blocks (n : nat) (h : list Z) (bs : list Z) : list Z :=
  match n with
  | O => h
  | S n' => blocks n' (block h (firstn 64 bs)) (skipn 64 bs)
  end.

Definition Sum256 (data : list byte) : list Z :=
  let bs := pad (List.map byteZ data) in
  flat_map (be_bytes 4) (blocks (List.length bs / 64)%nat H0 bs).

(** [fmt.Sprintf] with the verbs [%08x] (on a [uint32]) and [%x] (on a
    byte array): lower-case hexadecimal. *)
Definition hex_digit (z : Z) : ascii :=
  ascii_of_N (Z.to_N (if z <? 10 then 48 + z else 87 + z)).

Fixpoint hex_fixed (n : nat) (z : Z) : string :=
  match n with
  | O => EmptyString
  | S n' => String (hex_digit (Z.land (Z.shiftr z (4 * Z.of_nat n')) 0xF)) (hex_fixed n' z)
  end.

Definition hex08 (z : Z) : string := hex_fixed 8 z.

Fixpoint hex_bytes (bs : list Z) : string :=
  match bs with
  | [] => EmptyString
  | b :: bs' => hex_fixed 2 b +:+ hex_bytes bs'
  end.

End Checksum.

Definition bytes_of_string (s : string) : list byte := list_byte_of_string s.

(** ** internal/models *)

(** An instant ([time.Time] in UTC), in nanoseconds since the epoch. *)
Definition Time : Type := Z.

(** [type SecretVersionState string] and its three constants. *)
Definition SecretVersionState : Type := string.
Definition StateEnabled : SecretVersionState := "ENABLED".
Definition StateDisabled : SecretVersionState := "DISABLED".
Definition StateDestroyed : SecretVersionState := "DESTROYED".

Record SecretVersionChecksum : Type := {
  Crc32c : string;
  Sha256 : string
}.

Record SecretVersion : Type := {
  vName : string;
  vCreateTime : Time;
  State : SecretVersionState;
  vEtag : string;
  Data : list byte;
  Checksum : option SecretVersionChecksum
}.

Record CustomerManagedEncryption : Type := { KmsKeyName : string }.

Record AutomaticReplication : Type := {
  aCustomerManagedEncryption : option CustomerManagedEncryption
}.

Record Replica : Type := {
  Location : string;
  rCustomerManagedEncryption : option CustomerManagedEncryption
}.

Record UserManagedReplication : Type := {
  Replicas : option (list (option Replica))
}.

Record Replication : Type := {
  Automatic : option AutomaticReplication;
  UserManaged : option UserManagedReplication
}.

Record Secret : Type := {
  Name : string;
  CreateTime : Time;
  Labels : gomap string;
  Replication_ : Replication;
  Etag : string;
  Versions : gomap SecretVersion;
  VersionCount : Z
}.

(** The secret [s] after its version map and its counter, the two fields
    the store mutates in place, have been set. *)
Definition with_versions (s : Secret) (versions : gomap SecretVersion)
    (count : Z) : Secret :=
  {| Name := Name s; CreateTime := CreateTime s; Labels := Labels s;
     Replication_ := Replication_ s; Etag := Etag s;
     Versions := versions; VersionCount := count |}.

(** What one call reads from the clock and from the random source. *)
Record Env : Type := {
  now : Time;          (* [time.Now().UTC()] *)
  fresh_etag : string  (* [generateEtag()] *)
}.

Definition generateChecksum (data : list byte) : SecretVersionChecksum :=
  let crc32Hash := Checksum.ChecksumIEEE data in
  let sha256Hash := Checksum.Sum256 data in
  {| Crc32c := Checksum.hex08 crc32Hash;
     Sha256 := Checksum.hex_bytes sha256Hash |}.

Definition NewSecret (env : Env) (projectID secretID : string)
    (labels : gomap string) : Secret :=
  let name := "projects/" +:+ projectID +:+ "/secrets/" +:+ secretID in
  {| Name := name;
     CreateTime := now env;
     Labels := labels;
     Replication_ := {| Automatic := Some {| aCustomerManagedEncryption := None |};
                        UserManaged := None |};
     Etag := fresh_etag env;
     Versions := Some ∅;
     VersionCount := 0 |}.

Definition NewSecretVersion (env : Env) (projectID secretID versionID : string)
    (data : list byte) : SecretVersion :=
  let name := "projects/" +:+ projectID +:+ "/secrets/" +:+ secretID
              +:+ "/versions/" +:+ versionID in
  {| vName := name;
     vCreateTime := now env;
     State := StateEnabled;
     vEtag := fresh_etag env;
     Data := data;
     Checksum := Some (generateChecksum data) |}.

(** [GetVersionID]: the loop runs [i] from [len(name)-1] down to [0] and
    returns what follows the first window that reads ["/versions/"] and
    is followed by at least one more byte. [scan_versions name k] is the
    loop with [k] iterations left, the next one at [i = k-1]. *)
Definition versionsPrefix : string := "/versions/".

Fixpoint scan_versions (name : string) (k : nat) : string :=
  match k with
  | O => ""
  | S i =>
      let n := String.length name in
      let w := String.length versionsPrefix in
      if ((i + w <? n)%nat && String.eqb (substring i w name) versionsPrefix)%bool
      then substring (i + w) (n - (i + w)) name
      else scan_versions name i
  end.

Definition GetVersionID (v : SecretVersion) : string :=
  scan_versions (vName v) (String.length (vName v)).

(** ** internal/storage: errors and the in-memory store *)

Inductive error : Type :=
| ErrSecretNotFound
| ErrVersionNotFound
| ErrSecretExists
| ErrIO (msg : string).   (* an error of the file system or of encoding/json *)

(** A Go result pair [(value, error)] with exactly one side set. *)
Inductive checked (A : Type) : Type :=
| Ok (a : A)
| Err (e : error).
Arguments Ok {A} a.
Arguments Err {A} e.

Record MemoryStorage : Type := {
  mu : RWMutex;
  secrets : gomap Secret
}.

Definition NewMemoryStorage : MemoryStorage :=
  {| mu := Unlocked; secrets := Some ∅ |}.

Definition mkkey (projectID secretID : string) : string :=
  projectID +:+ "/" +:+ secretID.

(** [m.mu.Lock(); defer m.mu.Unlock()] around a body that works on the map. *)
Definition withLock {A} (m : MemoryStorage)
    (body : gomap Secret -> result (A * gomap Secret)) : result (A * MemoryStorage) :=
  mu1 ← Lock (mu m);
  '(a, secrets') ← body (secrets m);
  mu2 ← Unlock mu1;
  mret (a, {| mu := mu2; secrets := secrets' |}).

(** [m.mu.RLock(); defer m.mu.RUnlock()] around a read-only body. *)
Definition withRLock {A} (m : MemoryStorage)
    (body : gomap Secret -> result A) : result (A * MemoryStorage) :=
  mu1 ← RLock (mu m);
  a ← body (secrets m);
  mu2 ← RUnlock mu1;
  mret (a, {| mu := mu2; secrets := secrets m |}).

Definition CreateSecret (m : MemoryStorage) (projectID secretID : string)
    (secret : Secret) : result (option error * MemoryStorage) :=
  withLock m (fun secrets =>
    let key := mkkey projectID secretID in
    match mget secrets key with
    | Some _ => mret (Some ErrSecretExists, secrets)
    | None =>
        secrets' ← mset secrets key secret;
        mret (None, secrets')
    end).

Definition GetSecret (m : MemoryStorage) (projectID secretID : string)
    : result (checked Secret * MemoryStorage) :=
  withRLock m (fun secrets =>
    let key := mkkey projectID secretID in
    match mget secrets key with
    | None => mret (Err ErrSecretNotFound)
    | Some secret => mret (Ok secret)
    end).

Definition DeleteSecret (m : MemoryStorage) (projectID secretID : string)
    : result (option error * MemoryStorage) :=
  withLock m (fun secrets =>
    let key := mkkey projectID secretID in
    match mget secrets key with
    | None => mret (Some ErrSecretNotFound, secrets)
    | Some _ => mret (None, mdelete secrets key)
    end).

Definition AddSecretVersion (env : Env) (m : MemoryStorage)
    (projectID secretID : string) (data : list byte)
    : result (checked SecretVersion * MemoryStorage) :=
  withLock m (fun secrets =>
    let key := mkkey projectID secretID in
    match mget secrets key with
    | None => mret (Err ErrSecretNotFound, secrets)
    | Some secret =>
        let count := wrap64 (VersionCount secret + 1) in
        let versionID := Itoa count in
        let version := NewSecretVersion env projectID secretID versionID data in
        versions' ← mset (Versions secret) versionID version;
        let secret' := with_versions secret versions' count in
        mret (Ok version, mstore secrets key secret')
    end).

Definition GetSecretVersion (m : MemoryStorage)
    (projectID secretID versionID : string)
    : result (checked SecretVersion * MemoryStorage) :=
  withRLock m (fun secrets =>
    let key := mkkey projectID secretID in
    match mget secrets key with
    | None => mret (Err ErrSecretNotFound)
    | Some secret =>
        let resolved :=
          if String.eqb versionID "latest" then
            if VersionCount secret =? 0 then None
            else Some (Itoa (VersionCount secret))
          else Some versionID in
        match resolved with
        | None => mret (Err ErrVersionNotFound)
        | Some versionID =>
            match mget (Versions secret) versionID with
            | None => mret (Err ErrVersionNotFound)
            | Some version => mret (Ok version)
            end
        end
    end).

Definition DeleteSecretVersion (m : MemoryStorage)
    (projectID secretID versionID : string)
    : result (option error * MemoryStorage) :=
  withLock m (fun secrets =>
    let key := mkkey projectID secretID in
    match mget secrets key with
    | None => mret (Some ErrSecretNotFound, secrets)
    | Some secret =>
        match mget (Versions secret) versionID with
        | None => mret (Some ErrVersionNotFound, secrets)
        | Some _ =>
            let secret' :=
              with_versions secret (mdelete (Versions secret) versionID)
                (VersionCount secret) in
            mret (None, mstore secrets key secret')
        end
    end).

Definition AccessSecretVersion (m : MemoryStorage)
    (projectID secretID versionID : string)
    : result (checked (list byte) * MemoryStorage) :=
  '(r, m') ← GetSecretVersion m projectID secretID versionID;
  match r with
  | Err err => mret (Err err, m')
  | Ok version => mret (Ok (Data version), m')
  end.

(** [sort.Slice(xs, less)]: some ordering of [xs] in which no element is
    [less] than one before it. The order among elements that [less]
    does not separate is not specified by Go; the model merges. *)
Definition sortSlice {A} (less : A -> A -> bool) (xs : list A) : list A :=
  @merge_sort A (fun a b => less b a = false)
    (fun a b => decide (less b a = false)) xs.

(** [xs[low:high]]: a run-time panic unless [0 <= low <= high <= len(xs)]. *)
Definition slice {A} (xs : list A) (low high : Z) : result (list A) :=
  if (0 <=? low) && (low <=? high) && (high <=? Z.of_nat (length xs))
  then Returns (take (Z.to_nat (high - low)) (drop (Z.to_nat low) xs))
  else Panics.

(** The paging that [ListSecrets] and [ListSecretVersions] share. *)
Definition page {A} (xs : list A) (pageSize : Z) (pageToken : string)
    : result (list A * string) :=
  let len := Z.of_nat (length xs) in
  let start :=
    if String.eqb pageToken "" then 0
    else match Atoi pageToken with
         | Some startIdx =>
             if (0 <=? startIdx) && (startIdx <? len) then startIdx else 0
         | None => 0
         end in
  let pageSize := if pageSize <=? 0 then 100 else pageSize in
  let end_ := wrap64 (start + pageSize) in
  let end_ := if end_ >? len then len else end_ in
  result ← slice xs start end_;
  let nextPageToken := if end_ <? len then Itoa end_ else "" in
  mret (result, nextPageToken).

(** The resources whose key starts with the prefix of the scope, in the
    order in which the map is ranged over. *)
Definition in_scope (projectID : string) (order : list (string * Secret))
    : list Secret :=
  let prefix := projectID +:+ "/" in
  (filter (fun kv => String.prefix prefix kv.1 = true) order).*2.

Definition name_less (a b : Secret) : bool := String.ltb (Name a) (Name b).

(** The order that [sortSlice name_less] establishes. *)
Definition name_le (a b : Secret) : Prop := name_less b a = false.

(** [ListSecrets]. Go ranges over a map in an order of the run time's
    choosing: [order] is that order, some enumeration of the entries of
    [m.secrets]. *)
Definition ListSecrets (m : MemoryStorage) (order : list (string * Secret))
    (projectID : string) (pageSize : Z) (pageToken : string)
    : result ((list Secret * string) * MemoryStorage) :=
  withRLock m (fun _ =>
    let secrets := in_scope projectID order in
    let secrets := sortSlice name_less secrets in
    page secrets pageSize pageToken).

(** [ListSecretVersions]: newest first; numeric comparison of the ids
    when both parse, comparison as strings otherwise. [order] is the
    order in which [secret.Versions] is ranged over. *)
Definition version_less (a b : SecretVersion) : bool :=
  let iVersion := GetVersionID a in
  let jVersion := GetVersionID b in
  match Atoi iVersion, Atoi jVersion with
  | Some iNum, Some jNum => iNum >? jNum
  | _, _ => String.ltb jVersion iVersion
  end.

Definition ListSecretVersions (m : MemoryStorage)
    (order : list (string * SecretVersion))
    (projectID secretID : string) (pageSize : Z) (pageToken : string)
    : result (checked (list SecretVersion * string) * MemoryStorage) :=
  withRLock m (fun secrets =>
    let key := mkkey projectID secretID in
    match mget secrets key with
    | None => mret (Err ErrSecretNotFound)
    | Some secret =>
        let versions := sortSlice version_less order.*2 in
        r ← page versions pageSize pageToken;
        mret (Ok r)
    end).

(** ** encoding/json on the persisted types

    [Save] hands a [Data] to [json.MarshalIndent] and [Load] hands the
    bytes of the file to [json.Unmarshal]. Both live outside the
    repository; what follows is the part of them that the persisted
    types reach.

    A string that goes through encoding/json, either way, comes out as
    valid UTF-8: every byte at which [utf8.DecodeRune] finds no
    well-formed sequence is replaced by U+FFFD. *)

Module UTF8.

Definition byte_of (c : ascii) : Z := Z.of_N (N_of_ascii c).

Definition in_range (lo hi : Z) (c : ascii) : bool :=
  (lo <=? byte_of c) && (byte_of c <=? hi).

(** U+FFFD in UTF-8: the bytes EF BF BD. *)
Definition RuneError : string :=
  String (ascii_of_N 0xEF) (String (ascii_of_N 0xBF) (String (ascii_of_N 0xBD) "")).

(** The length of the sequence that a first byte announces, 0 for a
    byte that starts none (80..C1 and F5..FF). *)
Definition size_of (c0 : ascii) : nat :=
  let b := byte_of c0 in
  if b <? 0x80 then 1
  else if b <? 0xC2 then 0
  else if b <? 0xE0 then 2
  else if b <? 0xF0 then 3
  else if b <? 0xF5 then 4
  else 0.

(** The values that the second byte may take after the first byte
    [c0]: overlong forms, surrogates and values above U+10FFFF are
    shut out here. *)
Definition second_ok (c0 c1 : ascii) : bool :=
  let b := byte_of c0 in
  if b =? 0xE0 then in_range 0xA0 0xBF c1
  else if b =? 0xED then in_range 0x80 0x9F c1
  else if b =? 0xF0 then in_range 0x90 0xBF c1
  else if b =? 0xF4 then in_range 0x80 0x8F c1
  else in_range 0x80 0xBF c1.

Definition continuation (c : ascii) : bool := in_range 0x80 0xBF c.

(** A well-formed sequence is copied; at any other byte U+FFFD is
    written and the scan goes on with the next byte. *)
Fixpoint ToValid (s : string) : string :=
  match s with
  | "" => ""
  | String c0 r0 =>
      let bad := RuneError +:+ ToValid r0 in
      match size_of c0 with
      | 1%nat => String c0 (ToValid r0)
      | 2%nat =>
          match r0 with
          | String c1 r1 =>
              if second_ok c0 c1 then String c0 (String c1 (ToValid r1))
              else bad
          | _ => bad
          end
      | 3%nat =>
          match r0 with
          | String c1 (String c2 r2) =>
              if second_ok c0 c1 && continuation c2
              then String c0 (String c1 (String c2 (ToValid r2)))
              else bad
          | _ => bad
          end
      | 4%nat =>
          match r0 with
          | String c1 (String c2 (String c3 r3)) =>
              if second_ok c0 c1 && continuation c2 && continuation c3
              then String c0 (String c1 (String c2 (String c3 (ToValid r3))))
              else bad
          | _ => bad
          end
      | _ => bad
      end
  end.

End UTF8.

(** [time.Time] is written as an RFC 3339 string, which has four digits
    for the year: [Time.MarshalJSON] fails on an instant outside the
    years 0..9999, and no string denotes one. The bounds are the first
    nanosecond of the year 0 and of the year 10000. *)
Definition rfc3339 (t : Time) : bool :=
  (-62167219200 * 10 ^ 9 <=? t) && (t <? 253402300800 * 10 ^ 9).

(** The entries of a map in the order in which encoding/json writes
    them: sorted by key, the keys compared as they are in the map. *)
Definition sorted_entries {V} (g : gmap string V) : list (string * V) :=
  sortSlice (fun a b => String.ltb a.1 b.1) (map_to_list g).

(** A document of the layout that [json.MarshalIndent] writes for a
    [Data] is kept as its members. The member names are those of the
    [json] tags; white space and escapes are not kept. An object that
    stands for a Go map is kept as the list of its members in the order
    of the document, the same key possibly more than once. A time is
    kept as the instant that its string denotes, a string as the bytes
    between its quotes, escapes resolved.

    [Secret]: the members ["name"], ["createTime"], ["labels"] (left out
    by [omitempty]), ["replication"] and ["etag"]. [Versions] and
    [VersionCount] carry the tag [json:"-"] and have no member. *)
Record json_secret : Type := {
  j_name : string;
  j_createTime : Time;
  j_labels : option (list (string * string));
  j_replication : Replication;
  j_etag : string
}.

(** [Data]: the members ["secrets"] ([null] for a nil map),
    ["timestamp"] and ["version"]. *)
Record json : Type := {
  j_secrets : option (list (string * json_secret));
  j_timestamp : Time;
  j_version : string
}.

(** The strings inside the value of ["replication"]. The value itself
    has the shape of [Replication]: a nil pointer tagged [omitempty] is
    a member left out, a nil slice is [null], a nil pointer inside the
    slice is [null]. *)
Definition validCME (c : CustomerManagedEncryption) : CustomerManagedEncryption :=
  {| KmsKeyName := UTF8.ToValid (KmsKeyName c) |}.

Definition validAutomatic (a : AutomaticReplication) : AutomaticReplication :=
  {| aCustomerManagedEncryption :=
       option_map validCME (aCustomerManagedEncryption a) |}.

Definition validReplica (r : Replica) : Replica :=
  {| Location := UTF8.ToValid (Location r);
     rCustomerManagedEncryption :=
       option_map validCME (rCustomerManagedEncryption r) |}.

Definition validUserManaged (u : UserManagedReplication) : UserManagedReplication :=
  {| Replicas := option_map (map (option_map validReplica)) (Replicas u) |}.

Definition validReplication (r : Replication) : Replication :=
  {| Automatic := option_map validAutomatic (Automatic r);
     UserManaged := option_map validUserManaged (UserManaged r) |}.

Definition validPair (kv : string * string) : string * string :=
  (UTF8.ToValid kv.1, UTF8.ToValid kv.2).

(** [json.MarshalIndent] on a [*Secret]; [None] is its error. *)
Definition marshalSecret (s : Secret) : option json_secret :=
  if rfc3339 (CreateTime s) then
    Some {| j_name := UTF8.ToValid (Name s);
            j_createTime := CreateTime s;
            j_labels :=
              match Labels s with
              | Some g =>
                  if decide (g = ∅) then None
                  else Some (map validPair (sorted_entries g))
              | None => None
              end;
            j_replication := validReplication (Replication_ s);
            j_etag := UTF8.ToValid (Etag s) |}
  else None.

(** [json.MarshalIndent] on the [Data] that [Save] builds; [None] is
    its error. *)
Definition marshalData (secrets : gomap Secret) (timestamp : Time) : option json :=
  members ←
    match secrets with
    | None => Some None
    | Some g =>
        option_map Some
          (mapM (fun kv => d ← marshalSecret kv.2;
                           Some (UTF8.ToValid kv.1, d))
             (sorted_entries g))
    end;
  if rfc3339 timestamp then
    Some {| j_secrets := members; j_timestamp := timestamp;
            j_version := "1.0.0" |}
  else None.

(** [json.Unmarshal] on a document of this layout; [None] is its
    error, which it has no cause for on such a document. A later member
    of a map replaces an earlier one of the same key. Nothing in the
    document feeds [Versions] or [VersionCount]: a decoded secret has a
    nil version map and a counter of zero. *)
Definition unmarshalSecret (d : json_secret) : option Secret :=
  Some {| Name := UTF8.ToValid (j_name d);
          CreateTime := j_createTime d;
          Labels :=
            option_map
              (fun kvs => list_to_map (reverse (map validPair kvs)))
              (j_labels d);
          Replication_ := validReplication (j_replication d);
          Etag := UTF8.ToValid (j_etag d);
          Versions := None;
          VersionCount := 0 |}.

Definition unmarshalData (j : json) : option (gomap Secret) :=
  match j_secrets j with
  | None => Some None
  | Some members =>
      kvs ← mapM (fun kv => s ← unmarshalSecret kv.2;
                            Some (UTF8.ToValid kv.1, s))
              members;
      Some (Some (list_to_map (reverse kvs)))
  end.

(** ** internal/storage: the file-backed wrapper *)

(** What the file system holds at a path, as [Load] can tell it apart:
    a file that [os.ReadFile] cannot read; bytes on which
    [json.Unmarshal] into a [Data] returns an error; a document of the
    layout above; any other bytes on which [json.Unmarshal] returns
    [nil] ([null], members in another spelling or more than once, and
    the like), with the map that it leaves in [storageData.Secrets].
    A file whose map would hold a nil [*Secret] is not covered, as the
    store is modelled without nil entries. *)
Inductive File : Type :=
| Unreadable
| Undecodable
| Document (j : json)
| Foreign (storageData : gomap Secret).

Record Disk : Type := {
  files : gmap string File;
  read_only : bool        (* [os.WriteFile] fails *)
}.

(** [PersistentStorage] embeds [*MemoryStorage] and adds a mutex of its
    own: [p.mu] is this second mutex, [p.secrets] is the embedded map. *)
Record PersistentStorage : Type := {
  mem : MemoryStorage;
  filePath : string;
  pmu : RWMutex
}.

Definition NewPersistentStorage (filePath : string) : PersistentStorage :=
  {| mem := NewMemoryStorage; filePath := filePath; pmu := Unlocked |}.

Definition set_mem (p : PersistentStorage) (m : MemoryStorage) : PersistentStorage :=
  {| mem := m; filePath := filePath p; pmu := pmu p |}.
Definition set_pmu (p : PersistentStorage) (l : RWMutex) : PersistentStorage :=
  {| mem := mem p; filePath := filePath p; pmu := l |}.
Definition set_secrets (p : PersistentStorage) (s : gomap Secret) : PersistentStorage :=
  set_mem p {| mu := mu (mem p); secrets := s |}.

(** The part of [Load] behind [json.Unmarshal]: [p.mu] is locked a
    second time before the decoded map is put in place. *)
Definition install (p : PersistentStorage) (l1 : RWMutex)
    (storageData : gomap Secret) : result (option error * PersistentStorage) :=
  l2 ← Lock l1;
  let p := set_secrets p storageData in
  l3 ← Unlock l2;
  l4 ← Unlock l3;
  mret (None, set_pmu p l4).

(** [Load]. The deferred [p.mu.Unlock()] runs on every return. *)
Definition Load (p : PersistentStorage) (disk : Disk)
    : result (option error * PersistentStorage) :=
  l1 ← Lock (pmu p);
  match files disk !! filePath p with
  | None =>
      l2 ← Unlock l1;
      mret (None, set_pmu p l2)
  | Some Unreadable =>
      l2 ← Unlock l1;
      mret (Some (ErrIO "failed to read storage file"), set_pmu p l2)
  | Some Undecodable =>
      l2 ← Unlock l1;
      mret (Some (ErrIO "failed to parse storage file"), set_pmu p l2)
  | Some (Document j) =>
      match unmarshalData j with
      | None =>
          l2 ← Unlock l1;
          mret (Some (ErrIO "failed to parse storage file"), set_pmu p l2)
      | Some storageData => install p l1 storageData
      end
  | Some (Foreign storageData) => install p l1 storageData
  end.

(** [Save]. *)
Definition Save (env : Env) (p : PersistentStorage) (disk : Disk)
    : result (option error * PersistentStorage * Disk) :=
  l1 ← Lock (pmu p);
  l2 ← RLock l1;
  let storageData := (secrets (mem p), now env) in
  l3 ← RUnlock l2;
  match marshalData storageData.1 storageData.2 with
  | None =>
      l4 ← Unlock l3;
      mret (Some (ErrIO "failed to marshal storage data"), set_pmu p l4, disk)
  | Some data =>
      if read_only disk then
        l4 ← Unlock l3;
        mret (Some (ErrIO "failed to write storage file"), set_pmu p l4, disk)
      else
        let disk' := {| files := <[filePath p := Document data]> (files disk);
                        read_only := read_only disk |} in
        l4 ← Unlock l3;
        mret (None, set_pmu p l4, disk')
  end.

(** The operations of the wrapper call [p.Save()] after the embedded
    store has done its part. They are written over the [save] they
    call, so that what they do with its result can be stated on its
    own; the methods of the program are their instances at [Save]. *)
Section Wrapper.
Variable save :
  PersistentStorage -> Disk -> result (option error * PersistentStorage * Disk).

Definition CreateSecret_with (p : PersistentStorage) (disk : Disk)
    (projectID secretID : string) (secret : Secret)
    : result (option error * PersistentStorage * Disk) :=
  '(err, m') ← CreateSecret (mem p) projectID secretID secret;
  match err with
  | Some e => mret (Some e, set_mem p m', disk)
  | None => save (set_mem p m') disk
  end.

Definition DeleteSecret_with (p : PersistentStorage) (disk : Disk)
    (projectID secretID : string)
    : result (option error * PersistentStorage * Disk) :=
  '(err, m') ← DeleteSecret (mem p) projectID secretID;
  match err with
  | Some e => mret (Some e, set_mem p m', disk)
  | None => save (set_mem p m') disk
  end.

(** The block that runs when [p.Save()] has returned an error. *)
Definition rollback (p : PersistentStorage) (projectID secretID : string)
    (version : SecretVersion) : result PersistentStorage :=
  l1 ← Lock (pmu p);
  let key := mkkey projectID secretID in
  let p :=
    match mget (secrets (mem p)) key with
    | Some secret =>
        let secret' :=
          with_versions secret
            (mdelete (Versions secret) (GetVersionID version))
            (wrap64 (VersionCount secret - 1)) in
        set_secrets p (mstore (secrets (mem p)) key secret')
    | None => p
    end in
  l2 ← Unlock l1;
  mret (set_pmu p l2).

Definition AddSecretVersion_with (env : Env) (p : PersistentStorage) (disk : Disk)
    (projectID secretID : string) (data : list byte)
    : result (checked SecretVersion * PersistentStorage * Disk) :=
  '(r, m') ← AddSecretVersion env (mem p) projectID secretID data;
  match r with
  | Err e => mret (Err e, set_mem p m', disk)
  | Ok version =>
      '(err, p', disk') ← save (set_mem p m') disk;
      match err with
      | Some e =>
          p'' ← rollback p' projectID secretID version;
          mret (Err e, p'', disk')
      | None => mret (Ok version, p', disk')
      end
  end.

Definition DeleteSecretVersion_with (p : PersistentStorage) (disk : Disk)
    (projectID secretID versionID : string)
    : result (option error * PersistentStorage * Disk) :=
  '(err, m') ← DeleteSecretVersion (mem p) projectID secretID versionID;
  match err with
  | Some e => mret (Some e, set_mem p m', disk)
  | None => save (set_mem p m') disk
  end.
End Wrapper.

Module Persistent.
Definition CreateSecret (env : Env) := CreateSecret_with (Save env).
Definition DeleteSecret (env : Env) := DeleteSecret_with (Save env).
Definition AddSecretVersion (env : Env) := AddSecretVersion_with (Save env) env.
Definition DeleteSecretVersion (env : Env) := DeleteSecretVersion_with (Save env).
Definition Close (env : Env) := Save env.
End Persistent.

(** No byte of [s] is a slash. *)
Definition no_slash (s : string) : Prop :=
  forall i c, String.get i s = Some c -> c <> "/"%char.

(** ** Stores and inputs used as examples *)

Definition env0 : Env := {| now := 0; fresh_etag := "e0" |}.
Definition env1 : Env := {| now := 1; fresh_etag := "e1" |}.

(** A store with the one resource ["p1/s1"], freshly created. *)
Definition store_p1s1 : MemoryStorage :=
  {| mu := Unlocked;
     secrets := Some {[ mkkey "p1" "s1" := NewSecret env0 "p1" "s1" None ]} |}.

(** ** Sequences of calls *)

(** [AddSecretVersion] called once per element of [calls], one call
    after the other, on the same resource. *)
Fixpoint AddSecretVersions (calls : list (Env * list byte)) (m : MemoryStorage)
    (projectID secretID : string)
    : result (list (checked SecretVersion) * MemoryStorage) :=
  match calls with
  | [] => mret ([], m)
  | (env, data) :: rest =>
      '(r, m1) ← AddSecretVersion env m projectID secretID data;
      '(rs, m2) ← AddSecretVersions rest m1 projectID secretID;
      mret (r :: rs, m2)
  end.

(** The same resource after two versions have been added, and after the
    second of them has then been deleted. *)
Definition store_two : MemoryStorage :=
  match AddSecretVersions
          [(env0, bytes_of_string "abc"); (env1, bytes_of_string "xyz")]
          store_p1s1 "p1" "s1" with
  | Returns (_, m) => m
  | _ => store_p1s1
  end.

Definition secret_of (m : MemoryStorage) (projectID secretID : string) : Secret :=
  default (NewSecret env0 projectID secretID None)
          (mget (secrets m) (mkkey projectID secretID)).

Definition store_two_deleted : MemoryStorage :=
  match DeleteSecretVersion store_two "p1" "s1" "2" with
  | Returns (_, m) => m
  | _ => store_two
  end.

Definition three_calls : list (Env * list byte) :=
  [(env0, bytes_of_string "abc"); (env1, bytes_of_string "xyz");
   (env0, bytes_of_string "")].

(** The version ids that a run of [AddSecretVersions] returned. *)
Definition returned_ids (r : result (list (checked SecretVersion) * MemoryStorage))
    : list string :=
  match r with
  | Returns (rs, _) =>
      (fun c => match c with Ok v => GetVersionID v | Err _ => "" end) <$> rs
  | _ => []
  end.

(** ** The operations of the [Storage] interface, as data *)

Inductive Op : Type :=
| OpCreateSecret (projectID secretID : string) (secret : Secret)
| OpGetSecret (projectID secretID : string)
| OpListSecrets (order : list (string * Secret)) (projectID : string)
    (pageSize : Z) (pageToken : string)
| OpDeleteSecret (projectID secretID : string)
| OpAddSecretVersion (env : Env) (projectID secretID : string) (data : list byte)
| OpGetSecretVersion (projectID secretID versionID : string)
| OpListSecretVersions (order : list (string * SecretVersion))
    (projectID secretID : string) (pageSize : Z) (pageToken : string)
| OpDeleteSecretVersion (projectID secretID versionID : string)
| OpAccessSecretVersion (projectID secretID versionID : string).

(** The store that a call leaves, when the call returns. *)
Definition run (op : Op) (m : MemoryStorage) : result MemoryStorage :=
  match op with
  | OpCreateSecret p s secret => snd <$> CreateSecret m p s secret
  | OpGetSecret p s => snd <$> GetSecret m p s
  | OpListSecrets order p size token => snd <$> ListSecrets m order p size token
  | OpDeleteSecret p s => snd <$> DeleteSecret m p s
  | OpAddSecretVersion env p s data => snd <$> AddSecretVersion env m p s data
  | OpGetSecretVersion p s v => snd <$> GetSecretVersion m p s v
  | OpListSecretVersions order p s size token =>
      snd <$> ListSecretVersions m order p s size token
  | OpDeleteSecretVersion p s v => snd <$> DeleteSecretVersion m p s v
  | OpAccessSecretVersion p s v => snd <$> AccessSecretVersion m p s v
  end.

(** The store holds version [v] under the id [vid] of the resource at [key]. *)
Definition stored (m : MemoryStorage) (key vid : string) (v : SecretVersion) : Prop :=
  exists secret, mget (secrets m) key = Some secret
                 /\ mget (Versions secret) vid = Some v.

(** Version [v] came into the store inside the resource that the caller
    handed to [CreateSecret]. *)
Definition handed_in (op : Op) (key vid : string) (v : SecretVersion) : Prop :=
  match op with
  | OpCreateSecret p s secret =>
      key = mkkey p s /\ mget (Versions secret) vid = Some v
  | _ => False
  end.

(** A resource holding one version that is not enabled. *)
Definition disabled_version : SecretVersion :=
  {| vName := "projects/p1/secrets/s1/versions/1"; vCreateTime := 0;
     State := StateDisabled; vEtag := "e"; Data := bytes_of_string "abc";
     Checksum := Some (generateChecksum (bytes_of_string "abc")) |}.

Definition store_disabled : MemoryStorage :=
  {| mu := Unlocked;
     secrets := Some {[ mkkey "p1" "s1" :=
       with_versions (NewSecret env0 "p1" "s1" None)
         (Some {[ "1" := disabled_version ]}) 1 ]} |}.

Definition store_disabled_added : MemoryStorage :=
  match AddSecretVersion env1 store_disabled "p1" "s1" (bytes_of_string "xyz") with
  | Returns (_, m) => m
  | _ => store_disabled
  end.

(** ** The scenario of the specification

    Create ["p1/s1"], add the payload ["abc"], read version ["1"],
    delete the resource, read the resource. The value is what the
    three reads and the deletion return. *)
Definition scenario
    : result (checked SecretVersion * option error * checked Secret) :=
  '(_, m1) ← CreateSecret NewMemoryStorage "p1" "s1" (NewSecret env0 "p1" "s1" None);
  '(_, m2) ← AddSecretVersion env1 m1 "p1" "s1" (bytes_of_string "abc");
  '(version, m3) ← GetSecretVersion m2 "p1" "s1" "1";
  '(deleted, m4) ← DeleteSecret m3 "p1" "s1";
  '(secret, _) ← GetSecret m4 "p1" "s1";
  mret (version, deleted, secret).

(** The scenario as the specification tells it, for a checksum whose
    CRC is [crc]. *)
Definition scenario_with_crc (crc : Z) : Prop :=
  exists version,
    scenario = Returns (Ok version, None, Err ErrSecretNotFound)
    /\ Data version = bytes_of_string "abc"
    /\ Checksum version
       = Some {| Crc32c := Checksum.hex08 crc;
                 Sha256 := Checksum.hex_bytes
                             (Checksum.Sum256 (bytes_of_string "abc")) |}.

(** A store with five resources in the scope ["p"], and one in another. *)
Definition store_five : MemoryStorage :=
  {| mu := Unlocked;
     secrets := Some (list_to_map
       ((fun id => (mkkey "p" id, NewSecret env0 "p" id None))
          <$> ["c"; "a"; "e"; "b"; "d"])
       ∪ {[ mkkey "q" "z" := NewSecret env0 "q" "z" None ]}) |}.

(** ** A wrapper over the example stores, and a [save] that fails *)

Definition disk0 : Disk := {| files := ∅; read_only := false |}.

(** A wrapper whose store holds ["p1/s1"], freshly created. *)
Definition persistent_p1s1 : PersistentStorage :=
  {| mem := store_p1s1; filePath := "gsm.json"; pmu := Unlocked |}.

(** A wrapper whose store holds ["p1/s1"] with the versions "1" and "2". *)
Definition persistent_two : PersistentStorage :=
  {| mem := store_two; filePath := "gsm.json"; pmu := Unlocked |}.

(** A [save] that takes and releases its lock and reports that the
    file could not be written. *)
Definition save_failing
    : PersistentStorage -> Disk -> result (option error * PersistentStorage * Disk) :=
  fun p disk => mret (Some (ErrIO "failed to write storage file"), p, disk).

(** The counter of the resource at [projectID/secretID], 0 if there is none. *)
Definition counter_of (m : MemoryStorage) (projectID secretID : string) : Z :=
  match mget (secrets m) (mkkey projectID secretID) with
  | Some secret => VersionCount secret
  | None => 0
  end.

(** The rollback as the specification words it: when the store has added
    the version and [save] then fails, the wrapper returns that error,
    the version is gone, no counter has been decremented, and the store
    holds the versions it held before the call. *)
Definition rollback_as_specified
    (save : PersistentStorage -> Disk -> result (option error * PersistentStorage * Disk))
    (env : Env) (p : PersistentStorage) (disk : Disk)
    (projectID secretID : string) (data : list byte) : Prop :=
  forall version m1 e p1 disk1,
    AddSecretVersion env (mem p) projectID secretID data = Returns (Ok version, m1) ->
    save (set_mem p m1) disk = Returns (Some e, p1, disk1) ->
    exists p',
      AddSecretVersion_with save env p disk projectID secretID data
        = Returns (Err e, p', disk1)
      /\ ~ stored (mem p') (mkkey projectID secretID) (GetVersionID version) version
      /\ counter_of (mem p') projectID secretID = counter_of m1 projectID secretID
      /\ forall key vid v, stored (mem p') key vid v <-> stored (mem p) key vid v.

(** The document that [Save] marshals for [persistent_two], and a disk
    that holds it at the path of the wrapper. *)
Definition document_two : json :=
  default {| j_secrets := None; j_timestamp := now env0; j_version := "1.0.0" |}
    (marshalData (secrets (mem persistent_two)) (now env0)).

Definition disk_two : Disk :=
  {| files := {[ "gsm.json" := Document document_two ]}; read_only := false |}.

(** ** Goroutines that call [AddSecretVersion] at the same time

    Every access of [MemoryStorage.AddSecretVersion] to the store lies
    between [m.mu.Lock()] and the deferred [m.mu.Unlock()], so the calls
    are free of data races and run as an interleaving of their
    statements. A goroutine is the arguments of its call and the
    statement it is about to execute; the local pointer [secret] is the
    entry of the map under the key of the call. *)
Inductive pc : Type :=
| AtLock                                 (* m.mu.Lock() *)
| AtLookup                               (* secret, exists := m.secrets[key] *)
| AtIncrement                            (* secret.VersionCount++ *)
| AtItoa                                 (* versionID := strconv.Itoa(secret.VersionCount) *)
| AtStore (versionID : string)           (* secret.Versions[versionID] = version *)
| AtReturn (r : checked SecretVersion)   (* return, with the deferred m.mu.Unlock() *)
| Returned (r : checked SecretVersion)
| Panicked.

Record goroutine : Type := {
  g_env : Env;
  g_data : list byte;
  g_pc : pc
}.

Definition at_pc (g : goroutine) (l : pc) : goroutine :=
  {| g_env := g_env g; g_data := g_data g; g_pc := l |}.

Definition set_mu (m : MemoryStorage) (l : RWMutex) : MemoryStorage :=
  {| mu := l; secrets := secrets m |}.

(** One statement of goroutine [g] on the shared store; [None] when the
    goroutine cannot move: it waits for the lock, or it has finished. *)
Definition statement (projectID secretID : string) (m : MemoryStorage)
    (g : goroutine) : option (MemoryStorage * goroutine) :=
  let key := mkkey projectID secretID in
  match g_pc g with
  | AtLock =>
      match Lock (mu m) with
      | Returns l => Some (set_mu m l, at_pc g AtLookup)
      | _ => None
      end
  | AtLookup =>
      match mget (secrets m) key with
      | None => Some (m, at_pc g (AtReturn (Err ErrSecretNotFound)))
      | Some _ => Some (m, at_pc g AtIncrement)
      end
  | AtIncrement =>
      match mget (secrets m) key with
      | Some secret =>
          let secret' := with_versions secret (Versions secret)
                           (wrap64 (VersionCount secret + 1)) in
          Some ({| mu := mu m; secrets := mstore (secrets m) key secret' |},
                at_pc g AtItoa)
      | None => None
      end
  | AtItoa =>
      match mget (secrets m) key with
      | Some secret => Some (m, at_pc g (AtStore (Itoa (VersionCount secret))))
      | None => None
      end
  | AtStore versionID =>
      match mget (secrets m) key with
      | Some secret =>
          let version :=
            NewSecretVersion (g_env g) projectID secretID versionID (g_data g) in
          match mset (Versions secret) versionID version with
          | Returns versions' =>
              let secret' := with_versions secret versions' (VersionCount secret) in
              Some ({| mu := mu m; secrets := mstore (secrets m) key secret' |},
                    at_pc g (AtReturn (Ok version)))
          | _ =>
              (* the panic runs the deferred unlock *)
              match Unlock (mu m) with
              | Returns l => Some (set_mu m l, at_pc g Panicked)
              | _ => None
              end
          end
      | None => None
      end
  | AtReturn r =>
      match Unlock (mu m) with
      | Returns l => Some (set_mu m l, at_pc g (Returned r))
      | _ => None
      end
  | Returned _ | Panicked => None
  end.

(** The scheduler lets goroutine [i] run one statement. *)
Definition schedule_one (projectID secretID : string) (i : nat)
    (st : MemoryStorage * list goroutine) : option (MemoryStorage * list goroutine) :=
  g ← st.2 !! i;
  '(m', g') ← statement projectID secretID st.1 g;
  Some (m', <[i := g']> st.2).

(** A schedule is the sequence of goroutines the scheduler picks; a
    pick of a goroutine that cannot move leaves everything as it is. *)
Fixpoint exec (projectID secretID : string) (schedule : list nat)
    (st : MemoryStorage * list goroutine) : MemoryStorage * list goroutine :=
  match schedule with
  | [] => st
  | i :: rest =>
      exec projectID secretID rest
        (default st (schedule_one projectID secretID i st))
  end.

(** One goroutine per call, each about to take the lock. *)
Definition spawn (calls : list (Env * list byte)) : list goroutine :=
  (fun c => {| g_env := c.1; g_data := c.2; g_pc := AtLock |}) <$> calls.

Definition has_returned (g : goroutine) : Prop :=
  exists r, g_pc g = Returned r.

Definition all_returned (st : MemoryStorage * list goroutine) : Prop :=
  Forall has_returned st.2.

(** The ids of the versions that the calls have returned so far. *)
Definition returned_id (g : goroutine) : option string :=
  match g_pc g with
  | Returned (Ok version) => Some (GetVersionID version)
  | _ => None
  end.

Definition version_ids (gs : list goroutine) : list string := omap returned_id gs.

(** The ids [c+1 .. c+k], as [AddSecretVersion] writes them. *)
Definition id_range (c : Z) (k : nat) : list string :=
  (fun i => Itoa (c + Z.of_nat i)) <$> seq 1 k.

(** The statements between [Lock] and [Unlock]. *)
Definition holds_lock (g : goroutine) : bool :=
  match g_pc g with
  | AtLookup | AtIncrement | AtItoa | AtStore _ | AtReturn _ => true
  | _ => false
  end.

Definition holders (gs : list goroutine) : list goroutine :=
  filter (fun g => holds_lock g = true) gs.

(** What the counter [count] of the resource is while a goroutine stands
    at [l] inside the lock, when the counter was [c] at the start and
    [k] calls have returned. *)
Definition stage_ok (c : Z) (k : nat) (count : Z) (l : pc) : Prop :=
  match l with
  | AtLookup | AtIncrement => count = c + Z.of_nat k
  | AtItoa => count = c + Z.of_nat k + 1
  | AtStore versionID => count = c + Z.of_nat k + 1 /\ versionID = Itoa count
  | AtReturn (Ok version) =>
      count = c + Z.of_nat k + 1 /\ GetVersionID version = Itoa count
  | _ => False
  end.

Definition sound_pc (l : pc) : Prop :=
  match l with
  | Panicked | Returned (Err _) => False
  | _ => True
  end.

(** The invariant of the interleaving: at most one goroutine is inside
    the lock, the counter is the number of calls that have got their id,
    and the ids returned so far are [c+1 .. c+k]. *)
Record Inv (projectID secretID : string) (c : Z)
    (st : MemoryStorage * list goroutine) : Prop := {
  inv_secret :
    exists secret versions,
      mget (secrets st.1) (mkkey projectID secretID) = Some secret
      /\ Versions secret = Some versions
      /\ let k := length (version_ids st.2) in
         (holders st.2 = [] /\ mu st.1 = Unlocked
          /\ VersionCount secret = c + Z.of_nat k)
         \/ (exists h, holders st.2 = [h] /\ mu st.1 = WLocked
                       /\ stage_ok c k (VersionCount secret) (g_pc h));
  inv_ids : version_ids st.2 ≡ₚ id_range c (length (version_ids st.2));
  inv_sound : Forall (fun g => sound_pc (g_pc g)) st.2;
  inv_range : 0 <= c /\ c + Z.of_nat (length st.2) <= MaxInt
}.

(** The statements a goroutine still has to execute. *)
Definition remaining (g : goroutine) : nat :=
  match g_pc g with
  | AtLock => 6
  | AtLookup => 5
  | AtIncrement => 4
  | AtItoa => 3
  | AtStore _ => 2
  | AtReturn _ => 1
  | Returned _ | Panicked => 0
  end.

Definition work (gs : list goroutine) : nat := sum_list_with remaining gs.

(** A schedule of three goroutines on ["p1/s1"]: goroutine 1 takes the
    lock first, goroutines 0 and 2 are picked while they must wait. *)
Definition schedule_three : list nat :=
  [1; 0; 2; 1; 1; 0; 1; 1; 2; 1; 2; 2; 0; 2; 2; 2; 0; 2; 0; 0; 0; 0; 0; 0]%nat.

(** A store as [Load] would leave it: the resources decoded from the
    document that [Save] marshals for [persistent_two]. *)
Definition store_restored : MemoryStorage :=
  {| mu := Unlocked;
     secrets := default None (unmarshalData document_two) |}.

(** ** The handlers' reading of a request *)

(** The page size of a list request, as [SecretsHandler.ListSecrets] and
    [VersionsHandler.ListSecretVersions] take it from the query
    parameter [pageSize]. *)
Definition pageSizeParam (pageSizeStr : string) : Z :=
  if String.eqb pageSizeStr "" then 100
  else match Atoi pageSizeStr with
       | Some ps => if (0 <? ps) && (ps <=? 1000) then ps else 100
       | None => 100
       end.

(** ** A client that lists page after page

    The client passes the token of each page to the next call and stops
    at the empty token, or after [fuel] calls. *)
Fixpoint follow_pages {A} (fuel : nat) (xs : list A) (pageSize : Z)
    (pageToken : string) : result (list (list A)) :=
  match fuel with
  | O => mret []
  | S fuel' =>
      '(items, next) ← page xs pageSize pageToken;
      if String.eqb next "" then mret [items]
      else rest ← follow_pages fuel' xs pageSize next; mret (items :: rest)
  end.

(** The offset at which [page] starts for a token. *)
Definition start_of {A} (xs : list A) (pageToken : string) : Z :=
  match Atoi pageToken with
  | Some k => if (0 <=? k) && (k <? Z.of_nat (length xs)) then k else 0
  | None => 0
  end.

(** ** internal/models: the ids inside a resource name *)

(** The loop that [extractSecretID] shares its shape with [GetVersionID]:
    [i] runs from [len(name)-1] down to [0], and the call returns what
    follows the first window that reads [marker] and is followed by at
    least one more byte. [scan_last marker name k] is the loop with [k]
    iterations left, the next one at [i = k-1]. *)
Fixpoint scan_last (marker name : string) (k : nat) : string :=
  match k with
  | O => ""
  | S i =>
      let n := String.length name in
      let w := String.length marker in
      if ((i + w <? n)%nat && String.eqb (substring i w name) marker)%bool
      then substring (i + w) (n - (i + w)) name
      else scan_last marker name i
  end.

Definition secretsPrefix : string := "/secrets/".

Definition extractSecretID (name : string) : string :=
  scan_last secretsPrefix name (String.length name).

(** The loop of [extractProjectID], with [k] iterations left and the
    next one at [i]: it returns [name[9:i]] at the first slash, and
    [name[9:]] when [i] reaches the end. *)
Fixpoint project_loop (name : string) (i k : nat) : string :=
  match k with
  | O => substring 9 (String.length name - 9) name
  | S k' =>
      match String.get i name with
      | Some c =>
          if Ascii.eqb c "/" then substring 9 (i - 9) name
          else project_loop name (S i) k'
      | None => project_loop name (S i) k'
      end
  end.

Definition extractProjectID (name : string) : string :=
  if ((String.length name <? 10)%nat
      || negb (String.eqb (substring 0 9 name) "projects/"))%bool
  then ""
  else project_loop name 9 (String.length name - 9).

Definition GetProjectID (s : Secret) : string := extractProjectID (Name s).
Definition GetSecretID (s : Secret) : string := extractSecretID (Name s).
Definition vGetProjectID (v : SecretVersion) : string := extractProjectID (vName v).
Definition vGetSecretID (v : SecretVersion) : string := extractSecretID (vName v).

(** ** The stack of runs that the merge sort keeps

    Every element of every run on the stack satisfies [P]. *)
Definition stack_ok {A} (P : A -> Prop) (st : list (option (list A))) : Prop :=
  Forall (fun o => match o with Some l => Forall P l | None => True end) st.

(** ** internal/api/handlers: the ids inside a request path *)

Module Handlers.

(** [strings.Split(s, "/")]. *)
Fixpoint Split (s : string) : list string :=
  match s with
  | "" => [""]
  | String c r =>
      if Ascii.eqb c "/" then "" :: Split r
      else match Split r with
           | h :: t => String c h :: t
           | [] => [String c ""]
           end
  end.

(** [strings.Trim(s, "/")]: the slashes at both ends are cut off. *)
Fixpoint TrimLeft (s : string) : string :=
  match s with
  | "" => ""
  | String c r => if Ascii.eqb c "/" then TrimLeft r else s
  end.

Fixpoint TrimRight (s : string) : string :=
  match s with
  | "" => ""
  | String c r =>
      match TrimRight r with
      | "" => if Ascii.eqb c "/" then "" else String c ""
      | r' => String c r'
      end
  end.

Definition Trim (s : string) : string := TrimRight (TrimLeft s).

(** [strings.TrimSuffix]. *)
Definition TrimSuffix (s suffix : string) : string :=
  let n := String.length s in
  let k := String.length suffix in
  if ((k <=? n)%nat && String.eqb (substring (n - k) k s) suffix)%bool
  then substring 0 (n - k) s
  else s.

(** The loop of [extractProjectID]: it returns the part that follows
    the first ["projects"] that has a part behind it. *)
Fixpoint project_loop (parts : list string) : string :=
  match parts with
  | [] => ""
  | part :: rest =>
      match rest with
      | next :: _ =>
          if String.eqb part "projects" then next else project_loop rest
      | [] => ""
      end
  end.

Definition extractProjectID (path : string) : string :=
  project_loop (Split (Trim path)).

(** The loop of [extractProjectAndSecretID]: every ["projects"] and
    every ["secrets"] that has a part behind it sets its variable, so
    the last one of each wins. *)
Fixpoint pair_loop (parts : list string) (projectID secretID : string)
    : string * string :=
  match parts with
  | [] => (projectID, secretID)
  | part :: rest =>
      match rest with
      | next :: _ =>
          let projectID := if String.eqb part "projects" then next else projectID in
          let secretID := if String.eqb part "secrets" then next else secretID in
          pair_loop rest projectID secretID
      | [] => (projectID, secretID)
      end
  end.

Definition extractProjectAndSecretID (path : string) : string * string :=
  pair_loop (Split (Trim path)) "" "".

(** The loop of [extractProjectSecretAndVersionID]. *)
Fixpoint triple_loop (parts : list string) (projectID secretID versionID : string)
    : string * string * string :=
  match parts with
  | [] => (projectID, secretID, versionID)
  | part :: rest =>
      match rest with
      | next :: _ =>
          let projectID := if String.eqb part "projects" then next else projectID in
          let secretID := if String.eqb part "secrets" then next else secretID in
          let versionID := if String.eqb part "versions" then next else versionID in
          triple_loop rest projectID secretID versionID
      | [] => (projectID, secretID, versionID)
      end
  end.

Definition extractProjectSecretAndVersionID (path : string)
    : string * string * string :=
  triple_loop (Split (Trim path)) "" "" "".

Definition extractProjectAndSecretFromAddVersionPath (path : string)
    : string * string :=
  extractProjectAndSecretID (TrimSuffix path ":addVersion").

Definition extractProjectSecretAndVersionFromAccessPath (path : string)
    : string * string * string :=
  extractProjectSecretAndVersionID (TrimSuffix path ":access").

End Handlers.

(** ** internal/api/routes: the substring search of the dispatcher *)

(** The inner loop of [indexOf] at offset [i], with [k] iterations left
    and the next one at [j]: do the bytes of [substr] from [j] on stand
    in [s] from [i+j] on? The outer loop keeps [i <= len(s)-len(substr)],
    so both indices stay in range; the branch for an index out of range
    is never taken. *)
Fixpoint match_loop (s substr : string) (i j k : nat) : bool :=
  match k with
  | O => true
  | S k' =>
      match String.get (i + j) s, String.get j substr with
      | Some a, Some b =>
          if Ascii.eqb a b then match_loop s substr i (S j) k' else false
      | _, _ => false
      end
  end.

(** The outer loop of [indexOf], with [k] iterations left and the next
    one at [i]. *)
Fixpoint index_loop (s substr : string) (i k : nat) : Z :=
  match k with
  | O => -1
  | S k' =>
      if match_loop s substr i 0 (String.length substr) then Z.of_nat i
      else index_loop s substr (S i) k'
  end.

(** [indexOf]: the loop runs for [i = 0 .. len(s)-len(substr)], not at
    all when [substr] is the longer one. *)
Definition indexOf (s substr : string) : Z :=
  if (String.length s <? String.length substr)%nat then -1
  else index_loop s substr 0 (String.length s - String.length substr + 1).

Definition contains (s substr : string) : bool :=
  (String.length substr <=? String.length s)%nat && (0 <=? indexOf s substr).

Definition containsVersions (path : string) : bool := contains path "/versions".
Definition containsAccess (path : string) : bool := contains path ":access".

(** ** Which operations take the write lock *)

Definition writes (op : Op) : bool :=
  match op with
  | OpCreateSecret _ _ _ | OpDeleteSecret _ _
  | OpAddSecretVersion _ _ _ _ | OpDeleteSecretVersion _ _ _ => true
  | _ => false
  end.

(** ** internal/models: the messages of the error responses *)

(** [FormatResourceNotFoundError]; [strings.Split(resourceID, "/")] is
    [Handlers.Split]. *)
Definition FormatResourceNotFoundError (resourceType projectID resourceID : string)
    : string :=
  if String.eqb resourceType "secret" then
    "Secret [projects/" +:+ projectID +:+ "/secrets/" +:+ resourceID
      +:+ "] not found."
  else if String.eqb resourceType "version" then
    match Handlers.Split resourceID with
    | [part0; part1] =>
        "Secret Version [projects/" +:+ projectID +:+ "/secrets/" +:+ part0
          +:+ "/versions/" +:+ part1 +:+ "] not found."
    | _ =>
        "Secret Version [projects/" +:+ projectID +:+ "/secrets/" +:+ resourceID
          +:+ "] not found."
    end
  else
    "Resource [projects/" +:+ projectID +:+ "/" +:+ resourceID +:+ "] not found.".

(** [FormatResourceExistsError]. *)
Definition FormatResourceExistsError (resourceType projectID resourceID : string)
    : string :=
  if String.eqb resourceType "secret" then
    "Secret [projects/" +:+ projectID +:+ "/secrets/" +:+ resourceID
      +:+ "] already exists."
  else
    "Resource [projects/" +:+ projectID +:+ "/" +:+ resourceID
      +:+ "] already exists.".

(** ** internal/api/middleware: [MockAuth]

    What the middleware does with a request, told by its
    [Authorization] header: it answers 401 with one of three messages,
    or hands the request to the next handler. *)
Inductive auth_outcome : Type :=
| Unauthorized (message : string)
| Next.

(** [strings.TrimPrefix]. *)
Definition TrimPrefix (s prefix : string) : string :=
  if String.prefix prefix s
  then substring (String.length prefix) (String.length s - String.length prefix) s
  else s.

Definition MockAuth (authHeader : string) : auth_outcome :=
  if String.eqb authHeader "" then
    Unauthorized "Request is missing required authentication credential"
  else if negb (String.prefix "Bearer " authHeader) then
    Unauthorized "Invalid authentication credentials"
  else
    let token := TrimPrefix authHeader "Bearer " in
    if String.eqb token "" then Unauthorized "Invalid authentication token"
    else Next.

(** A string given by the values of its bytes. *)
Definition string_of_bytes (bs : list N) : string :=
  string_of_list_ascii (map ascii_of_N bs).

(** * Properties *)

(** ** Strings and decimal ids *)

Lemma Itoa_inj (a b : Z) : Itoa a = Itoa b -> a = b.
Proof.
  unfold Itoa. intros H.
  apply DecimalZ.to_int_inj.
  assert (Hs : Some (Z.to_int a) = Some (Z.to_int b)).
  { rewrite <- (NilEmpty.isi (Z.to_int a)), <- (NilEmpty.isi (Z.to_int b)).
    now rewrite H. }
  now inversion Hs.
Qed.

Lemma string_of_uint_no_slash (d : Decimal.uint) :
  no_slash (NilEmpty.string_of_uint d).
Proof.
  induction d; intros [|i] c; cbn; intros H;
    try discriminate; try (inversion H; subst; discriminate);
    try (eapply IHd; eassumption).
Qed.

Lemma Itoa_no_slash (z : Z) : no_slash (Itoa z).
Proof.
  unfold Itoa. destruct (Z.to_int z) as [d|d]; cbn.
  - apply string_of_uint_no_slash.
  - intros [|i] c; cbn; intros H.
    + inversion H; subst; discriminate.
    + eapply string_of_uint_no_slash; eassumption.
Qed.

Lemma Itoa_nonempty (z : Z) : Itoa z <> "".
Proof.
  unfold Itoa. intros H.
  pose proof (NilEmpty.isi (Z.to_int z)) as Hi. rewrite H in Hi. cbn in Hi.
  destruct z; cbn in Hi; try discriminate.
  - inversion Hi as [Hp]. symmetry in Hp.
    pose proof (DecimalPos.Unsigned.to_uint_nonnil p). contradiction.
Qed.

Lemma append_nil (b : string) : "" +:+ b = b.
Proof. reflexivity. Qed.

Lemma append_cons (c : ascii) (a b : string) :
  String c a +:+ b = String c (a +:+ b).
Proof. reflexivity. Qed.

Ltac string_ind a :=
  induction a; rewrite ?append_nil, ?append_cons; cbn.

Lemma length_append (a b : string) :
  String.length (a +:+ b) = (String.length a + String.length b)%nat.
Proof. string_ind a; [reflexivity | now f_equal]. Qed.

Lemma substring_all (s : string) : substring 0 (String.length s) s = s.
Proof. induction s; cbn; [reflexivity | now f_equal]. Qed.

Lemma substring_append_l (a b : string) :
  substring 0 (String.length a) (a +:+ b) = a.
Proof.
  string_ind a.
  - destruct b; reflexivity.
  - now f_equal.
Qed.

Lemma substring_append_r (a b : string) (n m : nat) :
  substring (String.length a + n) m (a +:+ b) = substring n m b.
Proof. string_ind a; [reflexivity | exact IHa]. Qed.

Lemma get_append_r (a b : string) (n : nat) :
  String.get (String.length a + n) (a +:+ b) = String.get n b.
Proof. string_ind a; [reflexivity | exact IHa]. Qed.

(** The loop of [GetVersionID] on a name that ends in ["/versions/"]
    and an id without a slash: it stops at that last marker. *)
Lemma scan_versions_suffix (pre id : string) (k : nat) :
  id <> "" -> no_slash id ->
  (String.length pre < k)%nat ->
  (k <= String.length (pre +:+ versionsPrefix +:+ id))%nat ->
  scan_versions (pre +:+ versionsPrefix +:+ id) k = id.
Proof.
  intros Hne Hns. set (name := pre +:+ versionsPrefix +:+ id).
  assert (Hlen : String.length name
                 = (String.length pre + (10 + String.length id))%nat).
  { unfold name. now rewrite !length_append. }
  assert (Hid : (0 < String.length id)%nat).
  { destruct id; [congruence | cbn; lia]. }
  induction k as [|i IH]; intros Hlo Hhi; [lia|].
  cbn [scan_versions].
  change (String.length versionsPrefix) with 10%nat.
  destruct (decide (i = String.length pre)) as [->|Hi].
  - assert (Hlt : (String.length pre + 10 <? String.length name)%nat = true).
    { apply Nat.ltb_lt. lia. }
    rewrite Hlt. cbn [andb].
    assert (Hw : substring (String.length pre) 10 name = versionsPrefix).
    { unfold name.
      rewrite <- (Nat.add_0_r (String.length pre)) at 1.
      rewrite substring_append_r.
      exact (substring_append_l versionsPrefix id). }
    rewrite Hw, String.eqb_refl.
    replace (String.length name - (String.length pre + 10))%nat
      with (String.length id) by lia.
    unfold name. rewrite substring_append_r.
    change 10%nat with (String.length versionsPrefix + 0)%nat.
    rewrite substring_append_r. apply substring_all.
  - destruct (i + 10 <? String.length name)%nat eqn:Hlt; cbn [andb].
    + apply Nat.ltb_lt in Hlt.
      destruct (String.eqb (substring i 10 name) versionsPrefix) eqn:Heq.
      * exfalso. apply String.eqb_eq in Heq.
        pose proof (substring_correct1 name i 10 9 ltac:(lia)) as Hg.
        rewrite Heq in Hg. cbn [String.get versionsPrefix] in Hg.
        unfold name in Hg.
        replace (9 + i)%nat
          with (String.length pre
                + (String.length versionsPrefix + (i - String.length pre - 1)))%nat
          in Hg by (cbn; lia).
        rewrite !get_append_r in Hg.
        symmetry in Hg. now apply Hns in Hg.
      * apply IH; lia.
    + apply IH; lia.
Qed.

Lemma append_assoc (a b c : string) : (a +:+ b) +:+ c = a +:+ (b +:+ c).
Proof. string_ind a; [reflexivity | now f_equal]. Qed.

Lemma version_name_split (projectID secretID versionID : string) :
  "projects/" +:+ projectID +:+ "/secrets/" +:+ secretID
    +:+ "/versions/" +:+ versionID
  = ("projects/" +:+ projectID +:+ "/secrets/" +:+ secretID)
    +:+ versionsPrefix +:+ versionID.
Proof. now rewrite !append_assoc. Qed.

Lemma GetVersionID_NewSecretVersion env projectID secretID (z : Z) data :
  GetVersionID (NewSecretVersion env projectID secretID (Itoa z) data) = Itoa z.
Proof.
  unfold GetVersionID. cbn [vName NewSecretVersion].
  rewrite version_name_split.
  apply scan_versions_suffix.
  - apply Itoa_nonempty.
  - apply Itoa_no_slash.
  - rewrite !length_append.
    pose proof (Itoa_nonempty z) as Hne.
    destruct (Itoa z); [congruence | cbn; lia].
  - lia.
Qed.

Example GetVersionID_12 :
  GetVersionID (NewSecretVersion {| now := 0; fresh_etag := "e" |} "p" "s" (Itoa 12) [])
  = "12".
Proof. reflexivity. Qed.

(** ** Arithmetic on [int] *)

Lemma wrap64_small (z : Z) : MinInt <= z <= MaxInt -> wrap64 z = z.
Proof.
  unfold wrap64, MinInt, MaxInt. intros H.
  rewrite Z.mod_small; lia.
Qed.

(** ** A call on a store whose lock is free *)

Lemma withLock_unlocked {A} (m : MemoryStorage)
    (body : gomap Secret -> result (A * gomap Secret)) :
  mu m = Unlocked ->
  withLock m body
  = '(a, secrets') ← body (secrets m);
    mret (a, {| mu := Unlocked; secrets := secrets' |}).
Proof.
  intros H. unfold withLock. rewrite H. cbn.
  destruct (body (secrets m)) as [[a s']| |]; reflexivity.
Qed.

Lemma withRLock_unlocked {A} (m : MemoryStorage)
    (body : gomap Secret -> result A) :
  mu m = Unlocked ->
  withRLock m body = a ← body (secrets m); mret (a, m).
Proof.
  intros H. unfold withRLock. rewrite H. cbn.
  destruct (body (secrets m)); cbn; try reflexivity.
  destruct m as [l s]; cbn in *; now subst.
Qed.

Lemma unlocked_eta (m : MemoryStorage) :
  mu m = Unlocked -> {| mu := Unlocked; secrets := secrets m |} = m.
Proof. destruct m; cbn; now intros ->. Qed.

Lemma with_versions_id (s : Secret) :
  with_versions s (Versions s) (VersionCount s) = s.
Proof. now destruct s. Qed.

Lemma mget_mstore {V} (m : gomap V) (k k' : string) (v : V) :
  is_Some (mget m k) ->
  mget (mstore m k v) k' = if decide (k = k') then Some v else mget m k'.
Proof.
  destruct m as [g|]; cbn; [|intros [? ?]; discriminate].
  intros _. apply lookup_insert.
Qed.

Lemma mget_mdelete {V} (m : gomap V) (k k' : string) :
  mget (mdelete m k) k' = if decide (k = k') then None else mget m k'.
Proof.
  destruct m as [g|]; cbn; [apply lookup_delete | now case_decide].
Qed.

(** ** What each call does on a store whose lock is free *)

Lemma AddSecretVersion_ok env m projectID secretID data secret g :
  mu m = Unlocked ->
  mget (secrets m) (mkkey projectID secretID) = Some secret ->
  Versions secret = Some g ->
  let count := wrap64 (VersionCount secret + 1) in
  let version := NewSecretVersion env projectID secretID (Itoa count) data in
  AddSecretVersion env m projectID secretID data
  = Returns (Ok version,
             {| mu := Unlocked;
                secrets := mstore (secrets m) (mkkey projectID secretID)
                             (with_versions secret
                                (Some (<[Itoa count := version]> g)) count) |}).
Proof.
  intros Hmu Hs Hg count version. unfold AddSecretVersion.
  rewrite withLock_unlocked by assumption.
  rewrite Hs, Hg. reflexivity.
Qed.

Lemma DeleteSecretVersion_ok m projectID secretID versionID secret v :
  mu m = Unlocked ->
  mget (secrets m) (mkkey projectID secretID) = Some secret ->
  mget (Versions secret) versionID = Some v ->
  DeleteSecretVersion m projectID secretID versionID
  = Returns (None,
             {| mu := Unlocked;
                secrets := mstore (secrets m) (mkkey projectID secretID)
                             (with_versions secret
                                (mdelete (Versions secret) versionID)
                                (VersionCount secret)) |}).
Proof.
  intros Hmu Hs Hv. unfold DeleteSecretVersion.
  rewrite withLock_unlocked by assumption.
  rewrite Hs, Hv. reflexivity.
Qed.

Lemma DeleteSecretVersion_inv m projectID secretID versionID m' secret :
  mu m = Unlocked ->
  mget (secrets m) (mkkey projectID secretID) = Some secret ->
  DeleteSecretVersion m projectID secretID versionID = Returns (None, m') ->
  is_Some (mget (Versions secret) versionID) /\
  m' = {| mu := Unlocked;
          secrets := mstore (secrets m) (mkkey projectID secretID)
                       (with_versions secret
                          (mdelete (Versions secret) versionID)
                          (VersionCount secret)) |}.
Proof.
  intros Hmu Hs. unfold DeleteSecretVersion.
  rewrite withLock_unlocked by assumption. rewrite Hs.
  destruct (mget (Versions secret) versionID) as [v|] eqn:Hv; cbn.
  - intros [= <-]. split; [eauto | reflexivity].
  - discriminate.
Qed.

Lemma GetSecretVersion_latest m projectID secretID secret :
  mu m = Unlocked ->
  mget (secrets m) (mkkey projectID secretID) = Some secret ->
  GetSecretVersion m projectID secretID "latest"
  = Returns (if VersionCount secret =? 0 then Err ErrVersionNotFound
             else match mget (Versions secret) (Itoa (VersionCount secret)) with
                  | Some version => Ok version
                  | None => Err ErrVersionNotFound
                  end, m).
Proof.
  intros Hmu Hs. unfold GetSecretVersion.
  rewrite withRLock_unlocked by assumption. rewrite Hs.
  change (String.eqb "latest" "latest") with true. cbn iota.
  destruct (VersionCount secret =? 0); [reflexivity|].
  destruct (mget (Versions secret) (Itoa (VersionCount secret))); reflexivity.
Qed.

Lemma GetSecretVersion_by_id m projectID secretID versionID secret :
  mu m = Unlocked ->
  versionID <> "latest" ->
  mget (secrets m) (mkkey projectID secretID) = Some secret ->
  GetSecretVersion m projectID secretID versionID
  = Returns (match mget (Versions secret) versionID with
             | Some version => Ok version
             | None => Err ErrVersionNotFound
             end, m).
Proof.
  intros Hmu Hne Hs. unfold GetSecretVersion.
  rewrite withRLock_unlocked by assumption. rewrite Hs.
  apply String.eqb_neq in Hne. rewrite Hne.
  destruct (mget (Versions secret) versionID); reflexivity.
Qed.

(** ** Test vectors of the checksums *)

Example crc32_check_value :
  Checksum.ChecksumIEEE (bytes_of_string "123456789") = 0xCBF43926.
Proof. vm_compute. reflexivity. Qed.

Example sha256_empty :
  Checksum.hex_bytes (Checksum.Sum256 [])
  = "e3b0c44298fc1c149afbf4c8996fb92427ae41e4649b934ca495991b7852b855".
Proof. vm_compute. reflexivity. Qed.

Example sha256_two_blocks :
  Checksum.hex_bytes
    (Checksum.Sum256
       (bytes_of_string "abcdbcdecdefdefgefghfghighijhijkijkljklmklmnlmnomnopnopq"))
  = "248d6a61d20638b8e5c026930c3e6039a33ce45964ff2167f6ecedd419db06c1".
Proof. vm_compute. reflexivity. Qed.

Example sha256_constants :
  nth 0 Checksum.K256 0 = 0x428a2f98 /\ nth 63 Checksum.K256 0 = 0xc67178f2
  /\ nth 0 Checksum.H0 0 = 0x6a09e667 /\ nth 7 Checksum.H0 0 = 0x5be0cd19.
Proof. vm_compute. repeat split; reflexivity. Qed.

(** ** Test vectors of the UTF-8 coercion

    ASCII and well-formed sequences of two, three and four bytes are
    kept, U+FFFD itself included; a stray byte, a truncated sequence, an
    overlong form, a surrogate and a value above U+10FFFF give one
    U+FFFD for each of their bytes. *)
Example ToValid_kept :
  Forall (fun bs => UTF8.ToValid (string_of_bytes bs) = string_of_bytes bs)
    [ [0x61; 0x2F; 0x7F]; [0xC3; 0xA9]; [0xE2; 0x82; 0xAC];
      [0xED; 0x9F; 0xBF]; [0xEF; 0xBF; 0xBD]; [0xF0; 0x9F; 0x98; 0x80];
      [0xF4; 0x8F; 0xBF; 0xBF] ]%N.
Proof. repeat constructor. Qed.

Example ToValid_replaced :
  UTF8.ToValid (string_of_bytes [0x61; 0xFF; 0x62]%N)
  = "a" +:+ UTF8.RuneError +:+ "b"
  /\ UTF8.ToValid (string_of_bytes [0xE2; 0x82]%N)
     = UTF8.RuneError +:+ UTF8.RuneError
  /\ UTF8.ToValid (string_of_bytes [0xC0; 0xAF]%N)
     = UTF8.RuneError +:+ UTF8.RuneError
  /\ UTF8.ToValid (string_of_bytes [0xED; 0xA0; 0x80]%N)
     = UTF8.RuneError +:+ UTF8.RuneError +:+ UTF8.RuneError
  /\ UTF8.ToValid (string_of_bytes [0xF4; 0x90; 0x80; 0x80]%N)
     = UTF8.RuneError +:+ UTF8.RuneError +:+ UTF8.RuneError +:+ UTF8.RuneError.
Proof. vm_compute. repeat split; reflexivity. Qed.

(** ** C1: [Save], then [Load] *)

(** [Save] takes the write lock on [p.mu] and, holding it, asks for the
    read lock on the same mutex: it never returns. *)
Lemma Save_blocks (env : Env) (p : PersistentStorage) (disk : Disk) :
  Save env p disk = Blocks.
Proof. unfold Save. now destruct (pmu p). Qed.

(** Every mutating call of the wrapper whose in-memory part succeeds
    ends in that [Save]. *)
Lemma Persistent_AddSecretVersion_blocks env p disk projectID secretID data v m1 :
  AddSecretVersion env (mem p) projectID secretID data = Returns (Ok v, m1) ->
  Persistent.AddSecretVersion env p disk projectID secretID data = Blocks.
Proof.
  intros H. unfold Persistent.AddSecretVersion, AddSecretVersion_with.
  rewrite H. cbn [mbind result_bind]. now rewrite Save_blocks.
Qed.

(** Behind [json.Unmarshal] [Load] takes the write lock on [p.mu] a
    second time while it holds it. *)
Lemma install_blocks (p : PersistentStorage) (l : RWMutex)
    (storageData : gomap Secret) :
  l ≠ Unlocked -> install p l storageData = Blocks.
Proof. intros Hl. unfold install. destruct l; [contradiction|reflexivity..]. Qed.

(** [Load] on a file that decodes never returns either. *)
Lemma Load_blocks (p : PersistentStorage) (disk : Disk) (j : json)
    (storageData : gomap Secret) :
  files disk !! filePath p = Some (Document j) ->
  unmarshalData j = Some storageData ->
  Load p disk = Blocks.
Proof.
  intros Hf Hj. unfold Load. destruct (pmu p); try reflexivity.
  cbn [Lock mbind result_bind]. now rewrite Hf, Hj.
Qed.

Lemma Load_foreign_blocks (p : PersistentStorage) (disk : Disk)
    (storageData : gomap Secret) :
  files disk !! filePath p = Some (Foreign storageData) ->
  Load p disk = Blocks.
Proof.
  intros Hf. unfold Load. destruct (pmu p); try reflexivity.
  cbn [Lock mbind result_bind]. now rewrite Hf.
Qed.

(** A secret read back from its own JSON has no version map and a
    counter of zero. *)
Lemma unmarshalSecret_no_versions (d : json_secret) (s : Secret) :
  unmarshalSecret d = Some s -> Versions s = None /\ VersionCount s = 0.
Proof.
  unfold unmarshalSecret. intros [= <-]. split; reflexivity.
Qed.

(** Whatever document [Load] reads, the resources it restores have no
    version map and a counter of zero. *)
Lemma unmarshalData_no_versions (j : json) (restored : gomap Secret)
    (key : string) (secret : Secret) :
  unmarshalData j = Some restored ->
  mget restored key = Some secret ->
  Versions secret = None /\ VersionCount secret = 0.
Proof.
  unfold unmarshalData. destruct (j_secrets j) as [members|].
  - destruct (mapM _ members) as [kvs|] eqn:Hm; cbn [mbind option_bind];
      [|discriminate].
    intros [= <-] Hget. cbn [mget] in Hget.
    apply elem_of_list_to_map_2 in Hget. rewrite elem_of_reverse in Hget.
    apply list_elem_of_lookup in Hget as [i Hi].
    apply mapM_Some in Hm.
    destruct (Forall2_lookup_r _ _ _ _ _ Hm Hi) as (kv & _ & Hkv).
    destruct (unmarshalSecret kv.2) as [s0|] eqn:Hs; cbn in Hkv; [|discriminate].
    injection Hkv as _ <-. now apply unmarshalSecret_no_versions in Hs.
  - intros [= <-]. discriminate.
Qed.

(** C1, on the store that holds "p1/s1" with the versions "1" and "2":
    [Save] does not return; [Load] of the document that [Save] marshals
    does not return; and that document decodes to a resource map that is
    not the one saved, its resource having no versions and counter 0. *)
Theorem Save_then_Load_two :
  Save env0 persistent_two disk0 = Blocks
  /\ Load (NewPersistentStorage "gsm.json") disk_two = Blocks
  /\ exists restored secret,
       unmarshalData document_two = Some restored
       /\ restored <> secrets (mem persistent_two)
       /\ mget restored (mkkey "p1" "s1") = Some secret
       /\ Versions secret = None
       /\ VersionCount secret = 0
       /\ counter_of (mem persistent_two) "p1" "s1" = 2.
Proof.
  split; [apply Save_blocks|]. split.
  - vm_compute. reflexivity.
  - eexists _, _. split; [vm_compute; reflexivity|].
    split; [|repeat split; vm_compute; reflexivity].
    vm_compute. discriminate.
Qed.

(** ** C2: [AddSecretVersion] of the wrapper when the file cannot be written *)

Lemma wrap64_succ_pred (c : Z) :
  MinInt <= c <= MaxInt -> wrap64 (wrap64 (c + 1) - 1) = c.
Proof.
  unfold MinInt, MaxInt. intros Hc.
  destruct (decide (c = 2 ^ 63 - 1)) as [->|Hne]; [reflexivity|].
  rewrite (wrap64_small (c + 1)) by (unfold MinInt, MaxInt; lia).
  replace (c + 1 - 1) with c by lia.
  apply wrap64_small. unfold MinInt, MaxInt. lia.
Qed.

Lemma persistent_eta (p : PersistentStorage) (g : gmap string Secret) :
  mu (mem p) = Unlocked -> pmu p = Unlocked -> secrets (mem p) = Some g ->
  {| mem := {| mu := Unlocked; secrets := Some g |};
     filePath := filePath p; pmu := Unlocked |} = p.
Proof. destruct p as [[l s] f l']; cbn; intros; now subst. Qed.

(** The rollback block, run behind a [save] that returns an error, does
    not keep the counter: the counter that the store had reached by
    adding the version has been decremented. *)
Lemma rollback_counterexample :
  ~ rollback_as_specified save_failing env1 persistent_p1s1 disk0 "p1" "s1"
      (bytes_of_string "abc").
Proof.
  intros H.
  destruct (H (NewSecretVersion env1 "p1" "s1" "1" (bytes_of_string "abc"))
              (match AddSecretVersion env1 store_p1s1 "p1" "s1" (bytes_of_string "abc") with
               | Returns (_, m) => m
               | _ => store_p1s1
               end)
              (ErrIO "failed to write storage file") _ disk0
              ltac:(vm_compute; reflexivity) eq_refl)
    as (p' & Hrun & _ & Hcount & _).
  vm_compute in Hrun. injection Hrun as <-.
  vm_compute in Hcount. discriminate.
Qed.

(** The rollback block on its own, behind any [save] that returns an
    error and leaves store and locks as they were (the [Save] of the
    program is no such [save]: it does not return). Let the resource
    exist, with a version map, and hold no version under the id that
    comes next. The wrapper then returns the error of [save] and no
    version; it has removed the version it added and set the counter
    back by one. *)
Theorem AddSecretVersion_rollback
    (save : PersistentStorage -> Disk -> result (option error * PersistentStorage * Disk))
    (env : Env) (p : PersistentStorage) (disk disk1 : Disk)
    (projectID secretID : string) (data : list byte)
    (secret : Secret) (e : error) :
  mu (mem p) = Unlocked ->
  pmu p = Unlocked ->
  mget (secrets (mem p)) (mkkey projectID secretID) = Some secret ->
  is_Some (Versions secret) ->
  MinInt <= VersionCount secret <= MaxInt ->
  mget (Versions secret) (Itoa (wrap64 (VersionCount secret + 1))) = None ->
  (forall q, save q disk = Returns (Some e, q, disk1)) ->
  AddSecretVersion_with save env p disk projectID secretID data
    = Returns (Err e, p, disk1)
  /\ exists version m1,
       AddSecretVersion env (mem p) projectID secretID data
         = Returns (Ok version, m1)
       /\ counter_of m1 projectID secretID = wrap64 (VersionCount secret + 1)
       /\ counter_of (mem p) projectID secretID
          = wrap64 (counter_of m1 projectID secretID - 1).
Proof.
  intros Hmu Hpmu Hs [g Hg] Hc Hfree Hsave.
  pose proof (AddSecretVersion_ok env (mem p) projectID secretID data secret g
                Hmu Hs Hg) as Hadd. cbn zeta in Hadd.
  set (count := wrap64 (VersionCount secret + 1)) in *.
  set (version := NewSecretVersion env projectID secretID (Itoa count) data) in *.
  set (s1 := with_versions secret (Some (<[Itoa count := version]> g)) count) in *.
  destruct (secrets (mem p)) as [sm|] eqn:Hsm; [|discriminate].
  cbn [mstore mget] in *.
  assert (Hcnt : wrap64 (count - 1) = VersionCount secret).
  { unfold count. now apply wrap64_succ_pred. }
  split.
  - unfold AddSecretVersion_with. rewrite Hadd. cbn [mbind result_bind].
    rewrite Hsave. cbn [mbind result_bind].
    unfold rollback. cbn [set_mem pmu mem secrets]. rewrite Hpmu.
    cbn [Lock mbind result_bind mget]. rewrite lookup_insert_eq.
    cbn [set_secrets set_mem set_pmu mem mu filePath pmu secrets mstore
         Unlock mbind result_bind mret result_ret].
    do 3 f_equal.
    unfold version at 1. rewrite GetVersionID_NewSecretVersion.
    rewrite insert_insert_eq.
    assert (Hback : with_versions s1 (mdelete (Versions s1) (Itoa count))
                      (wrap64 (VersionCount s1 - 1)) = secret).
    { unfold s1, with_versions.
      cbn [Versions VersionCount mdelete Name CreateTime Labels Replication_ Etag].
      rewrite Hcnt, delete_insert_eq, delete_id
        by (rewrite Hg in Hfree; exact Hfree).
      rewrite <- Hg. now destruct secret. }
    rewrite Hback, (insert_id sm _ secret) by exact Hs.
    unfold set_pmu, set_secrets, set_mem. cbn [mem mu filePath pmu secrets].
    now apply persistent_eta.
  - eexists version, _. split; [exact Hadd|].
    unfold counter_of. cbn [secrets mget]. rewrite Hsm. cbn [mget].
    rewrite lookup_insert_eq, Hs.
    cbn [s1 with_versions VersionCount]. split; [reflexivity|].
    now rewrite Hcnt.
Qed.

Lemma AddSecretVersion_rollback_witness :
  AddSecretVersion_with save_failing env1 persistent_two disk0 "p1" "s1"
      (bytes_of_string "new")
    = Returns (Err (ErrIO "failed to write storage file"), persistent_two, disk0)
  /\ exists version m1,
       AddSecretVersion env1 (mem persistent_two) "p1" "s1" (bytes_of_string "new")
         = Returns (Ok version, m1)
       /\ counter_of m1 "p1" "s1"
          = wrap64 (VersionCount (secret_of store_two "p1" "s1") + 1)
       /\ counter_of (mem persistent_two) "p1" "s1"
          = wrap64 (counter_of m1 "p1" "s1" - 1).
Proof.
  apply (AddSecretVersion_rollback save_failing env1 persistent_two disk0 disk0
           "p1" "s1" (bytes_of_string "new") (secret_of store_two "p1" "s1")
           (ErrIO "failed to write storage file")).
  - reflexivity.
  - reflexivity.
  - vm_compute. reflexivity.
  - vm_compute. eauto.
  - vm_compute. split; discriminate.
  - vm_compute. reflexivity.
  - reflexivity.
Defined.

(** What a successful [AddSecretVersion] of the in-memory store has
    done. *)
Lemma AddSecretVersion_inv (env : Env) (m m1 : MemoryStorage)
    (projectID secretID : string) (data : list byte) (version : SecretVersion) :
  AddSecretVersion env m projectID secretID data = Returns (Ok version, m1) ->
  exists secret g,
    mu m = Unlocked
    /\ mget (secrets m) (mkkey projectID secretID) = Some secret
    /\ Versions secret = Some g
    /\ version = NewSecretVersion env projectID secretID
                   (Itoa (wrap64 (VersionCount secret + 1))) data
    /\ m1 = {| mu := Unlocked;
               secrets := mstore (secrets m) (mkkey projectID secretID)
                            (with_versions secret
                               (Some (<[Itoa (wrap64 (VersionCount secret + 1))
                                        := version]> g))
                               (wrap64 (VersionCount secret + 1))) |}.
Proof.
  intros H.
  assert (Hmu : mu m = Unlocked).
  { destruct (mu m) eqn:E; [reflexivity|exfalso..];
      unfold AddSecretVersion, withLock in H; rewrite E in H;
      cbn [Lock mbind result_bind] in H; discriminate H. }
  unfold AddSecretVersion in H. rewrite withLock_unlocked in H by exact Hmu.
  destruct (mget (secrets m) (mkkey projectID secretID)) as [secret|] eqn:Hs;
    [|discriminate].
  destruct (Versions secret) as [g|] eqn:Hg; [|discriminate].
  cbn in H. injection H as <- <-.
  exists secret, g. repeat split; assumption.
Qed.

(** C2. The wrapper does not get as far as its rollback. Whenever the
    in-memory store has added the version, it holds the new version and
    a counter one higher than before, and the [Save] that the wrapper
    then calls does not return, whatever the disk: the call returns
    no error, removes nothing, and leaves the store as changed. *)
Theorem AddSecretVersion_hangs_before_rollback
    (env : Env) (p : PersistentStorage) (disk : Disk)
    (projectID secretID : string) (data : list byte)
    (version : SecretVersion) (m1 : MemoryStorage) :
  AddSecretVersion env (mem p) projectID secretID data = Returns (Ok version, m1) ->
  stored m1 (mkkey projectID secretID) (GetVersionID version) version
  /\ counter_of m1 projectID secretID
     = wrap64 (counter_of (mem p) projectID secretID + 1)
  /\ Save env (set_mem p m1) disk = Blocks
  /\ Persistent.AddSecretVersion env p disk projectID secretID data = Blocks.
Proof.
  intros Hadd.
  destruct (AddSecretVersion_inv _ _ _ _ _ _ _ Hadd)
    as (secret & g & Hmu & Hs & Hg & Hv & Hm1).
  set (count := wrap64 (VersionCount secret + 1)) in *.
  assert (Hget : mget (secrets m1) (mkkey projectID secretID)
                 = Some (with_versions secret
                           (Some (<[Itoa count := version]> g)) count)).
  { rewrite Hm1. cbn [secrets].
    rewrite mget_mstore by (rewrite Hs; eauto). now rewrite decide_True. }
  split; [|split; [|split]].
  - eexists. split; [exact Hget|]. cbn [Versions with_versions mget].
    rewrite Hv at 1. rewrite GetVersionID_NewSecretVersion.
    apply lookup_insert_eq.
  - unfold counter_of. rewrite Hget, Hs. reflexivity.
  - apply Save_blocks.
  - unfold Persistent.AddSecretVersion, AddSecretVersion_with.
    rewrite Hadd. cbn [mbind result_bind]. now rewrite Save_blocks.
Qed.

Lemma AddSecretVersion_hangs_before_rollback_witness :
  let disk := {| files := ∅; read_only := true |} in
  let data := bytes_of_string "abc" in
  exists version m1,
    AddSecretVersion env1 (mem persistent_p1s1) "p1" "s1" data
    = Returns (Ok version, m1)
    /\ stored m1 (mkkey "p1" "s1") "1" version
    /\ counter_of (mem persistent_p1s1) "p1" "s1" = 0
    /\ counter_of m1 "p1" "s1" = 1
    /\ Save env1 (set_mem persistent_p1s1 m1) disk = Blocks
    /\ Persistent.AddSecretVersion env1 persistent_p1s1 disk "p1" "s1" data
       = Blocks.
Proof.
  intros disk data.
  assert (Hadd : exists version m1,
             AddSecretVersion env1 (mem persistent_p1s1) "p1" "s1" data
             = Returns (Ok version, m1)
             /\ GetVersionID version = "1"
             /\ counter_of m1 "p1" "s1" = 1).
  { eexists _, _. split; [vm_compute; reflexivity|].
    split; vm_compute; reflexivity. }
  destruct Hadd as (version & m1 & Hadd & Hid & Hcount).
  destruct (AddSecretVersion_hangs_before_rollback env1 persistent_p1s1 disk
              "p1" "s1" data version m1 Hadd)
    as (Hstored & _ & Hsave & Hcall).
  exists version, m1. rewrite Hid in Hstored.
  repeat split; try assumption; vm_compute; reflexivity.
Defined.

(** ** C3: the scenario with the payload "abc" *)

Lemma scenario_value :
  scenario
  = Returns (Ok (NewSecretVersion env1 "p1" "s1" "1" (bytes_of_string "abc")),
             None, Err ErrSecretNotFound).
Proof. vm_compute. reflexivity. Qed.

(** C3, as stated, fails: the CRC recorded for "abc" is not 0x4F5344CE. *)
Lemma scenario_crc_counterexample : ~ scenario_with_crc 0x4F5344CE.
Proof.
  intros (version & Hrun & _ & Hsum).
  rewrite scenario_value in Hrun. injection Hrun as <-.
  vm_compute in Hsum. discriminate.
Qed.

(** C3, amended. In the scenario, version "1" is read back with the
    payload "abc" and a checksum whose CRC is the CRC-32 (IEEE) of
    "abc", 0x352441C2, held as the text "352441c2", and whose digest is
    the SHA-256 of "abc"; the resource is then deleted, and reading it
    fails with [ErrSecretNotFound]. *)
Theorem scenario_abc :
  scenario_with_crc 0x352441C2
  /\ Checksum.ChecksumIEEE (bytes_of_string "abc") = 0x352441C2
  /\ generateChecksum (bytes_of_string "abc")
     = {| Crc32c := "352441c2";
          Sha256 := "ba7816bf8f01cfea414140de5dae2223b00361a396177a9cb410ff61f20015ad" |}.
Proof.
  split; [|split].
  - eexists. split; [apply scenario_value|]. split; vm_compute; reflexivity.
  - vm_compute. reflexivity.
  - vm_compute. reflexivity.
Qed.

(** ** C4: ids handed out by successive calls *)

Lemma AddSecretVersions_from (projectID secretID : string)
    (calls : list (Env * list byte)) :
  forall (m : MemoryStorage) (secret : Secret) (g : gmap string SecretVersion) (c : Z),
    mu m = Unlocked ->
    mget (secrets m) (mkkey projectID secretID) = Some secret ->
    Versions secret = Some g ->
    VersionCount secret = c ->
    0 <= c -> c + Z.of_nat (length calls) <= MaxInt ->
    exists vs m' secret' g',
      AddSecretVersions calls m projectID secretID = Returns (Ok <$> vs, m')
      /\ mu m' = Unlocked
      /\ mget (secrets m') (mkkey projectID secretID) = Some secret'
      /\ Versions secret' = Some g'
      /\ VersionCount secret' = c + Z.of_nat (length calls)
      /\ GetVersionID <$> vs
         = (fun k => Itoa (c + Z.of_nat k)) <$> seq 1 (length calls)
      /\ Data <$> vs = snd <$> calls
      /\ (forall vN, last vs = Some vN ->
            g' !! Itoa (c + Z.of_nat (length calls)) = Some vN).
Proof.
  induction calls as [|[env data] rest IH]; intros m secret g c Hmu Hs Hg Hc H0 Hmax.
  - exists [], m, secret, g. cbn [length Z.of_nat].
    rewrite Z.add_0_r. repeat split; try assumption; try reflexivity.
    discriminate.
  - cbn [length] in Hmax.
    assert (Hw : wrap64 (VersionCount secret + 1) = c + 1).
    { rewrite Hc. apply wrap64_small. unfold MinInt, MaxInt in *. lia. }
    pose proof (AddSecretVersion_ok env m projectID secretID data secret g Hmu Hs Hg)
      as Hadd. cbn zeta in Hadd. rewrite Hw in Hadd.
    set (v1 := NewSecretVersion env projectID secretID (Itoa (c + 1)) data) in *.
    set (s1 := with_versions secret (Some (<[Itoa (c + 1) := v1]> g)) (c + 1)) in *.
    set (m1 := {| mu := Unlocked;
                  secrets := mstore (secrets m) (mkkey projectID secretID) s1 |}) in *.
    assert (Hs1 : mget (secrets m1) (mkkey projectID secretID) = Some s1).
    { cbn [m1 secrets]. rewrite mget_mstore by (rewrite Hs; eauto).
      now rewrite decide_True. }
    destruct (IH m1 s1 (<[Itoa (c + 1) := v1]> g) (c + 1))
      as (vs & m' & secret' & g' & Hrun & Hmu' & Hs' & Hg' & Hc' & Hids & Hdata & Hlast);
      try reflexivity; try assumption; try lia.
    exists (v1 :: vs), m', secret', g'.
    cbn [AddSecretVersions]. rewrite Hadd. cbn [mbind result_bind].
    rewrite Hrun. cbn [mbind result_bind mret result_ret].
    cbn [length seq]. rewrite !fmap_cons.
    repeat split; try assumption.
    + rewrite Hc'. lia.
    + f_equal.
      * unfold v1. rewrite GetVersionID_NewSecretVersion.
        now replace (c + Z.of_nat 1) with (c + 1) by lia.
      * rewrite Hids, <- (fmap_S_seq 1), <- list_fmap_compose.
        apply list_fmap_ext. intros _ k _. cbn [compose]. f_equal. lia.
    + cbn [snd]. now rewrite Hdata.
    + intros vN HvN.
      destruct rest as [|call rest'].
      * cbn in Hrun. destruct vs; [|discriminate].
        injection Hrun as <-. cbn in HvN. injection HvN as <-.
        rewrite Hs1 in Hs'. injection Hs' as <-. cbn in Hg'. injection Hg' as <-.
        cbn [length]. replace (c + Z.of_nat 1) with (c + 1) by lia.
        apply lookup_insert_eq.
      * destruct vs as [|v2 vs'].
        { apply (f_equal length) in Hids. cbn in Hids. discriminate. }
        rewrite last_cons_cons in HvN.
        replace (c + Z.of_nat (S (length (call :: rest'))))
          with (c + 1 + Z.of_nat (length (call :: rest'))) by lia.
        now apply Hlast.
Qed.

(** C4. On a resource whose counter is 0 and whose version map exists,
    as [NewSecret] makes them, N >= 1 calls of [AddSecretVersion] made one
    after the other all return; the ids of the versions they return are
    "1", "2", ..., "N" in the order of the calls, each version carries
    the payload of its call, and [GetSecretVersion] with the id
    ["latest"] then returns the version of the last call, whose id is
    "N". *)
Theorem AddSecretVersion_sequential_ids
    (m : MemoryStorage) (projectID secretID : string) (secret : Secret)
    (calls : list (Env * list byte)) :
  mu m = Unlocked ->
  mget (secrets m) (mkkey projectID secretID) = Some secret ->
  VersionCount secret = 0 ->
  is_Some (Versions secret) ->
  calls <> [] ->
  Z.of_nat (length calls) <= MaxInt ->
  exists vs m' vN,
    AddSecretVersions calls m projectID secretID = Returns (Ok <$> vs, m')
    /\ GetVersionID <$> vs = (fun k => Itoa (Z.of_nat k)) <$> seq 1 (length calls)
    /\ Data <$> vs = snd <$> calls
    /\ last vs = Some vN
    /\ GetVersionID vN = Itoa (Z.of_nat (length calls))
    /\ GetSecretVersion m' projectID secretID "latest" = Returns (Ok vN, m').
Proof.
  intros Hmu Hs Hc [g Hg] Hne Hmax.
  destruct (AddSecretVersions_from projectID secretID calls m secret g 0)
    as (vs & m' & secret' & g' & Hrun & Hmu' & Hs' & Hg' & Hc' & Hids & Hdata & Hlast);
    try assumption; try lia.
  assert (Hlen : length vs = length calls).
  { apply (f_equal length) in Hids. now rewrite !length_fmap, length_seq in Hids. }
  destruct (last vs) as [vN|] eqn:HvN.
  2:{ apply last_None in HvN. subst vs. destruct calls; [congruence | discriminate]. }
  exists vs, m', vN.
  repeat split; try assumption.
  - assert (Hl : last (GetVersionID <$> vs) = Some (GetVersionID vN)).
    { now rewrite fmap_last, HvN. }
    rewrite Hids, fmap_last in Hl.
    destruct calls as [|call rest]; [congruence|].
    cbn [length] in *. rewrite seq_S, last_snoc in Hl.
    cbn [fmap option_fmap option_map] in Hl. injection Hl as <-.
    reflexivity.
  - rewrite (GetSecretVersion_latest _ _ _ secret') by assumption.
    rewrite Hc'. cbn [Z.add].
    destruct calls as [|call rest]; [congruence|].
    replace (Z.of_nat (length (call :: rest)) =? 0) with false
      by (symmetry; apply Z.eqb_neq; cbn [length]; lia).
    rewrite Hg'. cbn [mget]. now rewrite (Hlast vN eq_refl).
Qed.

Lemma AddSecretVersion_sequential_ids_witness :
  exists vs m' vN,
    AddSecretVersions three_calls store_p1s1 "p1" "s1" = Returns (Ok <$> vs, m')
    /\ GetVersionID <$> vs
       = (fun k => Itoa (Z.of_nat k)) <$> seq 1 (length three_calls)
    /\ Data <$> vs = snd <$> three_calls
    /\ last vs = Some vN
    /\ GetVersionID vN = Itoa (Z.of_nat (length three_calls))
    /\ GetSecretVersion m' "p1" "s1" "latest" = Returns (Ok vN, m').
Proof.
  apply (AddSecretVersion_sequential_ids store_p1s1 "p1" "s1"
           (NewSecret env0 "p1" "s1" None) three_calls).
  - reflexivity.
  - reflexivity.
  - reflexivity.
  - cbn. eauto.
  - discriminate.
  - vm_compute. discriminate.
Defined.

Example three_calls_ids :
  returned_ids (AddSecretVersions three_calls store_p1s1 "p1" "s1")
  = ["1"; "2"; "3"].
Proof. vm_compute. reflexivity. Qed.

(** ** C5: "latest" after the newest version is gone *)

(** C5. When the version whose id is the counter of its resource has
    been deleted, [GetSecretVersion] with the id ["latest"] fails with
    [ErrVersionNotFound], whatever older versions the resource still
    holds; each of those is still returned under its own id. *)
Theorem latest_after_deleting_highest
    (m m' : MemoryStorage) (projectID secretID : string) (secret : Secret) :
  mu m = Unlocked ->
  mget (secrets m) (mkkey projectID secretID) = Some secret ->
  DeleteSecretVersion m projectID secretID (Itoa (VersionCount secret))
    = Returns (None, m') ->
  GetSecretVersion m' projectID secretID "latest"
    = Returns (Err ErrVersionNotFound, m')
  /\ forall versionID older,
       versionID <> "latest" ->
       versionID <> Itoa (VersionCount secret) ->
       mget (Versions secret) versionID = Some older ->
       GetSecretVersion m' projectID secretID versionID = Returns (Ok older, m').
Proof.
  intros Hmu Hs Hdel.
  destruct (DeleteSecretVersion_inv _ _ _ _ _ _ Hmu Hs Hdel) as [Hv ->].
  set (secret' := with_versions _ _ _).
  assert (Hs' : mget (mstore (secrets m) (mkkey projectID secretID) secret')
                  (mkkey projectID secretID) = Some secret').
  { rewrite mget_mstore by (rewrite Hs; eauto). now rewrite decide_True. }
  split.
  - rewrite (GetSecretVersion_latest _ _ _ secret') by (reflexivity || exact Hs').
    cbn [secret' with_versions VersionCount Versions].
    rewrite mget_mdelete, decide_True by reflexivity.
    now destruct (VersionCount secret =? 0).
  - intros versionID older Hl Hne Hold.
    rewrite (GetSecretVersion_by_id _ _ _ _ secret') by (reflexivity || assumption).
    cbn [secret' with_versions VersionCount Versions].
    rewrite mget_mdelete, decide_False by congruence.
    now rewrite Hold.
Qed.

Lemma latest_after_deleting_highest_witness :
  GetSecretVersion store_two_deleted "p1" "s1" "latest"
    = Returns (Err ErrVersionNotFound, store_two_deleted)
  /\ forall versionID older,
       versionID <> "latest" ->
       versionID <> Itoa (VersionCount (secret_of store_two "p1" "s1")) ->
       mget (Versions (secret_of store_two "p1" "s1")) versionID = Some older ->
       GetSecretVersion store_two_deleted "p1" "s1" versionID
         = Returns (Ok older, store_two_deleted).
Proof.
  apply (latest_after_deleting_highest store_two store_two_deleted "p1" "s1"
           (secret_of store_two "p1" "s1")).
  - reflexivity.
  - vm_compute. reflexivity.
  - vm_compute. reflexivity.
Defined.

(** ** C6: deleting a version leaves the counter alone *)

(** C6. When [DeleteSecretVersion] succeeds on a resource, the resource
    it leaves has the same counter and the same fields, its version map
    has lost that one entry and no other, and every other resource is
    untouched. The next [AddSecretVersion] returns the id counter+1,
    which differs from every id 1..counter handed out before, the
    deleted one included. *)
Theorem DeleteSecretVersion_keeps_counter
    (env : Env) (m m' : MemoryStorage) (projectID secretID versionID : string)
    (secret : Secret) (data : list byte) :
  mu m = Unlocked ->
  mget (secrets m) (mkkey projectID secretID) = Some secret ->
  0 <= VersionCount secret < MaxInt ->
  DeleteSecretVersion m projectID secretID versionID = Returns (None, m') ->
  (exists secret',
     mget (secrets m') (mkkey projectID secretID) = Some secret'
     /\ VersionCount secret' = VersionCount secret
     /\ secret' = with_versions secret (Versions secret') (VersionCount secret)
     /\ mget (Versions secret') versionID = None
     /\ forall other, other <> versionID ->
          mget (Versions secret') other = mget (Versions secret) other)
  /\ (forall key, key <> mkkey projectID secretID ->
        mget (secrets m') key = mget (secrets m) key)
  /\ exists version m'',
       AddSecretVersion env m' projectID secretID data = Returns (Ok version, m'')
       /\ GetVersionID version = Itoa (VersionCount secret + 1)
       /\ forall k, 1 <= k <= VersionCount secret ->
            GetVersionID version <> Itoa k.
Proof.
  intros Hmu Hs Hc Hdel.
  destruct (DeleteSecretVersion_inv _ _ _ _ _ _ Hmu Hs Hdel) as [[v Hv] ->].
  set (secret' := with_versions secret (mdelete (Versions secret) versionID)
                    (VersionCount secret)).
  assert (Hs' : mget (mstore (secrets m) (mkkey projectID secretID) secret')
                  (mkkey projectID secretID) = Some secret').
  { rewrite mget_mstore by (rewrite Hs; eauto). now rewrite decide_True. }
  split; [|split].
  - exists secret'. cbn [secrets]. repeat split; try assumption; try reflexivity.
    + cbn. rewrite mget_mdelete. now rewrite decide_True.
    + intros other Hne. cbn. rewrite mget_mdelete. now rewrite decide_False.
  - intros key Hne. cbn [secrets].
    rewrite mget_mstore by (rewrite Hs; eauto). now rewrite decide_False.
  - destruct (Versions secret) as [g|] eqn:Hg; [|discriminate].
    pose proof (AddSecretVersion_ok env
                  {| mu := Unlocked;
                     secrets := mstore (secrets m) (mkkey projectID secretID) secret' |}
                  projectID secretID data secret' (delete versionID g)
                  eq_refl Hs') as Hadd.
    cbn zeta in Hadd.
    assert (Hw : wrap64 (VersionCount secret' + 1) = VersionCount secret + 1).
    { cbn. apply wrap64_small. unfold MinInt, MaxInt in *. lia. }
    rewrite Hw in Hadd.
    eexists _, _. split; [apply Hadd; reflexivity|].
    rewrite GetVersionID_NewSecretVersion. split; [reflexivity|].
    intros k Hk Heq. apply Itoa_inj in Heq. lia.
Qed.

Lemma DeleteSecretVersion_keeps_counter_witness :
  (exists secret',
     mget (secrets store_two_deleted) (mkkey "p1" "s1") = Some secret'
     /\ VersionCount secret' = VersionCount (secret_of store_two "p1" "s1")
     /\ secret' = with_versions (secret_of store_two "p1" "s1") (Versions secret')
                    (VersionCount (secret_of store_two "p1" "s1"))
     /\ mget (Versions secret') "2" = None
     /\ forall other, other <> "2" ->
          mget (Versions secret') other
          = mget (Versions (secret_of store_two "p1" "s1")) other)
  /\ (forall key, key <> mkkey "p1" "s1" ->
        mget (secrets store_two_deleted) key = mget (secrets store_two) key)
  /\ exists version m'',
       AddSecretVersion env0 store_two_deleted "p1" "s1" (bytes_of_string "new")
         = Returns (Ok version, m'')
       /\ GetVersionID version
          = Itoa (VersionCount (secret_of store_two "p1" "s1") + 1)
       /\ forall k, 1 <= k <= VersionCount (secret_of store_two "p1" "s1") ->
            GetVersionID version <> Itoa k.
Proof.
  apply (DeleteSecretVersion_keeps_counter env0 store_two store_two_deleted
           "p1" "s1" "2" (secret_of store_two "p1" "s1") (bytes_of_string "new")).
  - reflexivity.
  - vm_compute. reflexivity.
  - vm_compute. split; [discriminate | reflexivity].
  - vm_compute. reflexivity.
Defined.

Example add_after_delete_id :
  returned_ids (AddSecretVersions [(env0, bytes_of_string "new")]
                  store_two_deleted "p1" "s1")
  = ["3"].
Proof. vm_compute. reflexivity. Qed.

(** ** C7: creating on a key that is taken *)

(** C7. On every store whose lock is free and on every key that already
    holds a resource, [CreateSecret] returns [ErrSecretExists] and the
    store it leaves is the store it found: the resource stored under the
    key and everything else are as before. *)
Theorem CreateSecret_existing_key
    (m : MemoryStorage) (projectID secretID : string) (secret old : Secret) :
  mu m = Unlocked ->
  mget (secrets m) (mkkey projectID secretID) = Some old ->
  CreateSecret m projectID secretID secret = Returns (Some ErrSecretExists, m).
Proof.
  intros Hmu Hold. unfold CreateSecret.
  rewrite withLock_unlocked by assumption.
  rewrite Hold. cbn. now rewrite unlocked_eta.
Qed.

Lemma CreateSecret_existing_key_witness :
  CreateSecret store_p1s1 "p1" "s1" (NewSecret env1 "p1" "s1" None)
  = Returns (Some ErrSecretExists, store_p1s1).
Proof.
  apply (CreateSecret_existing_key store_p1s1 "p1" "s1" _ (NewSecret env0 "p1" "s1" None)).
  - reflexivity.
  - reflexivity.
Defined.

(** ** C8: paging through the resources of a scope *)

Lemma ltb_compare (s t : string) : String.ltb s t = true <-> String.compare s t = Lt.
Proof. unfold String.ltb. destruct (String.compare s t); intuition congruence. Qed.

#[local] Instance name_le_total : Total name_le.
Proof.
  intros a b. unfold name_le, name_less.
  destruct (String.ltb (Name b) (Name a)) eqn:Hba; [|now left].
  right. apply ltb_compare in Hba.
  destruct (String.ltb (Name a) (Name b)) eqn:Hab; [|reflexivity].
  apply ltb_compare in Hab.
  rewrite String.compare_antisym, Hba in Hab. discriminate.
Qed.

#[local] Instance name_le_trans : Transitive name_le.
Proof.
  intros a b c. unfold name_le, name_less. intros Hab Hbc.
  destruct (String.ltb (Name c) (Name a)) eqn:Hca; [|reflexivity]. exfalso.
  apply ltb_compare in Hca.
  apply not_true_iff_false in Hab, Hbc.
  rewrite ltb_compare in Hab, Hbc.
  destruct (String.compare (Name b) (Name a)) eqn:Hc; [| congruence |].
  - apply String.compare_eq_iff in Hc. rewrite Hc in Hbc. contradiction.
  - assert (Hlt : String.compare (Name a) (Name b) = Lt).
    { rewrite String.compare_antisym, Hc. reflexivity. }
    apply Hbc. apply String_as_OT.cmp_lt.
    eapply String_as_OT.lt_trans; apply String_as_OT.cmp_lt; eassumption.
Qed.

Lemma sortSlice_Permutation {A} (less : A -> A -> bool) (xs : list A) :
  sortSlice less xs ≡ₚ xs.
Proof. unfold sortSlice. apply merge_sort_Permutation. Qed.

Lemma sortSlice_name_sorted (xs : list Secret) :
  StronglySorted name_le (sortSlice name_less xs).
Proof. unfold sortSlice. apply (StronglySorted_merge_sort name_le). Qed.

Lemma NoDup_fmap_inj_on {A B} (f : A -> B) (l : list A) (x y : A) :
  NoDup (f <$> l) -> x ∈ l -> y ∈ l -> f x = f y -> x = y.
Proof.
  induction l as [|a l IH]; intros Hnd Hx Hy Hf; [inversion Hx|].
  rewrite fmap_cons in Hnd. apply NoDup_cons in Hnd as [Hna Hnd].
  apply elem_of_cons in Hx as [->|Hx]; apply elem_of_cons in Hy as [->|Hy].
  - reflexivity.
  - exfalso. apply Hna. rewrite Hf. now apply list_elem_of_fmap_2.
  - exfalso. apply Hna. rewrite <- Hf. now apply list_elem_of_fmap_2.
  - now apply IH.
Qed.

Lemma name_le_antisym (a b : Secret) :
  name_le a b -> name_le b a -> Name a = Name b.
Proof.
  unfold name_le, name_less. intros Hab Hba.
  apply not_true_iff_false in Hab, Hba. rewrite ltb_compare in Hab, Hba.
  destruct (String.compare (Name a) (Name b)) eqn:Hc.
  - now apply String.compare_eq_iff.
  - contradiction.
  - exfalso. apply Hab. rewrite String.compare_antisym, Hc. reflexivity.
Qed.

(** Where names are pairwise distinct, every sorting of the same
    resources by name gives the same list. *)
Lemma sorted_by_name_unique (base l1 l2 : list Secret) :
  NoDup (Name <$> base) ->
  l1 ≡ₚ base -> l2 ≡ₚ base ->
  StronglySorted name_le l1 -> StronglySorted name_le l2 ->
  l1 = l2.
Proof.
  intros Hnd H1 H2 S1 S2.
  apply (StronglySorted_unique_strong name_le); try assumption.
  - intros x1 x2 Hx1 Hx2 Hle Hge.
    apply (NoDup_fmap_inj_on Name base); try assumption.
    + now rewrite <- H1.
    + now rewrite <- H2.
    + now apply name_le_antisym.
  - now rewrite H1, H2.
Qed.

Lemma sorted_strict (l : list Secret) :
  NoDup (Name <$> l) -> StronglySorted name_le l ->
  StronglySorted (fun a b => name_less a b = true) l.
Proof.
  induction 2 as [|a l Hs IH Hall]; [constructor|].
  rewrite fmap_cons in H. apply NoDup_cons in H as [Hna Hnd].
  constructor; [now apply IH|].
  rewrite Forall_forall in Hall |- *. intros b Hb.
  specialize (Hall b Hb).
  destruct (name_less a b) eqn:Hab; [reflexivity|]. exfalso.
  apply Hna. rewrite (name_le_antisym a b Hall Hab).
  now apply list_elem_of_fmap_2.
Qed.

Lemma in_scope_Permutation (projectID : string) (o1 o2 : list (string * Secret)) :
  o1 ≡ₚ o2 -> in_scope projectID o1 ≡ₚ in_scope projectID o2.
Proof. intros H. unfold in_scope. now rewrite H. Qed.

Lemma ListSecrets_unlocked m order projectID pageSize pageToken :
  mu m = Unlocked ->
  ListSecrets m order projectID pageSize pageToken
  = r ← page (sortSlice name_less (in_scope projectID order)) pageSize pageToken;
    mret (r, m).
Proof. intros Hmu. unfold ListSecrets. now rewrite withRLock_unlocked. Qed.

(** C8. Let a scope hold exactly five resources, with pairwise distinct
    names. Three calls of [ListSecrets] with page size 2, the first
    without a token and each next one with the token the previous call
    returned, whatever order the map is ranged over in each call, return
    two, two and one resources and the tokens "2", "4" and "": the
    five resources of the scope, each once, in ascending order of name. *)
Theorem ListSecrets_three_pages
    (m : MemoryStorage) (projectID : string)
    (order1 order2 order3 : list (string * Secret)) :
  mu m = Unlocked ->
  order1 ≡ₚ mentries (secrets m) ->
  order2 ≡ₚ mentries (secrets m) ->
  order3 ≡ₚ mentries (secrets m) ->
  length (in_scope projectID (mentries (secrets m))) = 5%nat ->
  NoDup (Name <$> in_scope projectID (mentries (secrets m))) ->
  exists s1 s2 s3 s4 s5,
    ListSecrets m order1 projectID 2 "" = Returns (([s1; s2], "2"), m)
    /\ ListSecrets m order2 projectID 2 "2" = Returns (([s3; s4], "4"), m)
    /\ ListSecrets m order3 projectID 2 "4" = Returns (([s5], ""), m)
    /\ [s1; s2; s3; s4; s5] ≡ₚ in_scope projectID (mentries (secrets m))
    /\ NoDup [s1; s2; s3; s4; s5]
    /\ StronglySorted (fun a b => name_less a b = true) [s1; s2; s3; s4; s5].
Proof.
  intros Hmu H1 H2 H3 Hlen Hnd.
  set (base := in_scope projectID (mentries (secrets m))) in *.
  set (l1 := sortSlice name_less (in_scope projectID order1)).
  assert (P1 : l1 ≡ₚ base).
  { unfold l1. rewrite sortSlice_Permutation. now apply in_scope_Permutation. }
  assert (E2 : sortSlice name_less (in_scope projectID order2) = l1).
  { apply (sorted_by_name_unique base); try assumption;
      try apply sortSlice_name_sorted.
    rewrite sortSlice_Permutation. now apply in_scope_Permutation. }
  assert (E3 : sortSlice name_less (in_scope projectID order3) = l1).
  { apply (sorted_by_name_unique base); try assumption;
      try apply sortSlice_name_sorted.
    rewrite sortSlice_Permutation. now apply in_scope_Permutation. }
  assert (S1 : StronglySorted name_le l1) by apply sortSlice_name_sorted.
  assert (N1 : NoDup (Name <$> l1)) by now rewrite P1.
  assert (L1 : length l1 = 5%nat) by now rewrite P1.
  rewrite !ListSecrets_unlocked, E2, E3 by assumption. fold l1.
  clearbody l1.
  destruct l1 as [|s1 [|s2 [|s3 [|s4 [|s5 [|s6 l]]]]]]; try discriminate.
  exists s1, s2, s3, s4, s5.
  split; [reflexivity|]. split; [reflexivity|]. split; [reflexivity|].
  split; [assumption|]. split.
  - eapply NoDup_fmap_1. exact N1.
  - now apply sorted_strict.
Qed.

Lemma ListSecrets_three_pages_witness :
  exists s1 s2 s3 s4 s5,
    ListSecrets store_five (mentries (secrets store_five)) "p" 2 ""
      = Returns (([s1; s2], "2"), store_five)
    /\ ListSecrets store_five (reverse (mentries (secrets store_five))) "p" 2 "2"
       = Returns (([s3; s4], "4"), store_five)
    /\ ListSecrets store_five (mentries (secrets store_five)) "p" 2 "4"
       = Returns (([s5], ""), store_five)
    /\ [s1; s2; s3; s4; s5] ≡ₚ in_scope "p" (mentries (secrets store_five))
    /\ NoDup [s1; s2; s3; s4; s5]
    /\ StronglySorted (fun a b => name_less a b = true) [s1; s2; s3; s4; s5].
Proof.
  apply (ListSecrets_three_pages store_five "p").
  - reflexivity.
  - reflexivity.
  - apply reverse_Permutation.
  - reflexivity.
  - vm_compute. reflexivity.
  - apply (bool_decide_unpack _). vm_compute. exact I.
Defined.

Example store_five_pages :
  (fun r => match r with
            | Returns (l, t, _) => (Name <$> l, t)
            | _ => ([], "")
            end)
    <$> [ ListSecrets store_five (mentries (secrets store_five)) "p" 2 "";
          ListSecrets store_five (reverse (mentries (secrets store_five))) "p" 2 "2";
          ListSecrets store_five (mentries (secrets store_five)) "p" 2 "4" ]
  = [ (["projects/p/secrets/a"; "projects/p/secrets/b"], "2");
      (["projects/p/secrets/c"; "projects/p/secrets/d"], "4");
      (["projects/p/secrets/e"], "") ].
Proof. vm_compute. reflexivity. Qed.

(** ** C9: calls that run at the same time *)

Section Interleaving.
Variables projectID secretID : string.

Lemma holders_middle (l1 l2 : list goroutine) (g : goroutine) :
  holders (l1 ++ g :: l2)
  = (holders l1 ++ (if holds_lock g then [g] else []) ++ holders l2)%list.
Proof.
  unfold holders. rewrite filter_app, filter_cons.
  destruct (holds_lock g); case_decide; try congruence; reflexivity.
Qed.

Lemma version_ids_middle (l1 l2 : list goroutine) (g : goroutine) :
  version_ids (l1 ++ g :: l2)
  = (version_ids l1 ++ option_list (returned_id g) ++ version_ids l2)%list.
Proof.
  unfold version_ids. rewrite omap_app. f_equal.
  cbn [omap list_omap]. now destruct (returned_id g).
Qed.

Lemma ids_and_holders (gs : list goroutine) :
  (length (version_ids gs) + length (holders gs) <= length gs)%nat.
Proof.
  induction gs as [|g gs IH]; [reflexivity|].
  change (g :: gs) with (([] : list goroutine) ++ g :: gs)%list.
  rewrite holders_middle, version_ids_middle. cbn [app length].
  rewrite !length_app.
  assert (length (option_list (returned_id g))
          + length (if holds_lock g then [g] else []) <= 1)%nat.
  { unfold returned_id, holds_lock. destruct (g_pc g) as [| | | | |r|[v|e]|]; cbn; lia. }
  change (length (version_ids [])) with 0%nat.
  change (length (holders [])) with 0%nat. lia.
Qed.

Lemma schedule_one_split (i : nat) (m m' : MemoryStorage) (gs gs' : list goroutine) :
  schedule_one projectID secretID i (m, gs) = Some (m', gs') ->
  exists l1 g l2 g',
    gs = (l1 ++ g :: l2)%list /\ gs' = (l1 ++ g' :: l2)%list
    /\ statement projectID secretID m g = Some (m', g').
Proof.
  unfold schedule_one. cbn [fst snd].
  destruct (gs !! i) as [g|] eqn:Hg; cbn [mbind option_bind]; [|discriminate].
  destruct (statement projectID secretID m g) as [[m1 g1]|] eqn:Hs; cbn; [|discriminate].
  intros [= <- <-].
  exists (take i gs), g, (drop (S i) gs), g1.
  split; [now rewrite take_drop_middle|]. split; [|assumption].
  apply lookup_lt_Some in Hg.
  now rewrite insert_take_drop.
Qed.

Lemma singleton_middle {A} (l1 l2 : list A) (x h : A) :
  (l1 ++ x :: l2)%list = [h] -> l1 = [] /\ l2 = [] /\ x = h.
Proof.
  destruct l1 as [|a l1]; cbn; intros H.
  - injection H as -> ->. auto.
  - injection H as _ H. now destruct l1.
Qed.

Lemma id_range_S (c : Z) (k : nat) :
  id_range c (S k) = (id_range c k ++ [Itoa (c + Z.of_nat k + 1)])%list.
Proof.
  unfold id_range. rewrite seq_S, fmap_app. cbn. do 3 f_equal. lia.
Qed.

Lemma id_range_NoDup (c : Z) (k : nat) : NoDup (id_range c k).
Proof.
  unfold id_range. apply NoDup_fmap_2; [|apply NoDup_seq].
  intros i j H. apply Itoa_inj in H. lia.
Qed.

Lemma version_ids_same (l1 l2 : list goroutine) (g g' : goroutine) :
  returned_id g = returned_id g' ->
  version_ids (l1 ++ g :: l2) = version_ids (l1 ++ g' :: l2).
Proof. intros H. now rewrite !version_ids_middle, H. Qed.

Lemma statement_preserves (c : Z) (m m' : MemoryStorage)
    (l1 l2 : list goroutine) (g g' : goroutine) :
  Inv projectID secretID c (m, (l1 ++ g :: l2)%list) ->
  statement projectID secretID m g = Some (m', g') ->
  Inv projectID secretID c (m', (l1 ++ g' :: l2)%list).
Proof.
  intros [Hsec Hids Hsound Hrange] Hst. cbn [fst snd] in *.
  destruct Hsec as (secret & vs & Hs & Hvs & Hlock).
  pose proof (ids_and_holders (l1 ++ g :: l2)) as Hcount.
  pose proof Hids as Hids0. pose proof Hrange as Hrange0.
  apply Forall_app in Hsound as [Hsound1 Hsound2].
  apply Forall_cons in Hsound2 as [Hsoundg Hsound2].
  rewrite holders_middle, version_ids_middle in Hlock, Hcount.
  rewrite version_ids_middle in Hids.
  rewrite !length_app in Hlock, Hids, Hcount, Hrange.
  cbn [length] in Hlock, Hids, Hcount, Hrange.
  destruct g as [env data l]. unfold statement in Hst.
  cbn [g_pc g_env g_data at_pc] in *.
  unfold holds_lock, returned_id in Hlock, Hids, Hcount.
  cbn [g_pc] in Hlock, Hids, Hcount.
  assert (Hkey : is_Some (mget (secrets m) (mkkey projectID secretID))) by (rewrite Hs; eauto).
  destruct l as [| | | |vid|r|r|];
    cbn [option_list option_rect app length] in Hlock, Hids, Hcount.
  - (* m.mu.Lock() *)
    destruct (mu m) eqn:Hmu; cbn in Hst; try discriminate.
    injection Hst as <- <-.
    destruct Hlock as [(Hh & _ & Hc)|(h & _ & Hw & _)]; [|discriminate].
    apply app_eq_nil in Hh as [Hh1 Hh2].
    split; cbn [fst snd set_mu mu secrets].
    + exists secret, vs. split; [assumption|]. split; [assumption|].
      right. exists {| g_env := env; g_data := data; g_pc := AtLookup |}.
      rewrite holders_middle, version_ids_middle, Hh1, Hh2.
      cbn. rewrite length_app. split; [reflexivity|]. split; [reflexivity|]. lia.
    + now rewrite (version_ids_same l1 l2 _ {| g_env := env; g_data := data; g_pc := AtLock |}).
    + apply Forall_app. split; [assumption|]. now constructor.
    + now rewrite length_app in *.
  - (* secret, exists := m.secrets[(mkkey projectID secretID)] *)
    rewrite Hs in Hst. injection Hst as <- <-.
    destruct Hlock as [(Hh & _)|(h & Hh & Hw & Hstage)].
    { symmetry in Hh. now apply app_cons_not_nil in Hh. }
    apply singleton_middle in Hh as (Hh1 & Hh2 & <-). cbn [g_pc stage_ok] in Hstage.
    split; cbn [fst snd].
    + exists secret, vs. split; [assumption|]. split; [assumption|].
      right. exists {| g_env := env; g_data := data; g_pc := AtIncrement |}.
      rewrite holders_middle, version_ids_middle, Hh1, Hh2.
      cbn. rewrite length_app. split; [reflexivity|]. split; [assumption|]. lia.
    + now rewrite (version_ids_same l1 l2 _ {| g_env := env; g_data := data; g_pc := AtLookup |}).
    + apply Forall_app. split; [assumption|]. now constructor.
    + now rewrite length_app in *.
  - (* secret.VersionCount++ *)
    rewrite Hs in Hst. injection Hst as <- <-.
    destruct Hlock as [(Hh & _)|(h & Hh & Hw & Hstage)].
    { symmetry in Hh. now apply app_cons_not_nil in Hh. }
    apply singleton_middle in Hh as (Hh1 & Hh2 & <-). cbn [g_pc stage_ok] in Hstage.
    rewrite Hh1, Hh2 in Hcount. cbn [app] in Hcount.
    rewrite ?length_app in Hcount. cbn [length] in Hcount.
    split; cbn [fst snd mu secrets].
    + exists (with_versions secret (Versions secret) (wrap64 (VersionCount secret + 1))), vs.
      split; [rewrite mget_mstore by assumption; now rewrite decide_True|].
      split; [assumption|].
      right. exists {| g_env := env; g_data := data; g_pc := AtItoa |}.
      rewrite holders_middle, version_ids_middle, Hh1, Hh2.
      cbn. rewrite length_app. split; [reflexivity|]. split; [assumption|].
      rewrite wrap64_small; unfold MinInt, MaxInt in *; lia.
    + now rewrite (version_ids_same l1 l2 _
                     {| g_env := env; g_data := data; g_pc := AtIncrement |}).
    + apply Forall_app. split; [assumption|]. now constructor.
    + now rewrite length_app in *.
  - (* versionID := strconv.Itoa(secret.VersionCount) *)
    rewrite Hs in Hst. injection Hst as <- <-.
    destruct Hlock as [(Hh & _)|(h & Hh & Hw & Hstage)].
    { symmetry in Hh. now apply app_cons_not_nil in Hh. }
    apply singleton_middle in Hh as (Hh1 & Hh2 & <-). cbn [g_pc stage_ok] in Hstage.
    split; cbn [fst snd].
    + exists secret, vs. split; [assumption|]. split; [assumption|].
      right. exists {| g_env := env; g_data := data;
                       g_pc := AtStore (Itoa (VersionCount secret)) |}.
      rewrite holders_middle, version_ids_middle, Hh1, Hh2.
      cbn. rewrite length_app. split; [reflexivity|]. split; [assumption|].
      split; [lia | reflexivity].
    + now rewrite (version_ids_same l1 l2 _ {| g_env := env; g_data := data; g_pc := AtItoa |}).
    + apply Forall_app. split; [assumption|]. now constructor.
    + now rewrite length_app in *.
  - (* secret.Versions[versionID] = version *)
    rewrite Hs, Hvs in Hst. cbn in Hst. injection Hst as <- <-.
    destruct Hlock as [(Hh & _)|(h & Hh & Hw & Hstage)].
    { symmetry in Hh. now apply app_cons_not_nil in Hh. }
    apply singleton_middle in Hh as (Hh1 & Hh2 & <-). cbn [g_pc stage_ok] in Hstage.
    destruct Hstage as [Hc ->].
    split; cbn [fst snd mu secrets].
    + eexists _, _.
      split; [rewrite mget_mstore by assumption; now rewrite decide_True|].
      split; [reflexivity|].
      right. eexists.
      rewrite holders_middle, version_ids_middle, Hh1, Hh2.
      cbn [holds_lock returned_id g_pc at_pc option_list option_rect app length
           stage_ok with_versions VersionCount].
      rewrite length_app. split; [reflexivity|]. split; [assumption|].
      split; [lia|]. apply GetVersionID_NewSecretVersion.
    + now rewrite (version_ids_same l1 l2 _
                     {| g_env := env; g_data := data;
                        g_pc := AtStore (Itoa (VersionCount secret)) |}).
    + apply Forall_app. split; [assumption|]. now constructor.
    + now rewrite length_app in *.
  - (* return, and the deferred m.mu.Unlock() *)
    destruct Hlock as [(Hh & _)|(h & Hh & Hw & Hstage)].
    { symmetry in Hh. now apply app_cons_not_nil in Hh. }
    apply singleton_middle in Hh as (Hh1 & Hh2 & <-). cbn [g_pc stage_ok] in Hstage.
    destruct r as [version|e]; [|contradiction]. destruct Hstage as [Hc Hid].
    rewrite Hw in Hst. cbn in Hst. injection Hst as <- <-.
    split; cbn [fst snd set_mu mu secrets].
    + exists secret, vs. split; [assumption|]. split; [assumption|].
      left. rewrite holders_middle, version_ids_middle, Hh1, Hh2.
      cbn [holds_lock returned_id g_pc at_pc option_list option_rect app length].
      rewrite length_app. cbn [length].
      split; [reflexivity|]. split; [reflexivity|]. lia.
    + rewrite version_ids_middle.
      cbn [returned_id g_pc at_pc option_list option_rect app].
      rewrite length_app. cbn [length].
      rewrite Nat.add_succ_r, id_range_S, Hid, Hc.
      rewrite <- Permutation_middle, <- Permutation_cons_append.
      apply Permutation_skip. exact Hids.
    + apply Forall_app. split; [assumption|]. now constructor.
    + now rewrite length_app in *.
  - discriminate.
  - discriminate.
Qed.

Lemma schedule_one_preserves (c : Z) (i : nat)
    (st st' : MemoryStorage * list goroutine) :
  Inv projectID secretID c st ->
  schedule_one projectID secretID i st = Some st' ->
  Inv projectID secretID c st'.
Proof.
  destruct st as [m gs], st' as [m' gs']. intros HI Hone.
  apply schedule_one_split in Hone as (l1 & g & l2 & g' & -> & -> & Hst).
  eapply statement_preserves; eassumption.
Qed.

Lemma exec_preserves (c : Z) (schedule : list nat) :
  forall st, Inv projectID secretID c st ->
             Inv projectID secretID c (exec projectID secretID schedule st).
Proof.
  induction schedule as [|i rest IH]; intros st HI; [exact HI|].
  cbn [exec]. apply IH.
  destruct (schedule_one projectID secretID i st) as [st'|] eqn:Hone; cbn [default];
    [eapply schedule_one_preserves; eassumption | exact HI].
Qed.

Lemma spawn_no_ids (calls : list (Env * list byte)) : version_ids (spawn calls) = [].
Proof. induction calls as [|call calls IH]; [reflexivity | exact IH]. Qed.

Lemma spawn_no_holders (calls : list (Env * list byte)) : holders (spawn calls) = [].
Proof.
  induction calls as [|call calls IH]; [reflexivity|].
  unfold holders, spawn. rewrite fmap_cons, filter_cons_False; [exact IH|].
  cbn. discriminate.
Qed.

Lemma Inv_spawn (m : MemoryStorage) (secret : Secret) (calls : list (Env * list byte)) :
  mu m = Unlocked ->
  mget (secrets m) (mkkey projectID secretID) = Some secret ->
  is_Some (Versions secret) ->
  0 <= VersionCount secret ->
  VersionCount secret + Z.of_nat (length calls) <= MaxInt ->
  Inv projectID secretID (VersionCount secret) (m, spawn calls).
Proof.
  intros Hmu Hs [vs Hvs] H0 Hmax. split; cbn [fst snd].
  - exists secret, vs. split; [assumption|]. split; [assumption|].
    left. rewrite spawn_no_holders, spawn_no_ids. cbn. repeat split; [assumption | lia].
  - now rewrite spawn_no_ids.
  - unfold spawn. apply Forall_fmap, Forall_forall. intros; exact I.
  - unfold spawn. rewrite length_fmap. now split.
Qed.

(** A goroutine that has not returned is at a statement it can execute,
    unless it waits for a lock that another goroutine holds. *)
Lemma work_middle (l1 l2 : list goroutine) (g : goroutine) :
  work (l1 ++ g :: l2) = (work l1 + remaining g + work l2)%nat.
Proof. unfold work. rewrite sum_list_with_app. cbn. lia. Qed.

Lemma statement_works (m m' : MemoryStorage) (g g' : goroutine) :
  statement projectID secretID m g = Some (m', g') -> (remaining g' < remaining g)%nat.
Proof.
  unfold statement, remaining. destruct g as [env data l]; cbn [g_pc g_env g_data].
  destruct l; intros H;
    repeat match type of H with
           | match ?x with _ => _ end = Some _ => destruct x; try discriminate
           end;
    try discriminate; injection H as <- <-; cbn; lia.
Qed.

Lemma schedule_one_works (i : nat) (st st' : MemoryStorage * list goroutine) :
  schedule_one projectID secretID i st = Some st' -> (work st'.2 < work st.2)%nat.
Proof.
  destruct st as [m gs], st' as [m' gs']. intros Hone.
  apply schedule_one_split in Hone as (l1 & g & l2 & g' & -> & -> & Hst).
  apply statement_works in Hst. cbn [snd]. rewrite !work_middle. lia.
Qed.

Lemma returned_or_waiting (gs : list goroutine) :
  Forall (fun g => sound_pc (g_pc g)) gs ->
  holders gs = [] ->
  Forall has_returned gs \/ exists i g, gs !! i = Some g /\ g_pc g = AtLock.
Proof.
  induction gs as [|g gs IH]; intros Hsound Hh; [left; constructor|].
  apply Forall_cons in Hsound as [Hg Hsound].
  change (g :: gs) with (([] : list goroutine) ++ g :: gs)%list in Hh.
  rewrite holders_middle in Hh. cbn [app] in Hh.
  change (holders []) with ([] : list goroutine) in Hh. cbn [app] in Hh.
  destruct (g_pc g) as [| | | |vid|r|[v|e]|] eqn:Hpc;
    unfold holds_lock in Hh; rewrite Hpc in Hh; cbn in Hg; try discriminate;
    try contradiction.
  - right. exists 0%nat, g. now split.
  - destruct (IH Hsound Hh) as [Hall|(i & g0 & Hi & Hw)].
    + left. constructor; [now exists (Ok v) | assumption].
    + right. exists (S i), g0. now split.
Qed.

Lemma Inv_progress (c : Z) (st : MemoryStorage * list goroutine) :
  Inv projectID secretID c st ->
  all_returned st \/ exists i st', schedule_one projectID secretID i st = Some st'.
Proof.
  destruct st as [m gs]. intros [Hsec _ Hsound _]. cbn [fst snd] in *.
  destruct Hsec as (secret & vs & Hs & Hvs & [(Hh & Hmu & _)|(h & Hh & Hmu & Hstage)]).
  - destruct (returned_or_waiting gs Hsound Hh) as [Hall|(i & g & Hi & Hw)];
      [now left|].
    right. exists i. unfold schedule_one, statement. cbn [fst snd].
    rewrite Hi. cbn [mbind option_bind]. rewrite Hw, Hmu. cbn. eauto.
  - right.
    assert (Hin : h ∈ gs).
    { apply (list_elem_of_filter (fun g => holds_lock g = true) gs h).
      fold (holders gs). rewrite Hh. apply list_elem_of_here. }
    apply list_elem_of_lookup in Hin as [i Hi]. exists i.
    unfold schedule_one, statement. cbn [fst snd].
    rewrite Hi. cbn [mbind option_bind].
    destruct (g_pc h) as [| | | |vid|[v|e]|r|]; cbn [stage_ok] in Hstage;
      try contradiction; rewrite ?Hs, ?Hvs, ?Hmu; cbn; eauto.
Qed.

Lemma Inv_completes (c : Z) (n : nat) :
  forall st, (work st.2 <= n)%nat -> Inv projectID secretID c st ->
             exists more, all_returned (exec projectID secretID more st).
Proof.
  induction n as [|n IH]; intros st Hn HI;
    destruct (Inv_progress c st HI) as [Hall|(i & st' & Hone)];
    try (now exists []).
  - apply schedule_one_works in Hone. lia.
  - pose proof (schedule_one_works _ _ _ Hone) as Hless.
    destruct (IH st') as [more Hmore]; [lia | eapply schedule_one_preserves; eassumption|].
    exists (i :: more). cbn [exec]. now rewrite Hone.
Qed.

Lemma all_returned_ids (gs : list goroutine) :
  Forall (fun g => sound_pc (g_pc g)) gs -> Forall has_returned gs ->
  length (version_ids gs) = length gs.
Proof.
  induction gs as [|g gs IH]; intros Hsound Hall; [reflexivity|].
  apply Forall_cons in Hsound as [Hg Hsound].
  apply Forall_cons in Hall as [[r Hr] Hall].
  change (g :: gs) with (([] : list goroutine) ++ g :: gs)%list.
  rewrite version_ids_middle. unfold returned_id at 1.
  rewrite Hr in *. destruct r as [v|e]; [|contradiction].
  cbn. f_equal. now apply IH.
Qed.

Lemma exec_app (s1 s2 : list nat) (st : MemoryStorage * list goroutine) :
  exec projectID secretID (s1 ++ s2) st
  = exec projectID secretID s2 (exec projectID secretID s1 st).
Proof.
  revert st. induction s1 as [|i s1 IH]; intros st; [reflexivity|].
  cbn [app exec]. apply IH.
Qed.

Lemma exec_length (schedule : list nat) :
  forall st, length (exec projectID secretID schedule st).2 = length st.2.
Proof.
  induction schedule as [|i rest IH]; intros st; [reflexivity|].
  cbn [exec]. rewrite IH.
  destruct (schedule_one projectID secretID i st) as [[m' gs']|] eqn:Hone; [|reflexivity].
  destruct st as [m gs].
  apply schedule_one_split in Hone as (l1 & g & l2 & g' & -> & -> & _).
  cbn. now rewrite !length_app.
Qed.

End Interleaving.

(** C9. Let M goroutines call [AddSecretVersion] on one resource at the
    same time, on a store whose lock is free. Under every schedule of
    their statements: once all calls have returned, the ids of the
    versions they return are, in some order, counter+1, ..., counter+M,
    each exactly once; and from wherever the schedule has brought them,
    the calls can all run to their return. *)
Theorem concurrent_AddSecretVersion_ids
    (m : MemoryStorage) (projectID secretID : string) (secret : Secret)
    (calls : list (Env * list byte)) (schedule : list nat) :
  mu m = Unlocked ->
  mget (secrets m) (mkkey projectID secretID) = Some secret ->
  is_Some (Versions secret) ->
  0 <= VersionCount secret ->
  VersionCount secret + Z.of_nat (length calls) <= MaxInt ->
  let st := exec projectID secretID schedule (m, spawn calls) in
  (all_returned st ->
     version_ids st.2 ≡ₚ id_range (VersionCount secret) (length calls)
     /\ NoDup (version_ids st.2))
  /\ exists more,
       all_returned (exec projectID secretID (schedule ++ more) (m, spawn calls)).
Proof.
  intros Hmu Hs Hvs H0 Hmax st.
  assert (HI : Inv projectID secretID (VersionCount secret) st).
  { apply exec_preserves. now apply Inv_spawn. }
  split.
  - intros Hall.
    assert (Hlen : length (version_ids st.2) = length calls).
    { rewrite all_returned_ids; [|apply HI|exact Hall].
      unfold st. rewrite exec_length. cbn [snd]. unfold spawn. apply length_fmap. }
    pose proof (inv_ids _ _ _ _ HI) as Hids. rewrite Hlen in Hids.
    split; [exact Hids|]. rewrite Hids. apply id_range_NoDup.
  - destruct (Inv_completes projectID secretID _ (work st.2) st (le_n _) HI)
      as [more Hmore].
    exists more. now rewrite exec_app.
Qed.

Lemma exec_cons_some (projectID secretID : string) (i : nat) (rest : list nat)
    (st st' : MemoryStorage * list goroutine) :
  schedule_one projectID secretID i st = Some st' ->
  exec projectID secretID (i :: rest) st = exec projectID secretID rest st'.
Proof. intros H. cbn [exec]. now rewrite H. Qed.

Lemma schedule_one_single (projectID secretID : string)
    (m m' : MemoryStorage) (g g' : goroutine) :
  statement projectID secretID m g = Some (m', g') ->
  schedule_one projectID secretID 0 (m, [g]) = Some (m', [g']).
Proof. intros H. unfold schedule_one. cbn. now rewrite H. Qed.

(** One goroutine on its own does what the call does. *)
Ltac one_statement :=
  cbn [g_pc at_pc set_mu mu secrets g_env g_data].

Lemma single_goroutine_is_AddSecretVersion
    (env : Env) (m : MemoryStorage) (projectID secretID : string) (data : list byte) :
  mu m = Unlocked ->
  forall r m',
    AddSecretVersion env m projectID secretID data = Returns (r, m') ->
    exec projectID secretID (replicate 6 0%nat) (m, spawn [(env, data)])
    = (m', [ {| g_env := env; g_data := data; g_pc := Returned r |} ]).
Proof.
  intros Hmu r m'. unfold AddSecretVersion.
  rewrite withLock_unlocked by assumption.
  destruct m as [l sec]. cbn [mu secrets] in *. subst l.
  cbn [replicate spawn fmap list_fmap fst snd]. intros Hadd.
  erewrite exec_cons_some; [|apply schedule_one_single; reflexivity].
  destruct (mget sec (mkkey projectID secretID)) as [secret|] eqn:Hs.
  - assert (Hsome : is_Some (mget sec (mkkey projectID secretID)))
      by (rewrite Hs; eauto).
    destruct (Versions secret) as [vs|] eqn:Hvs; cbn in Hadd; [|discriminate].
    injection Hadd as <- <-.
    erewrite exec_cons_some;
      [|apply schedule_one_single; unfold statement; one_statement;
        rewrite Hs; reflexivity].
    erewrite exec_cons_some;
      [|apply schedule_one_single; unfold statement; one_statement;
        rewrite Hs; reflexivity].
    erewrite exec_cons_some;
      [|apply schedule_one_single; unfold statement; one_statement;
        rewrite mget_mstore, decide_True by (assumption || reflexivity);
        reflexivity].
    erewrite exec_cons_some;
      [|apply schedule_one_single; unfold statement; one_statement;
        rewrite mget_mstore, decide_True by (assumption || reflexivity);
        cbn [with_versions Versions VersionCount]; rewrite Hvs; reflexivity].
    erewrite exec_cons_some; [|apply schedule_one_single; reflexivity].
    cbn [exec set_mu at_pc g_env g_data mu secrets]. do 2 f_equal.
    destruct sec as [g|]; [|discriminate]. cbn [mstore].
    rewrite insert_insert_eq. now destruct secret.
  - cbn in Hadd. injection Hadd as <- <-.
    erewrite exec_cons_some;
      [|apply schedule_one_single; unfold statement; one_statement;
        rewrite Hs; reflexivity].
    erewrite exec_cons_some; [|apply schedule_one_single; reflexivity].
    reflexivity.
Qed.

Lemma concurrent_AddSecretVersion_ids_witness :
  let st := exec "p1" "s1" schedule_three (store_p1s1, spawn three_calls) in
  (all_returned st ->
     version_ids st.2
       ≡ₚ id_range (VersionCount (NewSecret env0 "p1" "s1" None)) (length three_calls)
     /\ NoDup (version_ids st.2))
  /\ exists more,
       all_returned (exec "p1" "s1" (schedule_three ++ more)
                       (store_p1s1, spawn three_calls)).
Proof.
  apply (concurrent_AddSecretVersion_ids store_p1s1 "p1" "s1"
           (NewSecret env0 "p1" "s1" None) three_calls schedule_three).
  - reflexivity.
  - reflexivity.
  - cbn. eauto.
  - reflexivity.
  - vm_compute. discriminate.
Defined.

Example schedule_three_ids :
  version_ids (exec "p1" "s1" schedule_three (store_p1s1, spawn three_calls)).2
  = ["3"; "1"; "2"].
Proof. vm_compute. reflexivity. Qed.

Example schedule_three_returns :
  all_returned (exec "p1" "s1" schedule_three (store_p1s1, spawn three_calls)).
Proof.
  unfold all_returned. vm_compute.
  repeat constructor; eexists; reflexivity.
Qed.

(** ** C10: the state of a version *)

Lemma read_only_state {A} (r : result A) (m m' : MemoryStorage) :
  snd <$> (a ← r; mret (a, m)) = Returns m' -> m' = m.
Proof. destruct r; cbn; congruence. Qed.

Lemma stored_mstore (m : MemoryStorage) (key : string) (secret secret' : Secret)
    (key' vid : string) (v : SecretVersion) :
  mget (secrets m) key = Some secret ->
  stored {| mu := Unlocked; secrets := mstore (secrets m) key secret' |} key' vid v ->
  (key' = key /\ mget (Versions secret') vid = Some v) \/ stored m key' vid v.
Proof.
  intros Hs (s0 & Hs0 & Hv). cbn [secrets] in Hs0.
  rewrite mget_mstore in Hs0 by (rewrite Hs; eauto).
  case_decide as Hk.
  - injection Hs0 as <-. left. now split.
  - right. now exists s0.
Qed.

(** Every version that a call leaves in the store was there before the
    call, unchanged, or is the enabled version the call made, or came
    inside the resource handed to [CreateSecret]. *)
Lemma run_keeps_versions (op : Op) (m m' : MemoryStorage)
    (key vid : string) (v : SecretVersion) :
  mu m = Unlocked ->
  run op m = Returns m' ->
  stored m' key vid v ->
  stored m key vid v \/ State v = StateEnabled \/ handed_in op key vid v.
Proof.
  intros Hmu Hrun Hst.
  destruct op as [p s secret|p s|order p size token|p s|env p s data|p s ver
                 |order p s size token|p s ver|p s ver]; cbn [run] in Hrun.
  - (* CreateSecret *)
    unfold CreateSecret in Hrun. rewrite withLock_unlocked in Hrun by assumption.
    destruct (mget (secrets m) (mkkey p s)) as [old|] eqn:Hold; cbn in Hrun.
    + injection Hrun as <-. rewrite unlocked_eta in Hst by assumption. now left.
    + destruct (secrets m) as [g|] eqn:Hg; cbn in Hrun; [|discriminate].
      injection Hrun as <-. destruct Hst as (s0 & Hs0 & Hv). cbn in Hs0.
      rewrite lookup_insert in Hs0. case_decide as Hk.
      * injection Hs0 as <-. right. right. cbn. now split.
      * left. exists s0. rewrite Hg. now split.
  - unfold GetSecret in Hrun. rewrite withRLock_unlocked in Hrun by assumption.
    apply read_only_state in Hrun as ->. now left.
  - unfold ListSecrets in Hrun. rewrite withRLock_unlocked in Hrun by assumption.
    apply read_only_state in Hrun as ->. now left.
  - (* DeleteSecret *)
    unfold DeleteSecret in Hrun. rewrite withLock_unlocked in Hrun by assumption.
    destruct (mget (secrets m) (mkkey p s)) as [old|] eqn:Hold; cbn in Hrun.
    + injection Hrun as <-. destruct Hst as (s0 & Hs0 & Hv). cbn in Hs0.
      rewrite mget_mdelete in Hs0. case_decide; [discriminate|].
      left. now exists s0.
    + injection Hrun as <-. rewrite unlocked_eta in Hst by assumption. now left.
  - (* AddSecretVersion *)
    unfold AddSecretVersion in Hrun. rewrite withLock_unlocked in Hrun by assumption.
    destruct (mget (secrets m) (mkkey p s)) as [secret|] eqn:Hs; cbn in Hrun.
    + destruct (Versions secret) as [g|] eqn:Hg; cbn in Hrun; [|discriminate].
      injection Hrun as <-.
      apply (stored_mstore m _ secret) in Hst; [|assumption].
      destruct Hst as [[-> Hv]|Hst]; [|now left].
      cbn in Hv. rewrite lookup_insert in Hv. case_decide.
      * injection Hv as <-. right. now left.
      * left. exists secret. rewrite Hg. now split.
    + injection Hrun as <-. rewrite unlocked_eta in Hst by assumption. now left.
  - unfold GetSecretVersion in Hrun. rewrite withRLock_unlocked in Hrun by assumption.
    apply read_only_state in Hrun as ->. now left.
  - unfold ListSecretVersions in Hrun. rewrite withRLock_unlocked in Hrun by assumption.
    apply read_only_state in Hrun as ->. now left.
  - (* DeleteSecretVersion *)
    unfold DeleteSecretVersion in Hrun. rewrite withLock_unlocked in Hrun by assumption.
    destruct (mget (secrets m) (mkkey p s)) as [secret|] eqn:Hs; cbn in Hrun.
    + destruct (mget (Versions secret) ver) as [old|] eqn:Hold; cbn in Hrun.
      * injection Hrun as <-.
        apply (stored_mstore m _ secret) in Hst; [|assumption].
        destruct Hst as [[-> Hv]|Hst]; [|now left].
        cbn in Hv. rewrite mget_mdelete in Hv. case_decide; [discriminate|].
        left. now exists secret.
      * injection Hrun as <-. rewrite unlocked_eta in Hst by assumption. now left.
    + injection Hrun as <-. rewrite unlocked_eta in Hst by assumption. now left.
  - (* AccessSecretVersion *)
    unfold AccessSecretVersion, GetSecretVersion in Hrun.
    rewrite withRLock_unlocked in Hrun by assumption.
    destruct (mget (secrets m) (mkkey p s)) as [secret|]; cbn in Hrun.
    2:{ injection Hrun as <-. now left. }
    destruct (if String.eqb ver "latest" then _ else _) as [vid'|]; cbn in Hrun.
    2:{ injection Hrun as <-. now left. }
    destruct (mget (Versions secret) vid'); cbn in Hrun;
      injection Hrun as <-; now left.
Qed.

Lemma run_keeps_unlocked (op : Op) (m m' : MemoryStorage) :
  mu m = Unlocked -> run op m = Returns m' -> mu m' = Unlocked.
Proof.
  intros Hmu Hrun.
  destruct op; cbn [run] in Hrun;
    unfold CreateSecret, GetSecret, ListSecrets, DeleteSecret, AddSecretVersion,
      GetSecretVersion, ListSecretVersions, DeleteSecretVersion,
      AccessSecretVersion, GetSecretVersion in Hrun;
    rewrite ?withLock_unlocked, ?withRLock_unlocked in Hrun by assumption;
    try (apply read_only_state in Hrun as ->; assumption).
  - destruct (mget _ _); cbn in Hrun; [now injection Hrun as <-|].
    destruct (secrets m); cbn in Hrun; [|discriminate]. now injection Hrun as <-.
  - destruct (mget _ _); cbn in Hrun; now injection Hrun as <-.
  - destruct (mget _ _) as [secret|]; cbn in Hrun; [|now injection Hrun as <-].
    destruct (Versions secret); cbn in Hrun; [|discriminate].
    now injection Hrun as <-.
  - destruct (mget _ _) as [secret|]; cbn in Hrun; [|now injection Hrun as <-].
    destruct (mget (Versions secret) _); cbn in Hrun; now injection Hrun as <-.
  - destruct (mget _ _) as [secret|]; cbn in Hrun; [|now injection Hrun as <-].
    destruct (if String.eqb _ _ then _ else _) as [vid'|]; cbn in Hrun;
      [|now injection Hrun as <-].
    destruct (mget (Versions secret) vid'); cbn in Hrun; now injection Hrun as <-.
Qed.

(** C10. [NewSecretVersion] makes every version ENABLED. After any call
    of the interface that returns, a version found in the store is one
    that was there before, as it was, or the ENABLED one the call has
    made, or one that came inside the resource given to [CreateSecret]:
    no call sets a state. And [GetSecretVersion] and
    [AccessSecretVersion] return every stored version and its payload
    under its id, whatever its state is. *)
Theorem versions_enabled_and_readable (op : Op) (m m' : MemoryStorage) :
  mu m = Unlocked ->
  run op m = Returns m' ->
  (forall env projectID secretID versionID data,
     State (NewSecretVersion env projectID secretID versionID data) = StateEnabled)
  /\ (forall key vid v,
        stored m' key vid v ->
        stored m key vid v \/ State v = StateEnabled \/ handed_in op key vid v)
  /\ (forall projectID secretID versionID v,
        versionID <> "latest" ->
        stored m' (mkkey projectID secretID) versionID v ->
        GetSecretVersion m' projectID secretID versionID = Returns (Ok v, m')
        /\ AccessSecretVersion m' projectID secretID versionID
           = Returns (Ok (Data v), m')).
Proof.
  intros Hmu Hrun. split; [reflexivity|]. split.
  - intros key vid v. now apply run_keeps_versions.
  - intros p s ver v Hl (secret & Hs & Hv).
    pose proof (run_keeps_unlocked op m m' Hmu Hrun) as Hmu'.
    assert (Hget : GetSecretVersion m' p s ver = Returns (Ok v, m')).
    { rewrite (GetSecretVersion_by_id _ _ _ _ secret) by assumption.
      now rewrite Hv. }
    split; [assumption|].
    unfold AccessSecretVersion. now rewrite Hget.
Qed.

Lemma versions_enabled_and_readable_witness :
  (forall env projectID secretID versionID data,
     State (NewSecretVersion env projectID secretID versionID data) = StateEnabled)
  /\ (forall key vid v,
        stored store_disabled_added key vid v ->
        stored store_disabled key vid v \/ State v = StateEnabled
        \/ handed_in (OpAddSecretVersion env1 "p1" "s1" (bytes_of_string "xyz"))
             key vid v)
  /\ (forall projectID secretID versionID v,
        versionID <> "latest" ->
        stored store_disabled_added (mkkey projectID secretID) versionID v ->
        GetSecretVersion store_disabled_added projectID secretID versionID
          = Returns (Ok v, store_disabled_added)
        /\ AccessSecretVersion store_disabled_added projectID secretID versionID
           = Returns (Ok (Data v), store_disabled_added)).
Proof.
  apply (versions_enabled_and_readable
           (OpAddSecretVersion env1 "p1" "s1" (bytes_of_string "xyz"))
           store_disabled store_disabled_added).
  - reflexivity.
  - vm_compute. reflexivity.
Defined.

Example disabled_version_is_read :
  AccessSecretVersion store_disabled_added "p1" "s1" "1"
  = Returns (Ok (bytes_of_string "abc"), store_disabled_added).
Proof. vm_compute. reflexivity. Qed.

(** * Further properties of the store *)

(** ** Resources: create, read, delete *)

Lemma Itoa_not_latest (z : Z) : Itoa z <> "latest".
Proof.
  unfold Itoa. intros H.
  pose proof (NilEmpty.isi (Z.to_int z)) as Hi. rewrite H in Hi.
  vm_compute in Hi. discriminate.
Qed.

(** X1. On a free key [CreateSecret] succeeds; [GetSecret] then returns
    the resource that was given, and every other key leads where it led
    before. *)
Theorem CreateSecret_then_GetSecret
    (m : MemoryStorage) (projectID secretID : string) (secret : Secret) :
  mu m = Unlocked ->
  is_Some (secrets m) ->
  mget (secrets m) (mkkey projectID secretID) = None ->
  exists m',
    CreateSecret m projectID secretID secret = Returns (None, m')
    /\ GetSecret m' projectID secretID = Returns (Ok secret, m')
    /\ forall key, key <> mkkey projectID secretID ->
         mget (secrets m') key = mget (secrets m) key.
Proof.
  intros Hmu [g Hg] Hfree. unfold CreateSecret.
  rewrite withLock_unlocked by assumption. rewrite Hfree, Hg. cbn.
  eexists. split; [reflexivity|]. split.
  - unfold GetSecret. rewrite withRLock_unlocked by reflexivity.
    cbn. now rewrite lookup_insert_eq.
  - intros key Hne. cbn. now apply lookup_insert_ne.
Qed.

Lemma CreateSecret_then_GetSecret_witness :
  exists m',
    CreateSecret store_p1s1 "p1" "s2" (NewSecret env1 "p1" "s2" None)
      = Returns (None, m')
    /\ GetSecret m' "p1" "s2" = Returns (Ok (NewSecret env1 "p1" "s2" None), m')
    /\ forall key, key <> mkkey "p1" "s2" ->
         mget (secrets m') key = mget (secrets store_p1s1) key.
Proof.
  apply (CreateSecret_then_GetSecret store_p1s1 "p1" "s2").
  - reflexivity.
  - cbn. eauto.
  - reflexivity.
Defined.

(** X2. On a key that holds no resource, every operation that names a
    resource fails with [ErrSecretNotFound] and leaves the store as it
    found it. *)
Theorem missing_resource
    (env : Env) (m : MemoryStorage) (projectID secretID versionID : string)
    (data : list byte) (order : list (string * SecretVersion))
    (pageSize : Z) (pageToken : string) :
  mu m = Unlocked ->
  mget (secrets m) (mkkey projectID secretID) = None ->
  GetSecret m projectID secretID = Returns (Err ErrSecretNotFound, m)
  /\ DeleteSecret m projectID secretID = Returns (Some ErrSecretNotFound, m)
  /\ AddSecretVersion env m projectID secretID data
     = Returns (Err ErrSecretNotFound, m)
  /\ GetSecretVersion m projectID secretID versionID
     = Returns (Err ErrSecretNotFound, m)
  /\ ListSecretVersions m order projectID secretID pageSize pageToken
     = Returns (Err ErrSecretNotFound, m)
  /\ DeleteSecretVersion m projectID secretID versionID
     = Returns (Some ErrSecretNotFound, m)
  /\ AccessSecretVersion m projectID secretID versionID
     = Returns (Err ErrSecretNotFound, m).
Proof.
  intros Hmu Hnone.
  assert (Hget : GetSecretVersion m projectID secretID versionID
                 = Returns (Err ErrSecretNotFound, m)).
  { unfold GetSecretVersion. rewrite withRLock_unlocked by assumption.
    now rewrite Hnone. }
  repeat split; try assumption;
    unfold GetSecret, DeleteSecret, AddSecretVersion, ListSecretVersions,
      DeleteSecretVersion, AccessSecretVersion;
    rewrite ?Hget, ?withLock_unlocked, ?withRLock_unlocked by assumption;
    rewrite ?Hnone; cbn; rewrite ?unlocked_eta by assumption; reflexivity.
Qed.

Lemma missing_resource_witness :
  GetSecret store_p1s1 "p1" "nope" = Returns (Err ErrSecretNotFound, store_p1s1)
  /\ DeleteSecret store_p1s1 "p1" "nope"
     = Returns (Some ErrSecretNotFound, store_p1s1)
  /\ AddSecretVersion env0 store_p1s1 "p1" "nope" (bytes_of_string "abc")
     = Returns (Err ErrSecretNotFound, store_p1s1)
  /\ GetSecretVersion store_p1s1 "p1" "nope" "latest"
     = Returns (Err ErrSecretNotFound, store_p1s1)
  /\ ListSecretVersions store_p1s1 [] "p1" "nope" 10 ""
     = Returns (Err ErrSecretNotFound, store_p1s1)
  /\ DeleteSecretVersion store_p1s1 "p1" "nope" "latest"
     = Returns (Some ErrSecretNotFound, store_p1s1)
  /\ AccessSecretVersion store_p1s1 "p1" "nope" "latest"
     = Returns (Err ErrSecretNotFound, store_p1s1).
Proof.
  apply (missing_resource env0 store_p1s1 "p1" "nope" "latest").
  - reflexivity.
  - reflexivity.
Defined.

(** X3. [DeleteSecret] on a resource forgets it whole, counter and
    versions included, and touches no other key: a resource created
    anew under the same key hands out the id "1" again. *)
Theorem DeleteSecret_forgets_counter
    (env env' : Env) (m : MemoryStorage) (projectID secretID : string)
    (old : Secret) (labels : gomap string) (data : list byte) :
  mu m = Unlocked ->
  mget (secrets m) (mkkey projectID secretID) = Some old ->
  exists m1 m2 m3 version,
    DeleteSecret m projectID secretID = Returns (None, m1)
    /\ mget (secrets m1) (mkkey projectID secretID) = None
    /\ (forall key, key <> mkkey projectID secretID ->
          mget (secrets m1) key = mget (secrets m) key)
    /\ CreateSecret m1 projectID secretID (NewSecret env projectID secretID labels)
       = Returns (None, m2)
    /\ AddSecretVersion env' m2 projectID secretID data = Returns (Ok version, m3)
    /\ GetVersionID version = "1".
Proof.
  intros Hmu Hold.
  destruct (secrets m) as [g|] eqn:Hg; [|discriminate]. cbn [mget] in Hold.
  unfold DeleteSecret. rewrite withLock_unlocked by assumption.
  rewrite Hg. cbn [mget]. rewrite Hold. cbn.
  eexists _, _, _, _. split; [reflexivity|]. cbn [secrets mget].
  split; [apply lookup_delete_eq|].
  split; [intros key Hne; now apply lookup_delete_ne|].
  split.
  - unfold CreateSecret. rewrite withLock_unlocked by reflexivity.
    cbn [secrets mget]. rewrite lookup_delete_eq. reflexivity.
  - split.
    + apply (AddSecretVersion_ok env' _ projectID secretID data
               (NewSecret env projectID secretID labels) ∅);
        [reflexivity| |reflexivity].
      cbn [secrets mget]. apply lookup_insert_eq.
    + change (wrap64 (VersionCount (NewSecret env projectID secretID labels) + 1))
        with 1.
      apply GetVersionID_NewSecretVersion.
Qed.

Lemma DeleteSecret_forgets_counter_witness :
  exists m1 m2 m3 version,
    DeleteSecret store_two "p1" "s1" = Returns (None, m1)
    /\ mget (secrets m1) (mkkey "p1" "s1") = None
    /\ (forall key, key <> mkkey "p1" "s1" ->
          mget (secrets m1) key = mget (secrets store_two) key)
    /\ CreateSecret m1 "p1" "s1" (NewSecret env0 "p1" "s1" None) = Returns (None, m2)
    /\ AddSecretVersion env1 m2 "p1" "s1" (bytes_of_string "again")
       = Returns (Ok version, m3)
    /\ GetVersionID version = "1".
Proof.
  apply (DeleteSecret_forgets_counter env0 env1 store_two "p1" "s1"
           (secret_of store_two "p1" "s1")).
  - reflexivity.
  - vm_compute. reflexivity.
Defined.

(** ** Versions: add, read, delete *)

(** X4. A version that [AddSecretVersion] returns can be read back at
    once under its own id: [GetSecretVersion] returns that version,
    [AccessSecretVersion] the payload that was given, and the version
    is ENABLED and carries the checksum of that payload. *)
Theorem AddSecretVersion_then_read
    (env : Env) (m : MemoryStorage) (projectID secretID : string)
    (secret : Secret) (data : list byte) :
  mu m = Unlocked ->
  mget (secrets m) (mkkey projectID secretID) = Some secret ->
  is_Some (Versions secret) ->
  exists version m',
    AddSecretVersion env m projectID secretID data = Returns (Ok version, m')
    /\ GetSecretVersion m' projectID secretID (GetVersionID version)
       = Returns (Ok version, m')
    /\ AccessSecretVersion m' projectID secretID (GetVersionID version)
       = Returns (Ok data, m')
    /\ Data version = data
    /\ State version = StateEnabled
    /\ Checksum version = Some (generateChecksum data).
Proof.
  intros Hmu Hs [g Hg].
  pose proof (AddSecretVersion_ok env m projectID secretID data secret g Hmu Hs Hg)
    as Hadd. cbn zeta in Hadd.
  set (count := wrap64 (VersionCount secret + 1)) in *.
  set (version := NewSecretVersion env projectID secretID (Itoa count) data) in *.
  assert (Hid : GetVersionID version = Itoa count)
    by apply GetVersionID_NewSecretVersion.
  eexists version, _. split; [exact Hadd|].
  assert (Hget : GetSecretVersion
                   {| mu := Unlocked;
                      secrets := mstore (secrets m) (mkkey projectID secretID)
                                   (with_versions secret
                                      (Some (<[Itoa count := version]> g)) count) |}
                   projectID secretID (GetVersionID version)
                 = Returns (Ok version,
                   {| mu := Unlocked;
                      secrets := mstore (secrets m) (mkkey projectID secretID)
                                   (with_versions secret
                                      (Some (<[Itoa count := version]> g)) count) |})).
  { rewrite Hid.
    erewrite GetSecretVersion_by_id;
      [|reflexivity|apply Itoa_not_latest
       |cbn [secrets]; rewrite mget_mstore by (rewrite Hs; eauto);
        now rewrite decide_True].
    cbn [Versions with_versions mget]. now rewrite lookup_insert_eq. }
  split; [exact Hget|].
  split; [unfold AccessSecretVersion; now rewrite Hget|].
  repeat split; reflexivity.
Qed.

Lemma AddSecretVersion_then_read_witness :
  exists version m',
    AddSecretVersion env1 store_two "p1" "s1" (bytes_of_string "new")
      = Returns (Ok version, m')
    /\ GetSecretVersion m' "p1" "s1" (GetVersionID version) = Returns (Ok version, m')
    /\ AccessSecretVersion m' "p1" "s1" (GetVersionID version)
       = Returns (Ok (bytes_of_string "new"), m')
    /\ Data version = bytes_of_string "new"
    /\ State version = StateEnabled
    /\ Checksum version = Some (generateChecksum (bytes_of_string "new")).
Proof.
  apply (AddSecretVersion_then_read env1 store_two "p1" "s1"
           (secret_of store_two "p1" "s1")).
  - reflexivity.
  - vm_compute. reflexivity.
  - vm_compute. eauto.
Defined.

(** X5. [AddSecretVersion] changes nothing but the counter of its
    resource and the entry under the new id: the other fields of the
    resource, its other versions and all other resources are as before. *)
Theorem AddSecretVersion_frame
    (env : Env) (m m' : MemoryStorage) (projectID secretID : string)
    (secret : Secret) (data : list byte) (version : SecretVersion) :
  mu m = Unlocked ->
  mget (secrets m) (mkkey projectID secretID) = Some secret ->
  AddSecretVersion env m projectID secretID data = Returns (Ok version, m') ->
  exists secret',
    mget (secrets m') (mkkey projectID secretID) = Some secret'
    /\ secret' = with_versions secret (Versions secret') (VersionCount secret')
    /\ VersionCount secret' = wrap64 (VersionCount secret + 1)
    /\ (forall other, other <> GetVersionID version ->
          mget (Versions secret') other = mget (Versions secret) other)
    /\ (forall key, key <> mkkey projectID secretID ->
          mget (secrets m') key = mget (secrets m) key).
Proof.
  intros Hmu Hs Hadd.
  destruct (Versions secret) as [g|] eqn:Hg.
  - rewrite (AddSecretVersion_ok env m projectID secretID data secret g Hmu Hs Hg)
      in Hadd.
    injection Hadd as <- <-. eexists. cbn [secrets].
    split; [rewrite mget_mstore by (rewrite Hs; eauto); now rewrite decide_True|].
    split; [reflexivity|]. split; [reflexivity|]. split.
    + intros other Hne. rewrite GetVersionID_NewSecretVersion in Hne.
      cbn [Versions with_versions mget]. now apply lookup_insert_ne.
    + intros key Hne. rewrite mget_mstore by (rewrite Hs; eauto).
      now rewrite decide_False.
  - exfalso. unfold AddSecretVersion in Hadd.
    rewrite withLock_unlocked in Hadd by assumption.
    rewrite Hs, Hg in Hadd. discriminate.
Qed.

Lemma AddSecretVersion_frame_witness :
  exists secret',
    mget (secrets store_disabled_added) (mkkey "p1" "s1") = Some secret'
    /\ secret' = with_versions (secret_of store_disabled "p1" "s1")
                   (Versions secret') (VersionCount secret')
    /\ VersionCount secret'
       = wrap64 (VersionCount (secret_of store_disabled "p1" "s1") + 1)
    /\ (forall other,
          other <> GetVersionID
                     (NewSecretVersion env1 "p1" "s1" "2" (bytes_of_string "xyz")) ->
          mget (Versions secret') other
          = mget (Versions (secret_of store_disabled "p1" "s1")) other)
    /\ (forall key, key <> mkkey "p1" "s1" ->
          mget (secrets store_disabled_added) key
          = mget (secrets store_disabled) key).
Proof.
  apply (AddSecretVersion_frame env1 store_disabled store_disabled_added "p1" "s1"
           (secret_of store_disabled "p1" "s1") (bytes_of_string "xyz")).
  - reflexivity.
  - reflexivity.
  - vm_compute. reflexivity.
Defined.

(** X6. On a resource whose version map is nil, [AddSecretVersion]
    panics. Every resource that [Load] decodes from a file is such a
    resource. *)
Theorem AddSecretVersion_on_restored_panics
    (env : Env) (j : json) (restored : gomap Secret)
    (projectID secretID : string) (secret : Secret) (data : list byte) :
  unmarshalData j = Some restored ->
  mget restored (mkkey projectID secretID) = Some secret ->
  AddSecretVersion env {| mu := Unlocked; secrets := restored |}
    projectID secretID data = Panics.
Proof.
  intros Hj Hs.
  destruct (unmarshalData_no_versions j restored _ secret Hj Hs) as [Hnil _].
  unfold AddSecretVersion. rewrite withLock_unlocked by reflexivity.
  cbn [secrets]. now rewrite Hs, Hnil.
Qed.

Lemma AddSecretVersion_on_restored_panics_witness :
  AddSecretVersion env1 store_restored "p1" "s1" (bytes_of_string "abc") = Panics.
Proof.
  apply (AddSecretVersion_on_restored_panics env1 document_two
           (secrets store_restored) "p1" "s1" (secret_of store_restored "p1" "s1")).
  - vm_compute. reflexivity.
  - vm_compute. reflexivity.
Defined.

(** X7. Only reading resolves the id "latest". On a resource that holds
    its newest version and nothing under the literal id "latest",
    [GetSecretVersion] with "latest" returns the newest version, while
    [DeleteSecretVersion] with "latest" fails with [ErrVersionNotFound]
    and deletes nothing. *)
Theorem latest_is_resolved_by_reads_only
    (m : MemoryStorage) (projectID secretID : string)
    (secret : Secret) (newest : SecretVersion) :
  mu m = Unlocked ->
  mget (secrets m) (mkkey projectID secretID) = Some secret ->
  VersionCount secret <> 0 ->
  mget (Versions secret) (Itoa (VersionCount secret)) = Some newest ->
  mget (Versions secret) "latest" = None ->
  GetSecretVersion m projectID secretID "latest" = Returns (Ok newest, m)
  /\ AccessSecretVersion m projectID secretID "latest"
     = Returns (Ok (Data newest), m)
  /\ DeleteSecretVersion m projectID secretID "latest"
     = Returns (Some ErrVersionNotFound, m).
Proof.
  intros Hmu Hs Hc Hnew Hlit.
  assert (Hget : GetSecretVersion m projectID secretID "latest"
                 = Returns (Ok newest, m)).
  { rewrite (GetSecretVersion_latest _ _ _ secret) by assumption.
    apply Z.eqb_neq in Hc. now rewrite Hc, Hnew. }
  split; [exact Hget|]. split.
  - unfold AccessSecretVersion. now rewrite Hget.
  - unfold DeleteSecretVersion. rewrite withLock_unlocked by assumption.
    rewrite Hs, Hlit. cbn. now rewrite unlocked_eta.
Qed.

Lemma latest_is_resolved_by_reads_only_witness :
  GetSecretVersion store_two "p1" "s1" "latest"
    = Returns (Ok (NewSecretVersion env1 "p1" "s1" "2" (bytes_of_string "xyz")),
               store_two)
  /\ AccessSecretVersion store_two "p1" "s1" "latest"
     = Returns (Ok (Data (NewSecretVersion env1 "p1" "s1" "2" (bytes_of_string "xyz"))),
                store_two)
  /\ DeleteSecretVersion store_two "p1" "s1" "latest"
     = Returns (Some ErrVersionNotFound, store_two).
Proof.
  apply (latest_is_resolved_by_reads_only store_two "p1" "s1"
           (secret_of store_two "p1" "s1")).
  - reflexivity.
  - vm_compute. reflexivity.
  - vm_compute. discriminate.
  - vm_compute. reflexivity.
  - vm_compute. reflexivity.
Defined.

(** ** Decimal tokens *)

Lemma parse_digits_pos (d : Decimal.uint) :
  forall acc : positive,
    parse_digits (Z.pos acc) (NilEmpty.string_of_uint d)
    = Some (Z.pos (Pos.of_uint_acc d acc)).
Proof.
  induction d; intros acc; cbn [NilEmpty.string_of_uint parse_digits Pos.of_uint_acc];
    [reflexivity|..];
    match goal with
    | |- context [digit_of ?c] =>
        let v := eval vm_compute in (digit_of c) in
        change (digit_of c) with v; cbn iota
    end;
    rewrite <- IHd; f_equal; lia.
Qed.

Lemma parse_digits_zero (d : Decimal.uint) :
  parse_digits 0 (NilEmpty.string_of_uint d) = Some (Z.of_N (Pos.of_uint d)).
Proof.
  induction d; cbn [NilEmpty.string_of_uint parse_digits Pos.of_uint];
    [reflexivity|..];
    match goal with
    | |- context [digit_of ?c] =>
        let v := eval vm_compute in (digit_of c) in
        change (digit_of c) with v; cbn iota
    end;
    [exact IHd | cbn [Z.mul Z.add Z.of_N]; apply parse_digits_pos ..].
Qed.

Lemma parse_digits_to_uint (p : positive) :
  parse_digits 0 (NilEmpty.string_of_uint (Pos.to_uint p)) = Some (Z.pos p).
Proof. now rewrite parse_digits_zero, DecimalPos.Unsigned.of_to. Qed.

(** [Atoi] reads back what [Itoa] writes. *)
Lemma Atoi_Itoa (z : Z) : MinInt <= z <= MaxInt -> Atoi (Itoa z) = Some z.
Proof.
  intros Hz. unfold Itoa.
  destruct z as [|p|p]; cbn [Z.to_int NilEmpty.string_of_int].
  - reflexivity.
  - pose proof (parse_digits_to_uint p) as Hp.
    pose proof (DecimalPos.Unsigned.to_uint_nonnil p) as Hn.
    destruct (Pos.to_uint p) as [|d|d|d|d|d|d|d|d|d|d]; [congruence|..];
      cbn [NilEmpty.string_of_uint] in *; unfold Atoi; cbn iota; rewrite Hp;
      destruct ((MinInt <=? Z.pos p) && (Z.pos p <=? MaxInt)) eqn:Hr;
      try reflexivity; exfalso;
      apply andb_false_iff in Hr as [Hr|Hr]; apply Z.leb_gt in Hr; lia.
  - pose proof (parse_digits_to_uint p) as Hp.
    pose proof (DecimalPos.Unsigned.to_uint_nonnil p) as Hn.
    unfold Atoi. cbn iota.
    destruct (NilEmpty.string_of_uint (Pos.to_uint p)) as [|c body] eqn:Hs.
    { destruct (Pos.to_uint p); cbn in Hs; congruence. }
    rewrite Hp. change (- Z.pos p) with (Z.neg p).
    destruct ((MinInt <=? Z.neg p) && (Z.neg p <=? MaxInt)) eqn:Hr;
      try reflexivity; exfalso;
      apply andb_false_iff in Hr as [Hr|Hr]; apply Z.leb_gt in Hr; lia.
Qed.

(** ** Paging *)

Lemma start_of_range {A} (xs : list A) (token : string) :
  0 <= start_of xs token <= Z.of_nat (length xs).
Proof.
  unfold start_of. destruct (Atoi token) as [k|]; [|lia].
  destruct ((0 <=? k) && (k <? Z.of_nat (length xs))) eqn:H; [|lia].
  apply andb_true_iff in H as [H1 H2].
  apply Z.leb_le in H1. apply Z.ltb_lt in H2. lia.
Qed.

(** What [page] returns when the end of the page is within [int]. *)
Lemma page_closed_form {A} (xs : list A) (pageSize : Z) (token : string) :
  let len := Z.of_nat (length xs) in
  let start := start_of xs token in
  let size := if pageSize <=? 0 then 100 else pageSize in
  start + size <= MaxInt ->
  page xs pageSize token
  = Returns (take (Z.to_nat (Z.min (start + size) len - start))
               (drop (Z.to_nat start) xs),
             if start + size <? len then Itoa (start + size) else "").
Proof.
  intros len start size Hmax.
  pose proof (start_of_range xs token) as Hstart. fold start len in Hstart.
  assert (Hsize : 1 <= size).
  { unfold size. destruct (pageSize <=? 0) eqn:H; [lia|]. apply Z.leb_gt in H. lia. }
  assert (Hs : (if String.eqb token "" then 0
                else match Atoi token with
                     | Some startIdx =>
                         if (0 <=? startIdx) && (startIdx <? len) then startIdx else 0
                     | None => 0
                     end) = start).
  { unfold start, start_of. destruct (String.eqb_spec token "") as [->|_];
      reflexivity. }
  unfold page. fold len. rewrite Hs. fold size.
  rewrite (wrap64_small (start + size)) by (unfold MinInt, MaxInt in *; lia).
  assert (He : (if start + size >? len then len else start + size)
               = Z.min (start + size) len).
  { destruct (start + size >? len) eqn:H.
    - apply Z.gtb_lt in H. lia.
    - rewrite Z.gtb_ltb in H. apply Z.ltb_ge in H. lia. }
  rewrite He. unfold slice. fold len.
  replace ((0 <=? start) && (start <=? Z.min (start + size) len)
           && (Z.min (start + size) len <=? len)) with true.
  2:{ symmetry. rewrite !andb_true_iff, !Z.leb_le. lia. }
  cbn [mbind result_bind mret result_ret]. do 2 f_equal.
  destruct (Z.ltb_spec (start + size) len) as [H1|H1];
    destruct (Z.ltb_spec (Z.min (start + size) len) len) as [H2|H2];
    try reflexivity; try lia.
  f_equal. lia.
Qed.

Lemma start_of_Itoa {A} (xs : list A) (k : Z) :
  0 <= k < Z.of_nat (length xs) -> k <= MaxInt -> start_of xs (Itoa k) = k.
Proof.
  intros Hk Hmax. unfold start_of.
  rewrite Atoi_Itoa by (unfold MinInt, MaxInt in *; lia).
  replace ((0 <=? k) && (k <? Z.of_nat (length xs))) with true; [reflexivity|].
  symmetry. apply andb_true_iff. rewrite Z.leb_le, Z.ltb_lt. lia.
Qed.

Lemma Itoa_eqb_empty (z : Z) : String.eqb (Itoa z) "" = false.
Proof. apply String.eqb_neq, Itoa_nonempty. Qed.

(** X8. A page token that is not a decimal number, or that is one
    outside [0 .. len-1], is treated as no token: the call returns the
    first page again. *)
Theorem page_stale_token {A} (xs : list A) (pageSize : Z) (token : string) :
  (Atoi token = None
   \/ exists k, Atoi token = Some k /\ (k < 0 \/ Z.of_nat (length xs) <= k)) ->
  page xs pageSize token = page xs pageSize "".
Proof.
  intros H. unfold page.
  destruct (String.eqb_spec token "") as [->|_]; [reflexivity|].
  rewrite String.eqb_refl.
  destruct H as [-> | (k & -> & Hk)]; [reflexivity|].
  replace ((0 <=? k) && (k <? Z.of_nat (length xs))) with false; [reflexivity|].
  symmetry. apply andb_false_iff. rewrite Z.leb_gt, Z.ltb_ge. lia.
Qed.

Lemma page_stale_token_witness :
  page (A:=Z) [10; 20; 30] 2 "3" = Returns ([10; 20], "2")
  /\ page (A:=Z) [10; 20; 30] 2 "x" = Returns ([10; 20], "2").
Proof.
  split.
  - rewrite (page_stale_token [10; 20; 30] 2 "3").
    + vm_compute. reflexivity.
    + right. exists 3. split; [vm_compute; reflexivity | cbn; lia].
  - rewrite (page_stale_token [10; 20; 30] 2 "x").
    + vm_compute. reflexivity.
    + left. vm_compute. reflexivity.
Defined.

(** Following the tokens from any token enumerates the list from the
    offset of that token on. *)
Lemma follow_pages_from {A} (xs : list A) (pageSize : Z) :
  1 <= pageSize -> Z.of_nat (length xs) + pageSize <= MaxInt ->
  forall (fuel : nat) (token : string),
    Z.of_nat (length xs) - start_of xs token < Z.of_nat fuel ->
    exists pages,
      follow_pages fuel xs pageSize token = Returns pages
      /\ concat pages = drop (Z.to_nat (start_of xs token)) xs
      /\ Forall (fun p => Z.of_nat (length p) <= pageSize) pages.
Proof.
  intros Hsize Hmax fuel. induction fuel as [|fuel IH]; intros token Hfuel.
  { pose proof (start_of_range xs token). lia. }
  pose proof (start_of_range xs token) as Hstart.
  set (k := start_of xs token) in *.
  pose proof (page_closed_form xs pageSize token) as Hpage.
  cbv zeta in Hpage. fold k in Hpage.
  replace (pageSize <=? 0) with false in Hpage by (symmetry; apply Z.leb_gt; lia).
  specialize (Hpage ltac:(lia)).
  cbn [follow_pages]. rewrite Hpage. cbn [mbind result_bind].
  destruct (Z.ltb_spec (k + pageSize) (Z.of_nat (length xs))) as [Hlt|Hge].
  - rewrite Itoa_eqb_empty.
    assert (Hk' : start_of xs (Itoa (k + pageSize)) = k + pageSize).
    { apply start_of_Itoa; lia. }
    destruct (IH (Itoa (k + pageSize))) as (rest & -> & Hcat & Hall).
    { rewrite Hk'. lia. }
    cbn [mbind result_bind mret result_ret]. eexists. split; [reflexivity|].
    split.
    + cbn [concat]. rewrite Hcat, Hk'.
      replace (Z.min (k + pageSize) (Z.of_nat (length xs)) - k) with pageSize by lia.
      replace (Z.to_nat (k + pageSize)) with (Z.to_nat k + Z.to_nat pageSize)%nat by lia.
      rewrite <- drop_drop. apply take_drop.
    + constructor; [|exact Hall]. rewrite length_take. lia.
  - cbn [String.eqb mret result_ret]. eexists. split; [reflexivity|]. split.
    + cbn [concat]. rewrite app_nil_r. apply take_ge. rewrite length_drop. lia.
    + constructor; [|constructor]. rewrite length_take. lia.
Qed.

(** X9. A client that starts without a token and passes each returned
    token to the next call receives, page by page, the whole list in its
    order, each element once, no page longer than the page size; it needs
    at most one call per element (one call for the empty list). *)
Theorem follow_pages_enumerates {A} (xs : list A) (pageSize : Z) :
  1 <= pageSize -> Z.of_nat (length xs) + pageSize <= MaxInt ->
  exists pages,
    follow_pages (S (length xs)) xs pageSize "" = Returns pages
    /\ concat pages = xs
    /\ Forall (fun p => Z.of_nat (length p) <= pageSize) pages.
Proof.
  intros Hsize Hmax.
  destruct (follow_pages_from xs pageSize Hsize Hmax (S (length xs)) "")
    as (pages & Hrun & Hcat & Hall).
  { pose proof (start_of_range xs ""). lia. }
  exists pages. split; [exact Hrun|]. split; [|exact Hall].
  rewrite Hcat. reflexivity.
Qed.

Lemma follow_pages_enumerates_witness :
  exists pages,
    follow_pages 6 [1; 2; 3; 4; 5] 2 "" = Returns pages
    /\ concat pages = [1; 2; 3; 4; 5]
    /\ Forall (fun p => Z.of_nat (length p) <= 2) pages.
Proof.
  apply (follow_pages_enumerates [1; 2; 3; 4; 5] 2);
    [lia | vm_compute; discriminate].
Defined.

(** X10. [page] adds the page size to the offset in [int]: for a token
    [k >= 1] inside the list and a page size above [MaxInt - k] the sum
    wraps to a negative end, and the slice expression panics. *)
Theorem page_overflow_panics {A} (xs : list A) (pageSize k : Z) :
  1 <= k < Z.of_nat (length xs) -> k <= MaxInt ->
  MaxInt - k < pageSize <= MaxInt ->
  page xs pageSize (Itoa k) = Panics.
Proof.
  intros Hk Hkmax Hsize. unfold page.
  rewrite Itoa_eqb_empty, Atoi_Itoa by (unfold MinInt, MaxInt in *; lia).
  replace ((0 <=? k) && (k <? Z.of_nat (length xs))) with true.
  2:{ symmetry. apply andb_true_iff. rewrite Z.leb_le, Z.ltb_lt. lia. }
  replace (pageSize <=? 0) with false by (symmetry; apply Z.leb_gt; lia).
  assert (Hw : wrap64 (k + pageSize) = k + pageSize - 2 ^ 64).
  { unfold wrap64, MaxInt in *.
    replace (k + pageSize + 2 ^ 63)
      with (k + pageSize - 2 ^ 63 + 1 * 2 ^ 64) by lia.
    rewrite Z.mod_add by lia. rewrite Z.mod_small by lia. lia. }
  rewrite Hw.
  replace (k + pageSize - 2 ^ 64 >? Z.of_nat (length xs)) with false.
  2:{ symmetry. rewrite Z.gtb_ltb. apply Z.ltb_ge. unfold MaxInt in *. lia. }
  unfold slice.
  replace (k <=? k + pageSize - 2 ^ 64) with false.
  2:{ symmetry. apply Z.leb_gt. unfold MaxInt in *. lia. }
  rewrite andb_false_r. reflexivity.
Qed.

Lemma page_overflow_panics_witness :
  page (A:=Z) [10; 20; 30] MaxInt (Itoa 1) = Panics.
Proof.
  apply (page_overflow_panics [10; 20; 30] MaxInt 1);
    unfold MaxInt; cbn [length]; lia.
Defined.

(** The page size that the handlers pass on is between 1 and 1000. *)
Lemma pageSizeParam_range (s : string) : 1 <= pageSizeParam s <= 1000.
Proof.
  unfold pageSizeParam. destruct (String.eqb s ""); [lia|].
  destruct (Atoi s) as [ps|]; [|lia].
  destruct ((0 <? ps) && (ps <=? 1000)) eqn:H; [|lia].
  apply andb_true_iff in H as [H1 H2].
  apply Z.ltb_lt in H1. apply Z.leb_le in H2. lia.
Qed.

(** A page is a run of consecutive elements of the list. *)
Lemma page_run {A} (xs : list A) (pageSize : Z) (token : string) :
  1 <= pageSize -> Z.of_nat (length xs) + pageSize <= MaxInt ->
  exists before items after next,
    page xs pageSize token = Returns (items, next)
    /\ xs = (before ++ items ++ after)%list
    /\ Z.of_nat (length items) <= pageSize
    /\ (next = "" <-> after = []).
Proof.
  intros Hsize Hmax.
  pose proof (start_of_range xs token) as Hstart.
  pose proof (page_closed_form xs pageSize token) as Hpage. cbv zeta in Hpage.
  set (k := start_of xs token) in *.
  replace (pageSize <=? 0) with false in Hpage by (symmetry; apply Z.leb_gt; lia).
  specialize (Hpage ltac:(lia)).
  set (n := Z.to_nat (Z.min (k + pageSize) (Z.of_nat (length xs)) - k)) in *.
  exists (take (Z.to_nat k) xs), (take n (drop (Z.to_nat k) xs)),
    (drop n (drop (Z.to_nat k) xs)). eexists.
  split; [exact Hpage|]. split; [|split].
  - rewrite take_drop, take_drop. reflexivity.
  - rewrite length_take. lia.
  - destruct (Z.ltb_spec (k + pageSize) (Z.of_nat (length xs))) as [Hlt|Hge].
    + split; intros H.
      * exfalso. exact (Itoa_nonempty _ H).
      * exfalso. apply (f_equal (@length A)) in H.
        rewrite !length_drop in H. cbn [length] in H. lia.
    + split; [intros _|reflexivity].
      apply drop_ge. rewrite length_drop. lia.
Qed.

(** X11. With the page size as the handlers read it from the request,
    whatever the [pageSize] and [pageToken] parameters hold, [page]
    returns: at most 1000 items, a run of consecutive elements of the
    list, and a next token that is empty exactly when the run reaches
    the end of the list. *)
Theorem page_of_request {A} (xs : list A) (pageSizeStr token : string) :
  Z.of_nat (length xs) + 1000 <= MaxInt ->
  exists before items after next,
    page xs (pageSizeParam pageSizeStr) token = Returns (items, next)
    /\ xs = (before ++ items ++ after)%list
    /\ Z.of_nat (length items) <= 1000
    /\ (next = "" <-> after = []).
Proof.
  intros Hmax.
  pose proof (pageSizeParam_range pageSizeStr) as Hsize.
  destruct (page_run xs (pageSizeParam pageSizeStr) token)
    as (before & items & after & next & Hpage & Hxs & Hlen & Hnext); [lia..|].
  exists before, items, after, next. repeat split; try tauto; try lia.
Qed.

Lemma page_of_request_witness :
  exists before items after next,
    page (A:=Z) [10; 20; 30] (pageSizeParam "2") "1" = Returns (items, next)
    /\ [10; 20; 30] = (before ++ items ++ after)%list
    /\ Z.of_nat (length items) <= 1000
    /\ (next = "" <-> after = []).
Proof.
  apply (page_of_request [10; 20; 30] "2" "1"). vm_compute. discriminate.
Defined.

(** ** Listing *)

Lemma in_scope_stored (projectID : string) (m : MemoryStorage)
    (order : list (string * Secret)) (s : Secret) :
  order ≡ₚ mentries (secrets m) ->
  s ∈ in_scope projectID order ->
  exists key,
    String.prefix (projectID +:+ "/") key = true
    /\ mget (secrets m) key = Some s.
Proof.
  intros Hperm Hin. unfold in_scope in Hin.
  apply list_elem_of_fmap in Hin as ([key s'] & -> & Hin).
  apply list_elem_of_filter in Hin as [Hp Hin]. cbn in Hp.
  exists key. split; [exact Hp|]. cbn.
  rewrite Hperm in Hin. unfold mentries, mget in *.
  destruct (secrets m) as [g|].
  - now apply elem_of_map_to_list in Hin.
  - inversion Hin.
Qed.

(** X12. On a store whose lock is free, in whatever order the map is
    ranged over, [ListSecrets] with a page size of at least 1 returns and
    leaves the store as it was; the page holds at most [pageSize]
    resources, in ascending order of name, each of them stored under a
    key that starts with the project id and a slash. *)
Theorem ListSecrets_page (m : MemoryStorage) (order : list (string * Secret))
    (projectID : string) (pageSize : Z) (token : string) :
  mu m = Unlocked ->
  order ≡ₚ mentries (secrets m) ->
  1 <= pageSize -> Z.of_nat (length order) + pageSize <= MaxInt ->
  exists items next,
    ListSecrets m order projectID pageSize token = Returns ((items, next), m)
    /\ StronglySorted name_le items
    /\ Forall (fun s => exists key,
                 String.prefix (projectID +:+ "/") key = true
                 /\ mget (secrets m) key = Some s) items
    /\ Z.of_nat (length items) <= pageSize.
Proof.
  intros Hmu Hperm Hsize Hmax.
  rewrite ListSecrets_unlocked by exact Hmu.
  set (l := sortSlice name_less (in_scope projectID order)).
  assert (Hl : l ≡ₚ in_scope projectID order) by apply sortSlice_Permutation.
  assert (Hlen : (length l <= length order)%nat).
  { rewrite Hl. unfold in_scope. rewrite length_fmap. apply length_filter. }
  destruct (page_run l pageSize token)
    as (before & items & after & next & -> & Hxs & Hn & _); [lia..|].
  exists items, next. split; [reflexivity|]. split; [|split; [|exact Hn]].
  - pose proof (sortSlice_name_sorted (in_scope projectID order)) as Hs.
    fold l in Hs. rewrite Hxs in Hs.
    apply StronglySorted_app_1_r, StronglySorted_app_1_l in Hs. exact Hs.
  - apply Forall_forall. intros s Hin.
    apply (in_scope_stored projectID m order s Hperm).
    rewrite <- Hl, Hxs. set_solver.
Qed.

Lemma ListSecrets_page_witness :
  exists items next,
    ListSecrets store_five (reverse (mentries (secrets store_five))) "p" 2 "2"
    = Returns ((items, next), store_five)
    /\ StronglySorted name_le items
    /\ Forall (fun s => exists key,
                 String.prefix ("p" +:+ "/") key = true
                 /\ mget (secrets store_five) key = Some s) items
    /\ Z.of_nat (length items) <= 2.
Proof.
  apply (ListSecrets_page store_five _ "p" 2 "2").
  - reflexivity.
  - apply reverse_Permutation.
  - lia.
  - vm_compute. discriminate.
Defined.

(** ** The file-backed wrapper *)

(** X14. A mutating call on the file-backed store returns only when the
    embedded store refuses it: then it returns the store's error and
    leaves the file system as it was. When the embedded store accepts
    the call, the wrapper goes on to [Save] and never returns; [Close],
    which is [Save], never returns. *)
Theorem Persistent_mutations (env : Env) (p : PersistentStorage) (disk : Disk)
    (projectID secretID versionID : string) (secret : Secret) (data : list byte) :
  Persistent.CreateSecret env p disk projectID secretID secret
  = match CreateSecret (mem p) projectID secretID secret with
    | Returns (Some e, m') => Returns (Some e, set_mem p m', disk)
    | Returns (None, _) => Blocks
    | Blocks => Blocks
    | Panics => Panics
    end
  /\ Persistent.DeleteSecret env p disk projectID secretID
     = match DeleteSecret (mem p) projectID secretID with
       | Returns (Some e, m') => Returns (Some e, set_mem p m', disk)
       | Returns (None, _) => Blocks
       | Blocks => Blocks
       | Panics => Panics
       end
  /\ Persistent.AddSecretVersion env p disk projectID secretID data
     = match AddSecretVersion env (mem p) projectID secretID data with
       | Returns (Err e, m') => Returns (Err e, set_mem p m', disk)
       | Returns (Ok _, _) => Blocks
       | Blocks => Blocks
       | Panics => Panics
       end
  /\ Persistent.DeleteSecretVersion env p disk projectID secretID versionID
     = match DeleteSecretVersion (mem p) projectID secretID versionID with
       | Returns (Some e, m') => Returns (Some e, set_mem p m', disk)
       | Returns (None, _) => Blocks
       | Blocks => Blocks
       | Panics => Panics
       end
  /\ Persistent.Close env p disk = Blocks.
Proof.
  unfold Persistent.CreateSecret, Persistent.DeleteSecret,
    Persistent.AddSecretVersion, Persistent.DeleteSecretVersion,
    Persistent.Close, CreateSecret_with, DeleteSecret_with,
    AddSecretVersion_with, DeleteSecretVersion_with.
  repeat split.
  - destruct (CreateSecret _ _ _ _) as [[[e|] m']| |]; cbn [mbind result_bind];
      try reflexivity. apply Save_blocks.
  - destruct (DeleteSecret _ _ _) as [[[e|] m']| |]; cbn [mbind result_bind];
      try reflexivity. apply Save_blocks.
  - destruct (AddSecretVersion _ _ _ _ _) as [[[v|e] m']| |];
      cbn [mbind result_bind]; try reflexivity.
    now rewrite Save_blocks.
  - destruct (DeleteSecretVersion _ _ _ _) as [[[e|] m']| |];
      cbn [mbind result_bind]; try reflexivity. apply Save_blocks.
  - apply Save_blocks.
Qed.

(** X15. When [Load] returns, the store is as it was before the call:
    [Load] has restored nothing. It returns without an error exactly
    when there is no file at the path; it returns an error for a file
    that cannot be read or decoded; and the file is then not one that
    decodes, for on a file that decodes [Load] does not return. *)
Theorem Load_never_restores (p p' : PersistentStorage) (disk : Disk)
    (r : option error) :
  Load p disk = Returns (r, p') ->
  p' = p
  /\ (r = None <-> files disk !! filePath p = None)
  /\ (forall j storageData,
        files disk !! filePath p = Some (Document j) ->
        unmarshalData j <> Some storageData)
  /\ (forall storageData,
        files disk !! filePath p <> Some (Foreign storageData)).
Proof.
  unfold Load. destruct p as [m path l]. cbn [pmu filePath].
  destruct l; cbn [Lock mbind result_bind]; try discriminate.
  destruct (files disk !! path) as [[| |j|d]|];
    cbn [Unlock mbind result_bind mret result_ret set_pmu mem filePath pmu].
  - intros [= <- <-]. repeat split; try discriminate.
  - intros [= <- <-]. repeat split; try discriminate.
  - destruct (unmarshalData j) as [d|] eqn:Hj.
    + rewrite install_blocks by discriminate. discriminate.
    + cbn [Unlock mbind result_bind mret result_ret set_pmu mem filePath pmu].
      intros [= <- <-]. repeat split; try discriminate.
      intros j' d' [= <-]. congruence.
  - rewrite install_blocks by discriminate. discriminate.
  - intros [= <- <-]. repeat split; discriminate.
Qed.

Lemma Load_never_restores_witness :
  let p := NewPersistentStorage "gsm.json" in
  let unreadable := {| files := {[ "gsm.json" := Unreadable ]}; read_only := false |} in
  Load p disk0 = Returns (None, p)
  /\ Load p unreadable = Returns (Some (ErrIO "failed to read storage file"), p)
  /\ ((None : option error) = None <-> files disk0 !! filePath p = None)
  /\ (Some (ErrIO "failed to read storage file") = None
      <-> files unreadable !! filePath p = None).
Proof.
  intros p unreadable.
  assert (H0 : Load p disk0 = Returns (None, p)) by (vm_compute; reflexivity).
  assert (H1 : Load p unreadable
               = Returns (Some (ErrIO "failed to read storage file"), p))
    by (vm_compute; reflexivity).
  split; [exact H0|]. split; [exact H1|]. split.
  - exact (proj1 (proj2 (Load_never_restores p p disk0 None H0))).
  - exact (proj1 (proj2 (Load_never_restores p p unreadable _ H1))).
Defined.

(** ** The ids inside a resource name *)

Lemma get_append_l (a b : string) (n : nat) :
  (n < String.length a)%nat -> String.get n (a +:+ b) = String.get n a.
Proof.
  revert n. string_ind a; intros n Hn; [cbn in Hn; lia|].
  destruct n; [reflexivity|]. apply IHa. cbn in Hn. lia.
Qed.

Lemma get_append (a b : string) (n : nat) :
  String.get n (a +:+ b)
  = if (n <? String.length a)%nat then String.get n a
    else String.get (n - String.length a) b.
Proof.
  destruct (Nat.ltb_spec n (String.length a)) as [H|H].
  - now apply get_append_l.
  - replace n with (String.length a + (n - String.length a))%nat at 1 by lia.
    apply get_append_r.
Qed.

Lemma substring_append_l' (a b : string) (n : nat) :
  (n <= String.length a)%nat ->
  substring 0 n (a +:+ b) = substring 0 n a.
Proof.
  revert n. string_ind a; intros n Hn.
  - cbn in Hn. assert (n = 0)%nat as -> by lia. destruct b; reflexivity.
  - destruct n; [reflexivity|]. cbn. f_equal. apply IHa. cbn in Hn. lia.
Qed.

(** The loop of [scan_last] stops at a marker after which no further
    window reads the marker. *)
Lemma scan_last_at (marker pre rest : string) (k : nat) :
  let name := pre +:+ marker +:+ rest in
  rest <> "" ->
  (forall i, (String.length pre < i)%nat ->
             (i + String.length marker < String.length name)%nat ->
             substring i (String.length marker) name <> marker) ->
  (String.length pre < k)%nat -> (k <= String.length name)%nat ->
  scan_last marker name k = rest.
Proof.
  intros name Hne Hlast.
  assert (Hlen : String.length name
                 = (String.length pre
                    + (String.length marker + String.length rest))%nat).
  { unfold name. now rewrite !length_append. }
  assert (Hrest : (0 < String.length rest)%nat).
  { destruct rest; [congruence | cbn; lia]. }
  induction k as [|i IH]; intros Hlo Hhi; [lia|].
  cbn [scan_last]. fold name.
  destruct (decide (i = String.length pre)) as [->|Hi].
  - assert (Hlt : (String.length pre + String.length marker
                   <? String.length name)%nat = true).
    { apply Nat.ltb_lt. lia. }
    rewrite Hlt. cbn [andb].
    assert (Hw : substring (String.length pre) (String.length marker) name = marker).
    { unfold name.
      rewrite <- (Nat.add_0_r (String.length pre)) at 1.
      rewrite substring_append_r.
      exact (substring_append_l marker rest). }
    rewrite Hw, String.eqb_refl.
    replace (String.length name - (String.length pre + String.length marker))%nat
      with (String.length rest) by lia.
    unfold name. rewrite substring_append_r.
    rewrite <- (Nat.add_0_r (String.length marker)) at 1.
    rewrite substring_append_r. apply substring_all.
  - destruct (i + String.length marker <? String.length name)%nat eqn:Hlt;
      cbn [andb].
    + apply Nat.ltb_lt in Hlt.
      destruct (String.eqb (substring i (String.length marker) name) marker)
        eqn:Heq.
      * exfalso. apply String.eqb_eq in Heq.
        apply (Hlast i); [lia | exact Hlt | exact Heq].
      * apply IH; lia.
    + apply IH; lia.
Qed.

Lemma substring_projects (x : string) (n m : nat) :
  substring (9 + n) m ("projects/" +:+ x) = substring n m x.
Proof. exact (substring_append_r "projects/" x n m). Qed.

Lemma get_projects (x : string) (n : nat) :
  String.get (9 + n) ("projects/" +:+ x) = String.get n x.
Proof. exact (get_append_r "projects/" x n). Qed.

Lemma get_Some_lt (s : string) (n : nat) :
  (n < String.length s)%nat -> exists c, String.get n s = Some c.
Proof.
  revert n. induction s as [|c s IH]; intros n Hn; [cbn in Hn; lia|].
  destruct n; [now exists c|]. apply IH. cbn in Hn. lia.
Qed.

Lemma substring_prefix (a b : string) :
  substring 0 (String.length a) (a +:+ b) = a.
Proof. apply substring_append_l. Qed.

(** The loop of [extractProjectID] runs through a project id without a
    slash and stops behind it. *)
Lemma project_loop_stops (p rest : string) (n j k : nat) :
  no_slash p ->
  rest = "" \/ (exists r, rest = String "/" r) ->
  (j + n = String.length p)%nat ->
  (k = n + String.length rest)%nat ->
  project_loop ("projects/" +:+ p +:+ rest) (9 + j) k = p.
Proof.
  intros Hp Hrest. revert j k. induction n as [|n IH]; intros j k Hj Hk.
  - assert (Hsub : forall m, substring 9 m ("projects/" +:+ p +:+ rest)
                             = substring 0 m (p +:+ rest)).
    { intros m. exact (substring_projects (p +:+ rest) 0 m). }
    destruct Hrest as [->|[r ->]].
    + cbn in Hk. subst k. cbn [project_loop]. rewrite Hsub, !length_append.
      cbn [String.length]. 
      replace (9 + (String.length p + 0) - 9)%nat with (String.length p) by lia.
      apply substring_prefix.
    + subst k. cbn [String.length Nat.add project_loop].
      change (S (S (S (S (S (S (S (S (S j))))))))) with (9 + j)%nat.
      rewrite get_projects.
      replace j with (String.length p + 0)%nat at 1 by lia.
      rewrite get_append_r. cbn [String.get]. cbn [Ascii.eqb Bool.eqb].
      rewrite Hsub. replace (9 + j - 9)%nat with (String.length p) by lia.
      apply substring_prefix.
  - subst k. cbn [Nat.add project_loop].
    change (S (S (S (S (S (S (S (S (S j))))))))) with (9 + j)%nat.
    rewrite get_projects, get_append_l by lia.
    destruct (get_Some_lt p j ltac:(lia)) as [c Hc]. rewrite Hc.
    destruct (Ascii.eqb_spec c "/") as [->|_]; [now apply Hp in Hc|].
    change (S (9 + j)) with (9 + S j)%nat. apply IH; lia.
Qed.

Lemma extractProjectID_name (p rest : string) :
  no_slash p ->
  rest = "" \/ (exists r, rest = String "/" r) ->
  extractProjectID ("projects/" +:+ p +:+ rest) = p.
Proof.
  intros Hp Hrest. unfold extractProjectID.
  set (name := "projects/" +:+ p +:+ rest).
  assert (Hlen : String.length name = (9 + (String.length p + String.length rest))%nat).
  { unfold name. now rewrite !length_append. }
  destruct (Nat.ltb_spec (String.length name) 10) as [Hshort|Hlong];
    cbn [orb].
  - destruct p; [reflexivity|]. cbn [String.length] in Hlen. lia.
  - assert (H9 : substring 0 9 name = "projects/")
      by exact (substring_prefix "projects/" (p +:+ rest)).
    rewrite H9. cbn [String.eqb Ascii.eqb Bool.eqb negb].
    rewrite Hlen.
    replace (9 + (String.length p + String.length rest) - 9)%nat
      with (String.length p + String.length rest)%nat by lia.
    change 9%nat with (9 + 0)%nat at 1.
    apply (project_loop_stops p rest (String.length p) 0); auto.
Qed.

Lemma window_get (name marker : string) (i t : nat) :
  substring i (String.length marker) name = marker ->
  (t < String.length marker)%nat ->
  String.get (i + t) name = String.get t marker.
Proof.
  intros Hw Ht.
  pose proof (substring_correct1 name i (String.length marker) t Ht) as Hg.
  rewrite Hw in Hg. rewrite Hg. f_equal. lia.
Qed.

Lemma secret_name_split (projectID secretID : string) :
  "projects/" +:+ projectID +:+ "/secrets/" +:+ secretID
  = ("projects/" +:+ projectID) +:+ secretsPrefix +:+ secretID.
Proof. now rewrite !append_assoc. Qed.

(** X16. A resource built by [NewSecret] from a project id without a
    slash and a non-empty secret id without a slash gives both ids back:
    [GetProjectID] and [GetSecretID] invert the name. *)
Theorem NewSecret_ids (env : Env) (projectID secretID : string)
    (labels : gomap string) :
  no_slash projectID -> secretID <> "" -> no_slash secretID ->
  GetProjectID (NewSecret env projectID secretID labels) = projectID
  /\ GetSecretID (NewSecret env projectID secretID labels) = secretID.
Proof.
  intros Hp Hne Hs. unfold GetProjectID, GetSecretID. cbn [Name NewSecret].
  split.
  - apply extractProjectID_name; [exact Hp|]. right. eexists. reflexivity.
  - unfold extractSecretID. rewrite secret_name_split.
    apply (scan_last_at secretsPrefix ("projects/" +:+ projectID) secretID).
    + exact Hne.
    + intros i Hi Hfit Hw.
      pose proof (window_get _ secretsPrefix i 8 Hw ltac:(cbn; lia)) as Hg.
      cbn [String.get secretsPrefix] in Hg.
      replace (i + 8)%nat
        with (String.length ("projects/" +:+ projectID)
              + (String.length secretsPrefix
                 + (i - String.length ("projects/" +:+ projectID) - 1)))%nat
        in Hg by (cbn [String.length secretsPrefix]; lia).
      rewrite !get_append_r in Hg. now apply Hs in Hg.
    + rewrite !length_append.
      destruct secretID; [congruence | cbn [String.length secretsPrefix]; lia].
    + lia.
Qed.

Lemma NewSecret_ids_witness :
  GetProjectID (NewSecret env0 "p1" "s1" None) = "p1"
  /\ GetSecretID (NewSecret env0 "p1" "s1" None) = "s1".
Proof.
  apply (NewSecret_ids env0 "p1" "s1" None).
  - intros i c H. do 3 (destruct i as [|i]; [inversion H; discriminate|]).
    discriminate.
  - discriminate.
  - intros i c H. do 3 (destruct i as [|i]; [inversion H; discriminate|]).
    discriminate.
Defined.

(** Where the slashes of ["/secrets/" s "/versions/" v] are. *)
Lemma slash_positions (s v : string) (x : nat) :
  no_slash s -> no_slash v ->
  String.get x (secretsPrefix +:+ s +:+ versionsPrefix +:+ v) = Some "/"%char ->
  x = 0%nat \/ x = 8%nat \/ x = (9 + String.length s)%nat
  \/ x = (18 + String.length s)%nat.
Proof.
  intros Hs Hv H.
  destruct (Nat.ltb_spec x 9) as [Hx|Hx].
  - rewrite get_append_l in H by (cbn; lia).
    do 9 (destruct x as [|x]; [cbn in H; first [discriminate | lia]|]). lia.
  - replace x with (String.length secretsPrefix + (x - 9))%nat in H
      by (cbn; lia).
    rewrite get_append_r, get_append in H.
    destruct (Nat.ltb_spec (x - 9) (String.length s)) as [Hy|Hy].
    { now apply Hs in H. }
    set (z := (x - 9 - String.length s)%nat) in *.
    assert (Hxz : x = (9 + String.length s + z)%nat) by lia.
    clearbody z.
    destruct (Nat.ltb_spec z 10) as [Hz|Hz].
    + rewrite get_append_l in H by (cbn; lia).
      do 10 (destruct z as [|z]; [cbn in H; first [discriminate | lia]|]).
      lia.
    + replace z with (String.length versionsPrefix + (z - 10))%nat in H
        by (cbn; lia).
      rewrite get_append_r in H. now apply Hv in H.
Qed.

(** X17. For a version built by [NewSecretVersion] from ids without a
    slash, [GetProjectID] returns the project id, but [GetSecretID]
    returns everything behind ["/secrets/"]: the secret id followed by
    ["/versions/"] and the version id. *)
Theorem NewSecretVersion_ids (env : Env) (projectID secretID versionID : string)
    (data : list byte) :
  no_slash projectID -> no_slash secretID -> secretID <> "secrets" ->
  no_slash versionID ->
  vGetProjectID (NewSecretVersion env projectID secretID versionID data)
  = projectID
  /\ vGetSecretID (NewSecretVersion env projectID secretID versionID data)
     = secretID +:+ "/versions/" +:+ versionID.
Proof.
  intros Hp Hs Hne Hv. unfold vGetProjectID, vGetSecretID.
  cbn [vName NewSecretVersion]. split.
  - apply extractProjectID_name; [exact Hp|]. right. eexists. reflexivity.
  - unfold extractSecretID.
    assert (Hname : "projects/" +:+ projectID +:+ "/secrets/" +:+ secretID
                      +:+ "/versions/" +:+ versionID
                    = ("projects/" +:+ projectID) +:+ secretsPrefix
                      +:+ (secretID +:+ "/versions/" +:+ versionID)).
    { now rewrite !append_assoc. }
    rewrite Hname.
    set (pre := "projects/" +:+ projectID).
    set (rest := secretID +:+ "/versions/" +:+ versionID).
    assert (Hrest : rest <> "").
    { unfold rest. intros H. apply (f_equal String.length) in H.
      rewrite !length_append in H. cbn in H. lia. }
    apply (scan_last_at secretsPrefix pre rest).
    + exact Hrest.
    + intros i Hi Hfit Hw.
      pose proof (window_get _ secretsPrefix i 0 Hw ltac:(cbn; lia)) as H0.
      pose proof (window_get _ secretsPrefix i 8 Hw ltac:(cbn; lia)) as H8.
      cbn [String.get secretsPrefix] in H0, H8.
      replace (i + 0)%nat
        with (String.length pre + (i - String.length pre))%nat in H0 by lia.
      replace (i + 8)%nat
        with (String.length pre + (i - String.length pre + 8))%nat in H8 by lia.
      rewrite get_append_r in H0, H8.
      apply (slash_positions secretID versionID _ Hs Hv) in H0, H8.
      assert (Hd : (i - String.length pre = 8)%nat
                   /\ String.length secretID = 7%nat) by lia.
      destruct Hd as [Hd H7].
      assert (Hsub : substring 8 9 (secretsPrefix +:+ rest) = secretsPrefix).
      { rewrite <- Hw at 2.
        replace i with (String.length pre + 8)%nat by lia.
        symmetry. apply substring_append_r. }
      apply Hne. unfold rest in Hsub. clear -H7 Hsub.
      do 7 (destruct secretID as [|? secretID]; [cbn in H7; lia|]).
      destruct secretID; [|cbn in H7; lia].
      vm_compute in Hsub. congruence.
    + rewrite !length_append. cbn [String.length secretsPrefix]. lia.
    + lia.
Qed.

Lemma NewSecretVersion_ids_witness :
  vGetProjectID (NewSecretVersion env0 "p1" "s1" "1" []) = "p1"
  /\ vGetSecretID (NewSecretVersion env0 "p1" "s1" "1" []) = "s1/versions/1".
Proof.
  apply (NewSecretVersion_ids env0 "p1" "s1" "1" []).
  - intros i c H. do 3 (destruct i as [|i]; [inversion H; discriminate|]).
    discriminate.
  - intros i c H. do 3 (destruct i as [|i]; [inversion H; discriminate|]).
    discriminate.
  - discriminate.
  - intros i c H. do 2 (destruct i as [|i]; [inversion H; discriminate|]).
    discriminate.
Defined.

(** ** The order of a version listing *)

Section merge_sort_ext.
Context {A : Type} (R1 R2 : relation A).
Context `{!forall x y, Decision (R1 x y)} `{!forall x y, Decision (R2 x y)}.
Variable P : A -> Prop.
Hypothesis agree : forall x y, P x -> P y -> (R1 x y <-> R2 x y).

Lemma list_merge_ext (l1 l2 : list A) :
  Forall P l1 -> Forall P l2 -> list_merge R1 l1 l2 = list_merge R2 l1 l2.
Proof.
  intros H1. revert l2. induction H1 as [|x1 l1 Hx1 Hl1 IH1];
    intros l2 H2.
  { now rewrite !list_merge_nil_l. }
  induction H2 as [|x2 l2 Hx2 Hl2 IH2].
  { now rewrite !list_merge_nil_r. }
  rewrite !list_merge_cons.
  destruct (decide (R1 x1 x2)) as [Hr|Hr], (decide (R2 x1 x2)) as [Hr'|Hr'].
  - f_equal. apply IH1. now constructor.
  - exfalso. apply Hr'. now apply agree.
  - exfalso. apply Hr. now apply agree.
  - f_equal. exact IH2.
Qed.

Lemma list_merge_Forall (l1 l2 : list A) :
  Forall P l1 -> Forall P l2 -> Forall P (list_merge R1 l1 l2).
Proof.
  intros H1 H2. rewrite (merge_Permutation R1 l1 l2).
  now apply Forall_app.
Qed.

Lemma merge_list_to_stack_ext (st : list (option (list A))) (l : list A) :
  stack_ok P st -> Forall P l ->
  merge_list_to_stack R1 st l = merge_list_to_stack R2 st l
  /\ stack_ok P (merge_list_to_stack R1 st l).
Proof.
  intros Hst. revert l. induction Hst as [|[l'|] st Ho Hst IH]; intros l Hl.
  - split; [reflexivity|]. repeat constructor. exact Hl.
  - cbn [merge_list_to_stack].
    rewrite <- (list_merge_ext l' l Ho Hl).
    destruct (IH (list_merge R1 l' l)) as [E Hok].
    { now apply list_merge_Forall. }
    split; [now rewrite E|]. constructor; [exact I | exact Hok].
  - split; [reflexivity|]. constructor; [exact Hl | exact Hst].
Qed.

Lemma merge_stack_ext (st : list (option (list A))) :
  stack_ok P st ->
  merge_stack R1 st = merge_stack R2 st /\ Forall P (merge_stack R1 st).
Proof.
  induction 1 as [|[l|] st Ho Hst [E HP]]; cbn [merge_stack].
  - split; [reflexivity | constructor].
  - rewrite <- E. split; [now apply list_merge_ext | now apply list_merge_Forall].
  - split; assumption.
Qed.

Lemma merge_sort_aux_ext (l : list A) (st : list (option (list A))) :
  stack_ok P st -> Forall P l ->
  merge_sort_aux R1 st l = merge_sort_aux R2 st l.
Proof.
  revert st. induction l as [|x l IH]; intros st Hst Hl; cbn [merge_sort_aux].
  - now apply merge_stack_ext.
  - apply Forall_cons in Hl as [Hx Hl].
    destruct (merge_list_to_stack_ext st [x] Hst) as [E Hok].
    { now repeat constructor. }
    rewrite <- E. now apply IH.
Qed.
End merge_sort_ext.

(** Two comparators that agree on the elements of a list sort it alike. *)
Lemma sortSlice_ext {A} (less1 less2 : A -> A -> bool) (xs : list A) :
  (forall a b, a ∈ xs -> b ∈ xs -> less1 a b = less2 a b) ->
  sortSlice less1 xs = sortSlice less2 xs.
Proof.
  intros Hagree. unfold sortSlice, merge_sort.
  apply (merge_sort_aux_ext _ _ (fun a => a ∈ xs)).
  - intros x y Hx Hy. now rewrite (Hagree y x Hy Hx).
  - constructor.
  - now apply Forall_forall.
Qed.

Lemma StronglySorted_impl_on {A} (R R' : relation A) (P : A -> Prop) (l : list A) :
  (forall a b, P a -> P b -> R a b -> R' a b) ->
  Forall P l -> StronglySorted R l -> StronglySorted R' l.
Proof.
  intros Himpl HP Hs. induction Hs as [|a l Hs IH Hall]; [constructor|].
  apply Forall_cons in HP as [Ha Hl].
  constructor; [now apply IH|].
  rewrite Forall_forall in Hall, Hl |- *. intros b Hb.
  apply Himpl; auto.
Qed.

(** X18. For a resource whose versions all carry decimal ids, as the
    ids that [AddSecretVersion] assigns are, [ListSecretVersions] with a
    page size of at least 1 returns, in whatever order the version map
    is ranged over, a page of at most [pageSize] versions of that
    resource in descending order of the number in the id (newest first),
    and leaves the store as it was. *)
Theorem ListSecretVersions_newest_first (m : MemoryStorage)
    (order : list (string * SecretVersion))
    (projectID secretID : string) (secret : Secret)
    (pageSize : Z) (token : string) :
  mu m = Unlocked ->
  mget (secrets m) (mkkey projectID secretID) = Some secret ->
  order ≡ₚ mentries (Versions secret) ->
  Forall (fun v => exists n, MinInt <= n <= MaxInt /\ GetVersionID v = Itoa n)
    order.*2 ->
  1 <= pageSize -> Z.of_nat (length order) + pageSize <= MaxInt ->
  exists items next,
    ListSecretVersions m order projectID secretID pageSize token
    = Returns (Ok (items, next), m)
    /\ StronglySorted
         (fun a b => forall na nb,
              GetVersionID a = Itoa na -> GetVersionID b = Itoa nb -> nb <= na)
         items
    /\ Forall (fun v => exists vid, mget (Versions secret) vid = Some v) items
    /\ Z.of_nat (length items) <= pageSize.
Proof.
  intros Hmu Hget Hperm Hids Hsize Hmax.
  unfold ListSecretVersions. rewrite withRLock_unlocked by exact Hmu.
  rewrite Hget.
  set (xs := order.*2) in *.
  set (vnum := fun v => default 0 (Atoi (GetVersionID v))).
  set (less2 := fun a b : SecretVersion => vnum a >? vnum b).
  assert (Hnum : forall v, v ∈ xs ->
            exists n, MinInt <= n <= MaxInt /\ GetVersionID v = Itoa n
                      /\ Atoi (GetVersionID v) = Some n /\ vnum v = n).
  { intros v Hv. rewrite Forall_forall in Hids.
    destruct (Hids v Hv) as (n & Hn & Hid). exists n.
    unfold vnum. rewrite Hid, Atoi_Itoa by exact Hn. auto. }
  assert (Hext : sortSlice version_less xs = sortSlice less2 xs).
  { apply sortSlice_ext. intros a b Ha Hb.
    destruct (Hnum a Ha) as (na & _ & _ & Hna & Hva).
    destruct (Hnum b Hb) as (nb & _ & _ & Hnb & Hvb).
    unfold version_less, less2. now rewrite Hna, Hnb, Hva, Hvb. }
  rewrite Hext.
  set (l := sortSlice less2 xs).
  assert (Hl : l ≡ₚ xs) by apply sortSlice_Permutation.
  assert (Hsorted : StronglySorted (fun a b => less2 b a = false) l).
  { assert (Htrans : Transitive (fun a b => less2 b a = false)).
    { intros a b c Hab Hbc. unfold less2 in *.
      rewrite Z.gtb_ltb in *. apply Z.ltb_ge. apply Z.ltb_ge in Hab, Hbc. lia. }
    assert (Htotal : Total (fun a b => less2 b a = false)).
    { intros a b. unfold less2. rewrite !Z.gtb_ltb.
      destruct (Z.le_gt_cases (vnum a) (vnum b)) as [Hle|Hgt].
      - right. apply Z.ltb_ge. lia.
      - left. apply Z.ltb_ge. lia. }
    unfold l, sortSlice.
    apply (@StronglySorted_merge_sort _ (fun a b => less2 b a = false) _
             Htrans Htotal). }
  destruct (page_run l pageSize token)
    as (before & items & after & next & -> & Hxs & Hn & _).
  { exact Hsize. }
  { rewrite Hl. unfold xs. rewrite length_fmap. exact Hmax. }
  cbn [mbind result_bind mret result_ret].
  exists items, next. split; [reflexivity|].
  assert (Hsub : forall v, v ∈ items -> v ∈ xs).
  { intros v Hv. rewrite <- Hl, Hxs. set_solver. }
  split; [|split; [|exact Hn]].
  - rewrite Hxs in Hsorted.
    apply StronglySorted_app_1_r, StronglySorted_app_1_l in Hsorted.
    apply (StronglySorted_impl_on (fun a b => less2 b a = false) _
             (fun v => v ∈ xs) items);
      [|now apply Forall_forall|exact Hsorted].
    intros a b Ha Hb Hab na nb Hida Hidb.
    destruct (Hnum a Ha) as (na' & _ & Hida' & _ & Hva).
    destruct (Hnum b Hb) as (nb' & _ & Hidb' & _ & Hvb).
    rewrite Hida in Hida'. rewrite Hidb in Hidb'.
    apply Itoa_inj in Hida', Hidb'. subst na' nb'.
    unfold less2 in Hab. rewrite Hva, Hvb, Z.gtb_ltb in Hab.
    apply Z.ltb_ge in Hab. exact Hab.
  - apply Forall_forall. intros v Hv. apply Hsub in Hv.
    unfold xs in Hv. apply list_elem_of_fmap in Hv as ([vid v'] & -> & Hin).
    exists vid. rewrite Hperm in Hin. unfold mentries, mget in *.
    destruct (Versions secret) as [g|].
    + now apply elem_of_map_to_list in Hin.
    + inversion Hin.
Qed.

Lemma decimal_ids_check (xs : list SecretVersion) :
  forallb (fun v => match Atoi (GetVersionID v) with
                    | Some n => (MinInt <=? n) && (n <=? MaxInt)
                                && String.eqb (GetVersionID v) (Itoa n)
                    | None => false
                    end) xs = true ->
  Forall (fun v => exists n, MinInt <= n <= MaxInt /\ GetVersionID v = Itoa n) xs.
Proof.
  intros H. apply Forall_forall. intros v Hv.
  rewrite forallb_forall in H. apply list_elem_of_In in Hv.
  specialize (H v Hv). destruct (Atoi (GetVersionID v)) as [n|]; [|discriminate].
  apply andb_true_iff in H as [H Hid]. apply andb_true_iff in H as [Hlo Hhi].
  exists n. apply Z.leb_le in Hlo, Hhi. apply String.eqb_eq in Hid. auto.
Qed.

Lemma ListSecretVersions_newest_first_witness :
  exists items next,
    ListSecretVersions store_two
      (reverse (mentries (Versions (secret_of store_two "p1" "s1"))))
      "p1" "s1" 10 ""
    = Returns (Ok (items, next), store_two)
    /\ StronglySorted
         (fun a b => forall na nb,
              GetVersionID a = Itoa na -> GetVersionID b = Itoa nb -> nb <= na)
         items
    /\ Forall (fun v => exists vid,
                 mget (Versions (secret_of store_two "p1" "s1")) vid = Some v)
         items
    /\ Z.of_nat (length items) <= 10.
Proof.
  apply (ListSecretVersions_newest_first store_two _ "p1" "s1"
           (secret_of store_two "p1" "s1") 10 "").
  - reflexivity.
  - vm_compute. reflexivity.
  - apply reverse_Permutation.
  - apply decimal_ids_check. vm_compute. reflexivity.
  - lia.
  - vm_compute. discriminate.
Defined.

(** ** The ids inside a request path *)

Lemma no_slash_cons (c : ascii) (r : string) :
  no_slash (String c r) <-> c <> "/"%char /\ no_slash r.
Proof.
  split.
  - intros H. split.
    + apply (H 0%nat c). reflexivity.
    + intros i d Hi. apply (H (S i) d). exact Hi.
  - intros [Hc Hr] [|i] d Hi.
    + cbn in Hi. now injection Hi as <-.
    + apply (Hr i d). exact Hi.
Qed.

Lemma no_slash_nil : no_slash "".
Proof. intros i c H. destruct i; discriminate. Qed.

(** A byte-by-byte test for [no_slash]. *)
Lemma no_slash_check (s : string) :
  forallb (fun c => negb (Ascii.eqb c "/")) (list_ascii_of_string s) = true ->
  no_slash s.
Proof.
  induction s as [|c r IH]; cbn [list_ascii_of_string forallb]; intros H.
  - apply no_slash_nil.
  - apply andb_true_iff in H as [Hc Hr]. apply no_slash_cons. split.
    + intros ->. discriminate.
    + now apply IH.
Qed.

Lemma Split_nonempty (s : string) : Handlers.Split s <> [].
Proof.
  induction s as [|c r IH]; cbn [Handlers.Split]; [discriminate|].
  destruct (Ascii.eqb c "/"); [discriminate|].
  destruct (Handlers.Split r); discriminate.
Qed.

Lemma Split_no_slash (s : string) : no_slash s -> Handlers.Split s = [s].
Proof.
  induction s as [|c r IH]; intros H; [reflexivity|].
  apply no_slash_cons in H as [Hc Hr]. cbn [Handlers.Split].
  destruct (Ascii.eqb_spec c "/") as [->|_]; [congruence|].
  rewrite (IH Hr). reflexivity.
Qed.

Lemma Split_append (a b : string) :
  no_slash a ->
  Handlers.Split (a +:+ String "/" b) = a :: Handlers.Split b.
Proof.
  induction a as [|c r IH]; intros H.
  - rewrite append_nil. reflexivity.
  - apply no_slash_cons in H as [Hc Hr]. rewrite append_cons.
    cbn [Handlers.Split].
    destruct (Ascii.eqb_spec c "/") as [->|_]; [congruence|].
    rewrite (IH Hr). reflexivity.
Qed.

Lemma TrimRight_no_slash (s : string) :
  no_slash s -> Handlers.TrimRight s = s.
Proof.
  induction s as [|c r IH]; intros H; [reflexivity|].
  apply no_slash_cons in H as [Hc Hr]. cbn [Handlers.TrimRight].
  rewrite (IH Hr). destruct r; [|reflexivity].
  destruct (Ascii.eqb_spec c "/") as [->|_]; [congruence | reflexivity].
Qed.

Lemma TrimRight_keep (a s : string) :
  s <> "" -> no_slash s -> Handlers.TrimRight (a +:+ s) = a +:+ s.
Proof.
  intros Hne Hs. induction a as [|c r IH].
  - rewrite append_nil. now apply TrimRight_no_slash.
  - rewrite append_cons. cbn [Handlers.TrimRight]. rewrite IH.
    destruct (r +:+ s) eqn:E; [|reflexivity].
    exfalso. apply (f_equal String.length) in E.
    rewrite length_append in E. destruct s; [congruence | cbn in E; lia].
Qed.

Lemma TrimSuffix_append (x suffix : string) :
  Handlers.TrimSuffix (x +:+ suffix) suffix = x.
Proof.
  unfold Handlers.TrimSuffix. rewrite length_append.
  replace (String.length x + String.length suffix - String.length suffix)%nat
    with (String.length x) by lia.
  replace (String.length suffix <=? String.length x + String.length suffix)%nat
    with true by (symmetry; apply Nat.leb_le; lia).
  cbn [andb].
  rewrite <- (Nat.add_0_r (String.length x)) at 1.
  rewrite substring_append_r, substring_all, String.eqb_refl.
  apply substring_append_l.
Qed.

Lemma TrimRight_append_keep (a b : string) :
  b <> "" -> Handlers.TrimRight b = b ->
  Handlers.TrimRight (a +:+ b) = a +:+ b.
Proof.
  intros Hne Hb. induction a as [|c r IH].
  - now rewrite append_nil.
  - rewrite append_cons. cbn [Handlers.TrimRight]. rewrite IH.
    destruct (r +:+ b) eqn:E; [|reflexivity].
    exfalso. apply (f_equal String.length) in E.
    rewrite length_append in E. destruct b; [congruence | cbn in E; lia].
Qed.

Lemma append_cons_nonempty (c : ascii) (a b : string) : String c a +:+ b <> "".
Proof. rewrite append_cons. discriminate. Qed.

Lemma append_nonempty_r (a b : string) : b <> "" -> a +:+ b <> "".
Proof.
  intros Hb E. apply (f_equal String.length) in E.
  rewrite length_append in E. destruct b; [congruence | cbn in E; lia].
Qed.

Lemma no_slash_v1 : no_slash "v1".
Proof. now apply no_slash_check. Qed.
Lemma no_slash_projects : no_slash "projects".
Proof. now apply no_slash_check. Qed.
Lemma no_slash_secrets : no_slash "secrets".
Proof. now apply no_slash_check. Qed.
Lemma no_slash_versions : no_slash "versions".
Proof. now apply no_slash_check. Qed.

(** The parts of the path of a resource. *)
Lemma parts_of_secret_path (p s : string) :
  no_slash p -> no_slash s -> s <> "" ->
  Handlers.Split
    (Handlers.Trim ("/v1/projects/" +:+ p +:+ "/secrets/" +:+ s))
  = ["v1"; "projects"; p; "secrets"; s].
Proof.
  intros Hp Hs Hne. unfold Handlers.Trim.
  change (Handlers.TrimLeft ("/v1/projects/" +:+ p +:+ "/secrets/" +:+ s))
    with ("v1/projects/" +:+ p +:+ "/secrets/" +:+ s).
  rewrite (TrimRight_append_keep "v1/projects/").
  2:{ destruct p; [discriminate | apply append_cons_nonempty]. }
  2:{ apply TrimRight_append_keep; [apply append_cons_nonempty|].
      apply TrimRight_append_keep; [exact Hne|].
      now apply TrimRight_no_slash. }
  change ("v1/projects/" +:+ p +:+ "/secrets/" +:+ s)
    with ("v1" +:+ String "/"
            ("projects" +:+ String "/"
               (p +:+ String "/" ("secrets" +:+ String "/" s)))).
  rewrite (Split_append "v1") by exact no_slash_v1.
  rewrite (Split_append "projects") by exact no_slash_projects.
  rewrite (Split_append p) by exact Hp.
  rewrite (Split_append "secrets") by exact no_slash_secrets.
  now rewrite Split_no_slash.
Qed.

(** The parts of the path of a collection of resources. *)
Lemma parts_of_secrets_path (p : string) :
  no_slash p ->
  Handlers.Split (Handlers.Trim ("/v1/projects/" +:+ p +:+ "/secrets"))
  = ["v1"; "projects"; p; "secrets"].
Proof.
  intros Hp. unfold Handlers.Trim.
  change (Handlers.TrimLeft ("/v1/projects/" +:+ p +:+ "/secrets"))
    with ("v1/projects/" +:+ p +:+ "/secrets").
  rewrite (TrimRight_append_keep "v1/projects/").
  2:{ destruct p; [discriminate | apply append_cons_nonempty]. }
  2:{ apply TrimRight_append_keep; [discriminate | reflexivity]. }
  change ("v1/projects/" +:+ p +:+ "/secrets")
    with ("v1" +:+ String "/"
            ("projects" +:+ String "/" (p +:+ String "/" "secrets"))).
  rewrite (Split_append "v1") by exact no_slash_v1.
  rewrite (Split_append "projects") by exact no_slash_projects.
  rewrite (Split_append p) by exact Hp.
  reflexivity.
Qed.

(** The parts of the path of a version. *)
Lemma parts_of_version_path (p s v : string) :
  no_slash p -> no_slash s -> no_slash v -> v <> "" ->
  Handlers.Split
    (Handlers.Trim
       ("/v1/projects/" +:+ p +:+ "/secrets/" +:+ s +:+ "/versions/" +:+ v))
  = ["v1"; "projects"; p; "secrets"; s; "versions"; v].
Proof.
  intros Hp Hs Hv Hne. unfold Handlers.Trim.
  change (Handlers.TrimLeft
            ("/v1/projects/" +:+ p +:+ "/secrets/" +:+ s +:+ "/versions/" +:+ v))
    with ("v1/projects/" +:+ p +:+ "/secrets/" +:+ s +:+ "/versions/" +:+ v).
  rewrite (TrimRight_append_keep "v1/projects/").
  2:{ destruct p; [discriminate | apply append_cons_nonempty]. }
  2:{ apply TrimRight_append_keep; [apply append_cons_nonempty|].
      apply TrimRight_append_keep;
        [apply append_nonempty_r, append_cons_nonempty|].
      apply TrimRight_append_keep; [apply append_cons_nonempty|].
      apply TrimRight_append_keep; [exact Hne|].
      now apply TrimRight_no_slash. }
  change ("v1/projects/" +:+ p +:+ "/secrets/" +:+ s +:+ "/versions/" +:+ v)
    with ("v1" +:+ String "/"
            ("projects" +:+ String "/"
               (p +:+ String "/"
                  ("secrets" +:+ String "/"
                     (s +:+ String "/" ("versions" +:+ String "/" v)))))).
  rewrite (Split_append "v1") by exact no_slash_v1.
  rewrite (Split_append "projects") by exact no_slash_projects.
  rewrite (Split_append p) by exact Hp.
  rewrite (Split_append "secrets") by exact no_slash_secrets.
  rewrite (Split_append s) by exact Hs.
  rewrite (Split_append "versions") by exact no_slash_versions.
  now rewrite Split_no_slash.
Qed.

(** X19. From the path of a resource, with a project id and a non-empty
    secret id that hold no slash, the handlers read both ids back,
    provided the project is not named ["projects"]; so they do from the
    path of the [:addVersion] call; and [extractProjectID] reads the
    project id from the path of the collection, whatever its name. *)
Theorem ids_of_secret_path (p s : string) :
  no_slash p -> no_slash s -> s <> "" -> p <> "projects" ->
  Handlers.extractProjectAndSecretID
    ("/v1/projects/" +:+ p +:+ "/secrets/" +:+ s) = (p, s)
  /\ Handlers.extractProjectAndSecretFromAddVersionPath
       (("/v1/projects/" +:+ p +:+ "/secrets/" +:+ s) +:+ ":addVersion") = (p, s)
  /\ Handlers.extractProjectID ("/v1/projects/" +:+ p +:+ "/secrets") = p.
Proof.
  intros Hp Hs Hne Hpp.
  assert (Hpair : Handlers.extractProjectAndSecretID
                    ("/v1/projects/" +:+ p +:+ "/secrets/" +:+ s) = (p, s)).
  { unfold Handlers.extractProjectAndSecretID.
    rewrite parts_of_secret_path by assumption.
    cbn [Handlers.pair_loop].
    change (String.eqb "v1" "projects") with false.
    change (String.eqb "v1" "secrets") with false.
    change (String.eqb "projects" "projects") with true.
    change (String.eqb "projects" "secrets") with false.
    change (String.eqb "secrets" "projects") with false.
    change (String.eqb "secrets" "secrets") with true.
    cbv beta iota zeta.
    destruct (String.eqb_spec p "projects") as [->|_]; [congruence|].
    destruct (String.eqb p "secrets"); reflexivity. }
  split; [exact Hpair|]. split.
  - unfold Handlers.extractProjectAndSecretFromAddVersionPath.
    rewrite TrimSuffix_append. exact Hpair.
  - unfold Handlers.extractProjectID.
    rewrite parts_of_secrets_path by assumption. reflexivity.
Qed.

Lemma no_slash_p1 : no_slash "p1".
Proof. now apply no_slash_check. Qed.
Lemma no_slash_s1 : no_slash "s1".
Proof. now apply no_slash_check. Qed.

Lemma ids_of_secret_path_witness :
  Handlers.extractProjectAndSecretID
    ("/v1/projects/" +:+ "p1" +:+ "/secrets/" +:+ "s1") = ("p1", "s1")
  /\ Handlers.extractProjectAndSecretFromAddVersionPath
       (("/v1/projects/" +:+ "p1" +:+ "/secrets/" +:+ "s1") +:+ ":addVersion")
     = ("p1", "s1")
  /\ Handlers.extractProjectID ("/v1/projects/" +:+ "p1" +:+ "/secrets") = "p1".
Proof.
  apply (ids_of_secret_path "p1" "s1");
    [exact no_slash_p1 | exact no_slash_s1 | discriminate | discriminate].
Defined.

(** X20. From the path of a version, with ids that hold no slash and a
    non-empty version id, the handlers read the three ids back,
    provided the project is not named ["projects"] and the secret is
    named neither ["projects"] nor ["secrets"]; so they do from the path
    of the [:access] call. *)
Theorem ids_of_version_path (p s v : string) :
  no_slash p -> no_slash s -> no_slash v -> v <> "" ->
  p <> "projects" -> s <> "projects" -> s <> "secrets" ->
  Handlers.extractProjectSecretAndVersionID
    ("/v1/projects/" +:+ p +:+ "/secrets/" +:+ s +:+ "/versions/" +:+ v)
  = (p, s, v)
  /\ Handlers.extractProjectSecretAndVersionFromAccessPath
       (("/v1/projects/" +:+ p +:+ "/secrets/" +:+ s +:+ "/versions/" +:+ v)
        +:+ ":access")
     = (p, s, v).
Proof.
  intros Hp Hs Hv Hne Hpp Hsp Hss.
  assert (Htriple : Handlers.extractProjectSecretAndVersionID
            ("/v1/projects/" +:+ p +:+ "/secrets/" +:+ s +:+ "/versions/" +:+ v)
          = (p, s, v)).
  { unfold Handlers.extractProjectSecretAndVersionID.
    rewrite parts_of_version_path by assumption.
    cbn [Handlers.triple_loop].
    change (String.eqb "v1" "projects") with false.
    change (String.eqb "v1" "secrets") with false.
    change (String.eqb "v1" "versions") with false.
    change (String.eqb "projects" "projects") with true.
    change (String.eqb "projects" "secrets") with false.
    change (String.eqb "projects" "versions") with false.
    change (String.eqb "secrets" "projects") with false.
    change (String.eqb "secrets" "secrets") with true.
    change (String.eqb "secrets" "versions") with false.
    change (String.eqb "versions" "projects") with false.
    change (String.eqb "versions" "secrets") with false.
    change (String.eqb "versions" "versions") with true.
    cbv beta iota zeta.
    destruct (String.eqb_spec p "projects") as [->|_]; [congruence|].
    destruct (String.eqb_spec s "projects") as [->|_]; [congruence|].
    destruct (String.eqb_spec s "secrets") as [->|_]; [congruence|].
    destruct (String.eqb p "secrets"), (String.eqb p "versions"),
      (String.eqb s "versions"); reflexivity. }
  split; [exact Htriple|].
  unfold Handlers.extractProjectSecretAndVersionFromAccessPath.
  rewrite TrimSuffix_append. exact Htriple.
Qed.

Lemma ids_of_version_path_witness :
  Handlers.extractProjectSecretAndVersionID
    ("/v1/projects/" +:+ "p1" +:+ "/secrets/" +:+ "s1" +:+ "/versions/" +:+ "1")
  = ("p1", "s1", "1")
  /\ Handlers.extractProjectSecretAndVersionFromAccessPath
       (("/v1/projects/" +:+ "p1" +:+ "/secrets/" +:+ "s1"
           +:+ "/versions/" +:+ "1") +:+ ":access")
     = ("p1", "s1", "1").
Proof.
  apply (ids_of_version_path "p1" "s1" "1");
    [exact no_slash_p1 | exact no_slash_s1 | now apply no_slash_check
    | discriminate | discriminate | discriminate | discriminate].
Defined.

(** X21. A project named ["projects"] is not read back: from the path
    of one of its resources the handlers take ["secrets"] as the
    project id. *)
Theorem project_named_projects (s : string) :
  no_slash s -> s <> "" ->
  Handlers.extractProjectAndSecretID
    ("/v1/projects/" +:+ "projects" +:+ "/secrets/" +:+ s) = ("secrets", s).
Proof.
  intros Hs Hne. unfold Handlers.extractProjectAndSecretID.
  rewrite parts_of_secret_path by (try assumption; exact no_slash_projects).
  reflexivity.
Qed.

Lemma project_named_projects_witness :
  Handlers.extractProjectAndSecretID
    ("/v1/projects/" +:+ "projects" +:+ "/secrets/" +:+ "s1") = ("secrets", "s1").
Proof.
  apply (project_named_projects "s1"); [exact no_slash_s1 | discriminate].
Defined.

(** ** The substring search of the dispatcher *)

Lemma match_loop_shift (c : ascii) (s substr : string) (i j k : nat) :
  match_loop (String c s) substr (S i) j k = match_loop s substr i j k.
Proof.
  revert j. induction k as [|k IH]; intros j; [reflexivity|].
  cbn [match_loop Nat.add String.get].
  destruct (String.get (i + j) s) as [a|], (String.get j substr) as [b|];
    try reflexivity.
  destruct (Ascii.eqb a b); [apply IH | reflexivity].
Qed.

Lemma match_loop_both (c d : ascii) (s substr : string) (j k : nat) :
  match_loop (String c s) (String d substr) 0 (S j) k
  = match_loop s substr 0 j k.
Proof.
  revert j. induction k as [|k IH]; intros j; [reflexivity|].
  cbn [match_loop Nat.add String.get].
  destruct (String.get j s) as [a|], (String.get j substr) as [b|];
    try reflexivity.
  destruct (Ascii.eqb a b); [apply IH | reflexivity].
Qed.

(** The inner loop at offset 0 tests whether [substr] is a prefix. *)
Lemma match_loop_prefix (substr s : string) :
  match_loop s substr 0 0 (String.length substr) = true
  <-> exists b, s = substr +:+ b.
Proof.
  revert s. induction substr as [|d substr IH]; intros s.
  - split; [intros _; now exists s | reflexivity].
  - cbn [String.length match_loop Nat.add String.get].
    destruct s as [|c s].
    + split; [discriminate|]. intros [b Hb]. rewrite append_cons in Hb.
      discriminate.
    + cbn [String.get]. destruct (Ascii.eqb_spec c d) as [->|Hcd].
      * rewrite match_loop_both, IH. split; intros [b Hb]; exists b.
        -- rewrite append_cons. now f_equal.
        -- rewrite append_cons in Hb. now injection Hb.
      * split; [discriminate|]. intros [b Hb]. rewrite append_cons in Hb.
        injection Hb as Hc _. contradiction.
Qed.

(** The inner loop at offset [i], when the window fits. *)
Lemma match_loop_at (substr s : string) (i : nat) :
  (i + String.length substr <= String.length s)%nat
  /\ match_loop s substr i 0 (String.length substr) = true
  <-> exists a b, s = a +:+ substr +:+ b /\ String.length a = i.
Proof.
  revert s. induction i as [|i IH]; intros s.
  - rewrite match_loop_prefix. split.
    + intros [_ [b Hb]]. exists "", b. now rewrite append_nil.
    + intros (a & b & Hs & Ha). destruct a; [|discriminate].
      rewrite append_nil in Hs. split; [|now exists b].
      subst s. rewrite length_append. lia.
  - destruct s as [|c s].
    + split.
      * intros [Hfit _]. cbn in Hfit. lia.
      * intros (a & b & Hs & Ha). destruct a; [discriminate|].
        rewrite append_cons in Hs. discriminate.
    + rewrite match_loop_shift. cbn [String.length]. split.
      * intros [Hfit Hm].
        destruct (proj1 (IH s)) as (a & b & Hs & Ha); [split; [lia|exact Hm]|].
        exists (String c a), b. rewrite append_cons, Hs. cbn [String.length].
        split; [reflexivity | now f_equal].
      * intros (a & b & Hs & Ha). destruct a as [|c' a]; [discriminate|].
        rewrite append_cons in Hs. injection Hs as _ Hs.
        cbn [String.length] in Ha.
        destruct (proj2 (IH s)) as [Hfit Hm].
        { exists a, b. split; [exact Hs | lia]. }
        split; [lia | exact Hm].
Qed.

(** The outer loop finds an offset exactly when one of those it tries
    matches. *)
Lemma index_loop_found (s substr : string) (k i : nat) :
  (0 <=? index_loop s substr i k) = true
  <-> exists i', (i <= i' < i + k)%nat
                 /\ match_loop s substr i' 0 (String.length substr) = true.
Proof.
  revert i. induction k as [|k IH]; intros i; cbn [index_loop].
  - split; [discriminate|]. intros (i' & Hi & _). lia.
  - destruct (match_loop s substr i 0 (String.length substr)) eqn:Hm.
    + split.
      * intros _. exists i. split; [lia | exact Hm].
      * intros _. apply Z.leb_le. lia.
    + rewrite IH. split; intros (i' & Hi & Hm').
      * exists i'. split; [lia | exact Hm'].
      * exists i'. split; [|exact Hm'].
        destruct (decide (i' = i)) as [->|]; [congruence | lia].
Qed.

Lemma contains_iff (s substr : string) :
  contains s substr = true <-> exists a b, s = a +:+ substr +:+ b.
Proof.
  unfold contains, indexOf. rewrite andb_true_iff, Nat.leb_le. split.
  - intros [Hlen Hidx].
    destruct (Nat.ltb_spec (String.length s) (String.length substr)) as [Hlt|_];
      [lia|].
    apply index_loop_found in Hidx as (i & Hi & Hm).
    destruct (proj1 (match_loop_at substr s i)) as (a & b & Hs & _).
    { split; [lia | exact Hm]. }
    now exists a, b.
  - intros (a & b & Hs).
    destruct (proj2 (match_loop_at substr s (String.length a))) as [Hfit Hm].
    { now exists a, b. }
    split; [lia|].
    destruct (Nat.ltb_spec (String.length s) (String.length substr)) as [Hlt|_];
      [lia|].
    apply index_loop_found. exists (String.length a). split; [lia | exact Hm].
Qed.

(** X22. [contains], the substring search that the dispatcher writes
    out by hand, holds exactly when [substr] occurs in [s]: when [s] is
    some bytes, then [substr], then some bytes. *)
Theorem contains_occurs (s substr : string) :
  contains s substr = true <-> exists a b, s = a +:+ substr +:+ b.
Proof. apply contains_iff. Qed.

(** X23. The test [containsVersions], by which the dispatcher keeps
    version paths away from [GetSecret] and [DeleteSecret], also holds
    for the path of every resource whose secret id begins with
    ["versions"]; [containsAccess] holds for every path in which
    [":access"] occurs, not only at the end. *)
Theorem containsVersions_secret_id (p rest tail : string) :
  containsVersions ("/v1/projects/" +:+ p +:+ "/secrets/versions" +:+ rest) = true
  /\ containsAccess
       ("/v1/projects/" +:+ p +:+ "/secrets/" +:+ rest +:+ ":access" +:+ tail)
     = true.
Proof.
  split.
  - apply contains_iff.
    exists ("/v1/projects/" +:+ p +:+ "/secrets"), rest.
    now rewrite !append_assoc.
  - apply contains_iff.
    exists ("/v1/projects/" +:+ p +:+ "/secrets/" +:+ rest), tail.
    now rewrite !append_assoc.
Qed.

(** ** The lock of the in-memory store *)

Lemma withLock_cases {A} (m : MemoryStorage)
    (body : gomap Secret -> result (A * gomap Secret)) :
  withLock m body
  = match mu m with
    | Unlocked =>
        match body (secrets m) with
        | Returns (a, secrets') =>
            Returns (a, {| mu := Unlocked; secrets := secrets' |})
        | Blocks => Blocks
        | Panics => Panics
        end
    | _ => Blocks
    end.
Proof.
  unfold withLock. destruct (mu m); reflexivity.
Qed.

Lemma withRLock_cases {A} (m : MemoryStorage)
    (body : gomap Secret -> result A) :
  withRLock m body
  = match mu m with
    | WLocked => Blocks
    | l =>
        match body (secrets m) with
        | Returns a => Returns (a, {| mu := l; secrets := secrets m |})
        | Blocks => Blocks
        | Panics => Panics
        end
    end.
Proof.
  unfold withRLock. destruct (mu m) as [|n|]; reflexivity.
Qed.


Ltac split_matches :=
  repeat match goal with
         | |- context [match ?x with _ => _ end] => destruct x eqn:?
         | H : context [match ?x with _ => _ end] |- _ => destruct x eqn:?
         end.

Lemma withLock_returns {A} (m m' : MemoryStorage)
    (body : gomap Secret -> result (A * gomap Secret)) (a : A) :
  withLock m body = Returns (a, m') -> mu m = Unlocked /\ mu m' = Unlocked.
Proof.
  rewrite withLock_cases. destruct (mu m); try discriminate.
  destruct (body (secrets m)) as [[a' s']| |]; try discriminate.
  intros [= _ <-]. split; reflexivity.
Qed.

Lemma withRLock_returns {A} (m m' : MemoryStorage)
    (body : gomap Secret -> result A) (a : A) :
  withRLock m body = Returns (a, m') -> m' = m.
Proof.
  rewrite withRLock_cases. destruct m as [l g]. cbn [mu secrets].
  destruct l; try discriminate;
    destruct (body g); try discriminate; now intros [= _ <-].
Qed.



Lemma fmap_snd_returns {A B} (r : result (A * B)) (b : B) :
  snd <$> r = Returns b -> exists a, r = Returns (a, b).
Proof.
  destruct r as [[a b']| |]; try discriminate.
  intros [= <-]. now exists a.
Qed.



Lemma AccessSecretVersion_returns (m m' : MemoryStorage)
    (projectID secretID versionID : string) (r : checked (list byte)) :
  AccessSecretVersion m projectID secretID versionID = Returns (r, m') ->
  m' = m.
Proof.
  unfold AccessSecretVersion.
  destruct (GetSecretVersion m projectID secretID versionID)
    as [[r1 m1]| |] eqn:E; try discriminate.
  cbn [mbind result_bind]. unfold GetSecretVersion in E.
  apply withRLock_returns in E. subst m1.
  destruct r1; now intros [= _ <-].
Qed.

(** What a call that returns has done to the lock and, for a call that
    only reads, to the store. *)
Lemma run_returns (op : Op) (m m' : MemoryStorage) :
  run op m = Returns m' ->
  mu m' = mu m /\ (writes op = false -> m' = m).
Proof.
  intros H.
  destruct op; cbn [run writes] in *; apply fmap_snd_returns in H as [a H];
    try (apply withLock_returns in H as [H1 H2]; split; congruence);
    try (apply withRLock_returns in H; subst; split; reflexivity).
  apply AccessSecretVersion_returns in H. subst. split; reflexivity.
Qed.

(** X24. Whatever a call on the in-memory store does, when it returns
    the lock is in the state in which the call found it: every lock the
    call took has been released. *)
Theorem lock_is_released (op : Op) (m m' : MemoryStorage) :
  run op m = Returns m' -> mu m' = mu m.
Proof. intros H. now apply run_returns in H. Qed.

Lemma lock_is_released_witness :
  mu store_two_deleted = mu store_two.
Proof.
  apply (lock_is_released (OpDeleteSecretVersion "p1" "s1" "2")).
  vm_compute. reflexivity.
Defined.

(** X25. The five reading calls of the in-memory store ([GetSecret],
    [ListSecrets], [GetSecretVersion], [ListSecretVersions] and
    [AccessSecretVersion]) return the store exactly as they found it. *)
Theorem reads_change_nothing (op : Op) (m m' : MemoryStorage) :
  writes op = false -> run op m = Returns m' -> m' = m.
Proof. intros Hw H. apply run_returns in H as [_ H]. now apply H. Qed.

Lemma reads_change_nothing_witness :
  run (OpAccessSecretVersion "p1" "s1" "latest") store_two = Returns store_two.
Proof.
  assert (H : exists m', run (OpAccessSecretVersion "p1" "s1" "latest") store_two
                         = Returns m').
  { eexists. vm_compute. reflexivity. }
  destruct H as [m' H]. rewrite H. f_equal.
  apply (reads_change_nothing (OpAccessSecretVersion "p1" "s1" "latest"));
    [reflexivity | exact H].
Defined.





(** ** Keys and scopes *)

Lemma append_slash_inj (p p' a b : string) :
  no_slash p -> no_slash p' ->
  p +:+ String "/" a = p' +:+ String "/" b -> p = p' /\ a = b.
Proof.
  revert p'. induction p as [|c p IH]; intros p' Hp Hp' E.
  - destruct p' as [|c' p'].
    + rewrite !append_nil in E. now injection E.
    + rewrite append_nil, append_cons in E. injection E as <- _.
      apply no_slash_cons in Hp' as [Hc _]. congruence.
  - apply no_slash_cons in Hp as [Hc Hp]. destruct p' as [|c' p'].
    + rewrite append_nil, append_cons in E. injection E as -> _. congruence.
    + rewrite !append_cons in E. injection E as <- E.
      apply no_slash_cons in Hp' as [_ Hp'].
      destruct (IH p' Hp Hp' E) as [-> ->]. split; reflexivity.
Qed.

Lemma prefix_append (a b : string) : String.prefix a (a +:+ b) = true.
Proof.
  induction a as [|c a IH]; [rewrite append_nil; destruct b; reflexivity|].
  rewrite append_cons. cbn [String.prefix].
  destruct (ascii_dec c c); [exact IH | congruence].
Qed.

Lemma prefix_slash (p p' rest : string) :
  no_slash p -> no_slash p' ->
  String.prefix (p +:+ "/") (p' +:+ String "/" rest) = true -> p' = p.
Proof.
  revert p'. induction p as [|c p IH]; intros p' Hp Hp' H.
  - destruct p' as [|c' p']; [reflexivity|].
    rewrite append_nil, append_cons in H. cbn [String.prefix] in H.
    destruct (ascii_dec "/" c') as [<-|]; [|discriminate].
    apply no_slash_cons in Hp' as [Hc _]. congruence.
  - apply no_slash_cons in Hp as [Hc Hp]. rewrite append_cons in H.
    destruct p' as [|c' p'].
    + rewrite append_nil in H. cbn [String.prefix] in H.
      destruct (ascii_dec c "/"); [congruence | discriminate].
    + rewrite append_cons in H. cbn [String.prefix] in H.
      destruct (ascii_dec c c') as [<-|]; [|discriminate].
      apply no_slash_cons in Hp' as [_ Hp'].
      now rewrite (IH p' Hp Hp' H).
Qed.

(** X27. For project ids that hold no slash the keys of the store keep
    resources apart: two keys are equal only when both ids are, and the
    key of a resource starts with the prefix that [ListSecrets] filters
    by exactly when the resource belongs to the project listed. *)
Theorem mkkey_separates (p p' s s' : string) :
  no_slash p -> no_slash p' ->
  (mkkey p s = mkkey p' s' -> p = p' /\ s = s')
  /\ (String.prefix (p +:+ "/") (mkkey p' s') = true <-> p' = p).
Proof.
  intros Hp Hp'. unfold mkkey. split.
  - intros E. now apply (append_slash_inj p p' s s').
  - split.
    + now apply prefix_slash.
    + intros E. subst p'.
      rewrite <- (append_assoc p "/" s'). apply prefix_append.
Qed.

Lemma mkkey_separates_witness :
  (mkkey "p1" "s1" = mkkey "p1" "s1" -> "p1" = "p1" /\ "s1" = "s1")
  /\ (String.prefix ("p1" +:+ "/") (mkkey "p1" "s1") = true <-> "p1" = "p1").
Proof.
  apply (mkkey_separates "p1" "p1" "s1" "s1"); exact no_slash_p1.
Defined.

(** X28. With a slash inside the ids the keys run together: the
    resource [c] of project [a/b] and the resource [b/c] of project [a]
    share one key, and a resource of project [a/b] is listed under
    project [a]. *)
Theorem mkkey_runs_together (a b c : string) :
  mkkey (a +:+ "/" +:+ b) c = mkkey a (b +:+ "/" +:+ c)
  /\ String.prefix (a +:+ "/") (mkkey (a +:+ "/" +:+ b) c) = true.
Proof.
  unfold mkkey. split.
  - now rewrite !append_assoc.
  - rewrite !append_assoc. rewrite <- (append_assoc a "/"). apply prefix_append.
Qed.

(** ** Messages and credentials *)

(** X29. The messages that the handlers build for a missing resource
    and for a missing version name the resource as [NewSecret] and
    [NewSecretVersion] name it: the handlers pass the secret id, and for
    a version the secret id and the version id joined by a slash, which
    [FormatResourceNotFoundError] takes apart again when neither id
    holds a slash. *)
Theorem not_found_names_the_resource (env : Env) (p s v : string)
    (labels : gomap string) (data : list byte) :
  no_slash s -> no_slash v ->
  FormatResourceNotFoundError "secret" p s
  = "Secret [" +:+ Name (NewSecret env p s labels) +:+ "] not found."
  /\ FormatResourceNotFoundError "version" p (s +:+ "/" +:+ v)
     = "Secret Version [" +:+ vName (NewSecretVersion env p s v data)
         +:+ "] not found.".
Proof.
  intros Hs Hv. unfold FormatResourceNotFoundError.
  cbn [Name NewSecret vName NewSecretVersion]. split.
  - change (String.eqb "secret" "secret") with true. cbv iota.
    now rewrite !append_assoc.
  - change (String.eqb "version" "secret") with false.
    change (String.eqb "version" "version") with true. cbv iota.
    change (s +:+ "/" +:+ v) with (s +:+ String "/" v).
    rewrite (Split_append s v Hs), (Split_no_slash v Hv).
    now rewrite !append_assoc.
Qed.

Lemma not_found_names_the_resource_witness :
  FormatResourceNotFoundError "secret" "p1" "s1"
  = "Secret [projects/p1/secrets/s1] not found."
  /\ FormatResourceNotFoundError "version" "p1" ("s1" +:+ "/" +:+ "1")
     = "Secret Version [projects/p1/secrets/s1/versions/1] not found.".
Proof.
  apply (not_found_names_the_resource env0 "p1" "s1" "1" None []);
    [exact no_slash_s1 | now apply no_slash_check].
Defined.

Lemma prefix_iff_append (a s : string) :
  String.prefix a s = true <-> exists b, s = a +:+ b.
Proof.
  revert s. induction a as [|c a IH]; intros s.
  - split; [intros _; now exists s | intros _; destruct s; reflexivity].
  - destruct s as [|c' s]; cbn [String.prefix].
    + split; [discriminate|]. intros [b Hb]. rewrite append_cons in Hb.
      discriminate.
    + destruct (ascii_dec c c') as [<-|Hne].
      * rewrite IH. split; intros [b Hb]; exists b.
        -- rewrite append_cons. now f_equal.
        -- rewrite append_cons in Hb. now injection Hb.
      * split; [discriminate|]. intros [b Hb]. rewrite append_cons in Hb.
        injection Hb as Hc _. congruence.
Qed.

(** X30. [MockAuth] lets a request through exactly when its
    [Authorization] header is ["Bearer "] followed by at least one byte;
    what follows is not looked at. *)
Theorem MockAuth_passes (authHeader : string) :
  MockAuth authHeader = Next
  <-> exists token, token <> "" /\ authHeader = "Bearer " +:+ token.
Proof.
  unfold MockAuth, TrimPrefix. split.
  - destruct (String.eqb_spec authHeader "") as [->|Hne]; [discriminate|].
    destruct (String.prefix "Bearer " authHeader) eqn:Hp; [|discriminate].
    cbn [negb]. apply prefix_iff_append in Hp as [token ->].
    rewrite length_append.
    replace (String.length "Bearer " + String.length token
             - String.length "Bearer ")%nat
      with (String.length token) by lia.
    rewrite <- (Nat.add_0_r (String.length "Bearer ")) at 1.
    rewrite substring_append_r, substring_all.
    destruct (String.eqb_spec token "") as [->|Htok]; [discriminate|].
    intros _. now exists token.
  - intros (token & Htok & ->).
    change (String.eqb ("Bearer " +:+ token) "") with false. cbv iota.
    rewrite (proj2 (prefix_iff_append "Bearer " ("Bearer " +:+ token)))
      by now exists token.
    cbn [negb]. rewrite length_append.
    replace (String.length "Bearer " + String.length token
             - String.length "Bearer ")%nat
      with (String.length token) by lia.
    rewrite <- (Nat.add_0_r (String.length "Bearer ")) at 1.
    rewrite substring_append_r, substring_all.
    destruct (String.eqb_spec token "") as [->|_]; [congruence | reflexivity].
Qed.
